(** * Bounded-depth transaction tracer and flow-graph builder

    A shallow embedding of [eth_track.py] and [xrp_track.py]: the ledger
    client ([get_transactions]), the paginated fetch with its filter
    ([fetch_all_transactions]), the recursive tracer ([trace_transactions]),
    the graph builder ([build_graph]) and the layout pass of
    [visualize_graph], followed by the properties of the written
    specification, each proved or refuted on these definitions.

    Modelling conventions.
    - Python integers are [Z]; account identifiers are [string].
    - A Python [dict] is an insertion-ordered association list ([Dict]):
      [visualize_graph] iterates [node_levels] in insertion order.
    - The Python [set] [traced] is a [gset string].
    - Floats are modelled by exact rationals ([Q]); only sign tests and
      comparisons of the converted amounts are used.
    - [while True] loops and the recursion take a fuel argument; running out
      of it is the result [OutOfFuel], distinct from every Python outcome.
    - Exceptions are the result [Exc e]; the mutated state survives them.
    - The HTTP server is an oracle from the number of requests already
      issued and the request to a reply, so that a reply may change from one
      attempt to the next.
    - [print] calls are not modelled. *)

From Stdlib Require Import ZArith QArith List String Bool Lia Sorted.
From stdpp Require Import gmap strings list.

Close Scope Q_scope.
Open Scope string_scope.
Open Scope list_scope.
Open Scope Z_scope.

(** ** Outcomes of Python code *)

Inductive exn : Type :=
| HTTPError (status_code : Z)
| RequestFailure
| MaxRetriesExceeded
| KeyError (key : string)
| ValueError.

Inductive res (A : Type) : Type :=
| Ret (a : A)
| Exc (e : exn)
| OutOfFuel.

Arguments Ret {A} a.
Arguments Exc {A} e.
Arguments OutOfFuel {A}.

(** ** Insertion-ordered dictionaries *)

Module Dict.
Section Dict.
Context {K V : Type} `{EqDecision K}.

Definition t := list (K * V).

Fixpoint get (d : list (K * V)) (k : K) : option V :=
  match d with
  | [] => None
  | (k', v) :: d' => if decide (k = k') then Some v else get d' k
  end.

(** [d[k] = v]: an existing key keeps its position, a new key goes last. *)
Fixpoint set (d : list (K * V)) (k : K) (v : V) : list (K * V) :=
  match d with
  | [] => [(k, v)]
  | (k', v') :: d' =>
      if decide (k = k') then (k, v) :: d' else (k', v') :: set d' k v
  end.

Definition mem (d : list (K * V)) (k : K) : bool :=
  match get d k with Some _ => true | None => false end.

Definition keys (d : list (K * V)) : list K := map fst d.
Definition values (d : list (K * V)) : list V := map snd d.
End Dict.
End Dict.

(** ** The network: request counter and the log of [time.sleep] calls *)

Record net : Type := { clock : nat; sleeps : list Z }.

Definition tick (w : net) : net :=
  {| clock := S (clock w); sleeps := sleeps w |}.

Definition time_sleep (seconds : Z) (w : net) : net :=
  {| clock := clock w; sleeps := sleeps w ++ [seconds] |}.

Definition net0 : net := {| clock := O; sleeps := [] |}.

(** A reply to [requests.get]: an HTTP response with its status code and
    decoded JSON body, or a failure below HTTP (connection, timeout). *)
Inductive reply (page : Type) : Type :=
| Http (status_code : Z) (json : page)
| Failed.

Arguments Http {page} status_code json.
Arguments Failed {page}.

(** [response.raise_for_status()] raises for 4xx and 5xx codes. *)
Definition raises_for_status (status_code : Z) : bool :=
  (400 <=? status_code) && (status_code <? 600).

(** ** State of one trace *)

(** [traced] and [node_levels] are the two objects shared by all recursive
    calls (the default arguments [set()] and [{}] of the source are objects
    created once; here the caller passes the state). Two ghost logs record the order of events: [fetched] lists the
    accounts for which [fetch_all_transactions] was called, [assigned] the
    executions of [node_levels[destination] = depth + 1]. *)
Record tstate : Type := {
  wire : net;
  traced : gset string;
  node_levels : list (string * Z);
  fetched : list string;
  assigned : list (string * Z)
}.

Definition with_wire (w : net) (st : tstate) : tstate :=
  {| wire := w; traced := traced st; node_levels := node_levels st;
     fetched := fetched st; assigned := assigned st |}.

Definition mark_traced (account : string) (st : tstate) : tstate :=
  {| wire := wire st; traced := {[account]} ∪ traced st;
     node_levels := node_levels st; fetched := fetched st;
     assigned := assigned st |}.

Definition log_fetch (account : string) (st : tstate) : tstate :=
  {| wire := wire st; traced := traced st; node_levels := node_levels st;
     fetched := fetched st ++ [account]; assigned := assigned st |}.

Definition set_level (account : string) (level : Z) (st : tstate) : tstate :=
  {| wire := wire st; traced := traced st;
     node_levels := Dict.set (node_levels st) account level;
     fetched := fetched st;
     assigned := assigned st ++ [(account, level)] |}.

(** ** The tracer, common to both ledgers

    [trace_transactions] of [eth_track.py] (lines 61-81) and of
    [xrp_track.py] (lines 49-67) differ only in the test a transaction must
    pass besides [destination not in traced]; [follow] is that test and
    yields the destination. [fetch] is [fetch_all_transactions] with the
    time window fixed. *)
Module Tracer.
Section Tracer.
Context {txn : Type}.
Variable fetch : string -> Z -> Z -> net -> res (list txn) * net.
Variable follow : txn -> option string.

(** The [for txn in transactions] loop; [self] is the recursive call. *)
Fixpoint trace_loop (self : string -> Z -> tstate -> res (list txn) * tstate)
    (depth : Z) (transactions all_transactions : list txn) (st : tstate)
    : res (list txn) * tstate :=
  match transactions with
  | [] => (Ret all_transactions, st)
  | txn :: rest =>
      match follow txn with
      | Some destination =>
          if bool_decide (destination ∈ traced st)
          then trace_loop self depth rest all_transactions st
          else
            let st1 := set_level destination (depth + 1) st in
            match self destination (depth + 1) st1 with
            | (Ret sub, st2) =>
                trace_loop self depth rest (all_transactions ++ txn :: sub) st2
            | (Exc e, st2) => (Exc e, st2)
            | (OutOfFuel, st2) => (OutOfFuel, st2)
            end
      | None => trace_loop self depth rest all_transactions st
      end
  end.

Fixpoint trace_transactions (fuel : nat) (account : string)
    (depth max_depth : Z) (st : tstate) : res (list txn) * tstate :=
  match fuel with
  | O => (OutOfFuel, st)
  | S fuel' =>
      if (depth >? max_depth) || bool_decide (account ∈ traced st)
      then (Ret [], st)
      else
        let st1 := log_fetch account (mark_traced account st) in
        match fetch account depth max_depth (wire st1) with
        | (Ret transactions, w) =>
            trace_loop
              (fun a d s => trace_transactions fuel' a d max_depth s)
              depth transactions [] (with_wire w st1)
        | (Exc e, w) => (Exc e, with_wire w st1)
        | (OutOfFuel, w) => (OutOfFuel, with_wire w st1)
        end
  end.
End Tracer.
End Tracer.

(** ** The flow graph ([networkx.DiGraph])

    [nodes] maps a node to its [subset_key] attribute (absent until set);
    [edges] maps a pair to its [weight]. Both keep insertion order. *)
Record DiGraph : Type := {
  nodes : list (string * option Z);
  edges : list ((string * string) * Q)
}.

Definition empty_graph : DiGraph := {| nodes := []; edges := [] |}.

Definition add_node (n : string) (G : DiGraph) : DiGraph :=
  if Dict.mem (nodes G) n then G
  else {| nodes := nodes G ++ [(n, None)]; edges := edges G |}.

(** [G.add_edge(u, v, weight=w)]: both endpoints become nodes; the weight
    of an existing edge is replaced. *)
Definition add_edge (u v : string) (w : Q) (G : DiGraph) : DiGraph :=
  let G1 := add_node v (add_node u G) in
  {| nodes := nodes G1; edges := Dict.set (edges G1) (u, v) w |}.

(** [G.nodes[n]['subset_key'] = level] *)
Definition set_subset_key (n : string) (level : Z) (G : DiGraph) : DiGraph :=
  {| nodes := Dict.set (nodes G) n (Some level); edges := edges G |}.

Definition Qpositive (q : Q) : bool := negb (Qle_bool q 0).

(** ** The graph builder, common to both ledgers

    [build_graph] of [eth_track.py] (lines 84-96) and of [xrp_track.py]
    (lines 70-83) differ in the fields read and in the conversion of the
    amount; [edge_of] yields source, destination and weight of a transaction
    that gets an edge ([xrp_track.py] skips a transaction without
    [Destination] or [Amount]). The level map is mutated in place, so it is
    returned together with the outcome; [node_levels[destination]] raises
    [KeyError] when the destination has no level. *)
Module Builder.
Section Builder.
Context {txn : Type}.
Variable edge_of : txn → option (string * string * Q).

(** [if source not in node_levels: node_levels[source] = 0] *)
Definition default_source (source : string) (node_levels : list (string * Z))
    : list (string * Z) :=
  if Dict.mem node_levels source then node_levels
  else Dict.set node_levels source 0.

Fixpoint build_loop (transactions : list txn) (G : DiGraph)
    (node_levels : list (string * Z)) : res DiGraph * list (string * Z) :=
  match transactions with
  | [] => (Ret G, node_levels)
  | txn :: rest =>
      match edge_of txn with
      | Some (source, destination, weight) =>
          let G1 := add_edge source destination weight G in
          let node_levels1 := default_source source node_levels in
          match Dict.get node_levels1 source with
          | None => (Exc (KeyError source), node_levels1)
          | Some ls =>
              match Dict.get node_levels1 destination with
              | None => (Exc (KeyError destination), node_levels1)
              | Some ld =>
                  build_loop rest
                    (set_subset_key destination ld
                       (set_subset_key source ls G1))
                    node_levels1
              end
          end
      | None => build_loop rest G node_levels
      end
  end.

Definition build_graph (transactions : list txn)
    (node_levels : list (string * Z)) : res DiGraph * list (string * Z) :=
  build_loop transactions empty_graph node_levels.
End Builder.
End Builder.

(** ** [eth_track.py] *)

Module Eth.

(** One record of Etherscan's [txlist]: the fields the program reads.
    [tx_value] is the decimal string [txn['value']] (wei) read as an
    integer, [tx_timeStamp] the seconds of [txn['timeStamp']];
    [datetime.utcfromtimestamp] is monotone, so the window test compares
    seconds; the conversion is taken to succeed, as it does on the seconds
    of any date a ledger records. *)
Record txn : Type := {
  tx_from : string;
  tx_to : string;
  tx_value : Z;
  tx_timeStamp : Z;
  tx_hash : string
}.

Record txlist : Type := { status : string; result : list txn }.

(** [float(txn['value']) / 1e18] *)
Definition amount (t : txn) : Q :=
  (inject_Z (tx_value t) / inject_Z (10 ^ 18))%Q.

(** The test of line 51. *)
Definition accept (start_datetime end_datetime : Z) (t : txn) : bool :=
  (start_datetime <=? tx_timeStamp t) && (tx_timeStamp t <=? end_datetime)
  && Qpositive (amount t).

(** The test of line 74 without [destination not in traced]. *)
Definition follow (t : txn) : option string :=
  if bool_decide (tx_to t ≠ "") && Qpositive (amount t)
  then Some (tx_to t) else None.

Section Client.
(** The reply to the request for [page] of [account] when [clock]
    requests were issued before. *)
Variable server : nat -> string -> Z -> reply txlist.

(** Lines 16-36: [while True], sleeping 60 s on status 429. *)
Fixpoint get_transactions (fuel : nat) (account : string) (page : Z)
    (w : net) : res txlist * net :=
  match fuel with
  | O => (OutOfFuel, w)
  | S fuel' =>
      match server (clock w) account page with
      | Http status_code json =>
          if status_code =? 429
          then get_transactions fuel' account page (time_sleep 60 (tick w))
          else if raises_for_status status_code
               then (Exc (HTTPError status_code), tick w)
               else (Ret json, tick w)
      | Failed => (Exc RequestFailure, tick w)
      end
  end.

(** Lines 43-56: the page loop. The date conversion of line 49 is taken to
    succeed; on seconds that the platform does not convert the code raises,
    an outcome this function does not have. *)
Fixpoint fetch_pages (fuel : nat) (account : string)
    (start_datetime end_datetime : Z) (page : Z)
    (transactions : list txn) (w : net) : res (list txn) * net :=
  match fuel with
  | O => (OutOfFuel, w)
  | S fuel' =>
      match get_transactions (S fuel') account page w with
      | (Ret data, w1) =>
          if bool_decide (status data = "0") then (Ret transactions, w1)
          else
            let transactions1 :=
              transactions
              ++ List.filter (accept start_datetime end_datetime) (result data) in
            if Z.of_nat (length (result data)) <? 10000
            then (Ret transactions1, w1)
            else fetch_pages fuel' account start_datetime end_datetime
                   (page + 1) transactions1 w1
      | (Exc e, w1) => (Exc e, w1)
      | (OutOfFuel, w1) => (OutOfFuel, w1)
      end
  end.

(** Lines 40-57; [depth] and [max_depth] are accepted and unused. *)
Definition fetch_all_transactions (fuel : nat) (account : string)
    (start_datetime end_datetime : Z) (depth max_depth : Z) (w : net)
    : res (list txn) * net :=
  fetch_pages fuel account start_datetime end_datetime 1 [] w.

(** Lines 61-81. *)
Definition trace_transactions (fuel : nat) (account : string)
    (start_datetime end_datetime : Z) (depth max_depth : Z) (st : tstate)
    : res (list txn) * tstate :=
  Tracer.trace_transactions
    (fun a d m w => fetch_all_transactions fuel a start_datetime end_datetime d m w)
    follow fuel account depth max_depth st.
End Client.

(** Lines 87-90: source, destination and weight of the edge. *)
Definition edge_of (t : txn) : option (string * string * Q) :=
  Some (tx_from t, tx_to t, amount t).

(** Lines 84-96. *)
Definition build_graph (transactions : list txn)
    (node_levels : list (string * Z)) : res DiGraph * list (string * Z) :=
  Builder.build_graph edge_of transactions node_levels.

End Eth.

(** ** [xrp_track.py] *)

Module Xrp.

(** One record of xrpscan's account transactions. [Destination] and
    [Amount] may be absent; [Amount] holds [txn['Amount']['value']] read as
    an integer, [date] the parsed [txn['date']] as a number. *)
Record txn : Type := {
  Account : string;
  Destination : option string;
  Amount : option Z;
  date : Z
}.

Record txpage : Type := { transactions : list txn; marker : option string }.

(** [float(amount) / 1_000_000] *)
Definition amount (value : Z) : Q :=
  (inject_Z value / inject_Z 1000000)%Q.

(** The test of line 40: the window only. *)
Definition accept (start_datetime end_datetime : Z) (t : txn) : bool :=
  (start_datetime <=? date t) && (date t <=? end_datetime).

(** The test of line 60. *)
Definition follow (t : txn) : option string :=
  match Destination t, Amount t with
  | Some destination, Some _ => Some destination
  | _, _ => None
  end.

(** Line 12: a falsy marker is not sent. *)
Definition params_marker (marker : option string) : option string :=
  match marker with
  | Some m => if bool_decide (m = "") then None else Some m
  | None => None
  end.

Section Client.
Variable server : nat -> string -> option string -> Z -> reply txpage.

(** Lines 13-30: the loop [while attempt < retries]. *)
Fixpoint get_loop (fuel : nat) (account : string) (marker : option string)
    (limit retries attempt : Z) (w : net) : res txpage * net :=
  match fuel with
  | O => (OutOfFuel, w)
  | S fuel' =>
      if attempt <? retries then
        match server (clock w) account (params_marker marker) limit with
        | Http status_code json =>
            if status_code =? 429
            then get_loop fuel' account marker limit retries attempt
                   (time_sleep 60 (tick w))
            else if raises_for_status status_code
                 then if status_code =? 504
                      then get_loop fuel' account marker limit retries
                             (attempt + 1) (time_sleep 30 (tick w))
                      else (Exc (HTTPError status_code), tick w)
                 else (Ret json, tick w)
        | Failed => (Exc RequestFailure, tick w)
        end
      else (Exc MaxRetriesExceeded, w)
  end.

Definition get_transactions (fuel : nat) (account : string)
    (marker : option string) (limit retries : Z) (w : net)
    : res txpage * net :=
  get_loop fuel account marker limit retries 0 w.

(** Lines 36-45: the page loop; [retries] keeps its default 5. *)
Fixpoint fetch_pages (fuel : nat) (account : string)
    (start_datetime end_datetime : Z) (depth max_depth limit : Z)
    (mark : option string) (acc : list txn) (w : net)
    : res (list txn) * net :=
  match fuel with
  | O => (OutOfFuel, w)
  | S fuel' =>
      match get_transactions (S fuel') account mark limit 5 w with
      | (Ret data, w1) =>
          let acc1 :=
            acc ++ List.filter (accept start_datetime end_datetime)
                     (transactions data) in
          match marker data with
          | Some m =>
              if depth <? max_depth
              then fetch_pages fuel' account start_datetime end_datetime
                     depth max_depth limit (Some m) acc1 w1
              else (Ret acc1, w1)
          | None => (Ret acc1, w1)
          end
      | (Exc e, w1) => (Exc e, w1)
      | (OutOfFuel, w1) => (OutOfFuel, w1)
      end
  end.

Definition fetch_all_transactions (fuel : nat) (account : string)
    (start_datetime end_datetime : Z) (depth max_depth : Z) (w : net)
    : res (list txn) * net :=
  fetch_pages fuel account start_datetime end_datetime depth max_depth 200
    None [] w.

(** Lines 49-67. *)
Definition trace_transactions (fuel : nat) (account : string)
    (start_datetime end_datetime : Z) (depth max_depth : Z) (st : tstate)
    : res (list txn) * tstate :=
  Tracer.trace_transactions
    (fun a d m w => fetch_all_transactions fuel a start_datetime end_datetime d m w)
    follow fuel account depth max_depth st.
End Client.

(** Lines 73-77: the edge of a transaction that has both fields. *)
Definition edge_of (t : txn) : option (string * string * Q) :=
  match Destination t, Amount t with
  | Some destination, Some value => Some (Account t, destination, amount value)
  | _, _ => None
  end.

(** Lines 70-83. *)
Definition build_graph (txns : list txn) (node_levels : list (string * Z))
    : res DiGraph * list (string * Z) :=
  Builder.build_graph edge_of txns node_levels.

End Xrp.

(** ** The layout pass of [visualize_graph]

    Lines 104-130 of [eth_track.py], 90-112 of [xrp_track.py]. The random
    jitter changes the coordinates of the keys of [pos] and adds no key; the
    definitions give [pos] as it is before the jitter. *)

Module Layout.

(** [sum([G.edges[edge]['weight'] for edge in G.in_edges(node)])], as the
    exact sum of the weights of the edges into [node]. The code adds floats,
    and for a [node] that is not in [G] networkx takes the string for a
    collection of nodes; what is proved of the ranking is proved for every
    key ([place_level_by] below). *)
Definition in_weight (G : DiGraph) (node : string) : Q :=
  fold_left Qplus
    (map snd (List.filter (fun e => bool_decide (snd (fst e) = node)) (edges G)))
    0%Q.

(** [nodes.sort(key=..., reverse=True)]: stable, descending. *)
Fixpoint insert_desc (key : string -> Q) (x : string) (l : list string)
    : list string :=
  match l with
  | [] => [x]
  | y :: l' =>
      if negb (Qle_bool (key y) (key x)) then y :: insert_desc key x l'
      else x :: y :: l'
  end.

Definition sort_desc (key : string -> Q) (l : list string) : list string :=
  fold_right (insert_desc key) [] l.

(** Lines 109-112: one step of the grouping loop. *)
Definition group_step (level_nodes : list (Z * list string))
    (item : string * Z) : list (Z * list string) :=
  let (node, level) := item in
  let nodes :=
    match Dict.get level_nodes level with
    | Some nodes => nodes
    | None => []
    end in
  Dict.set level_nodes level (nodes ++ [node]).

Definition level_nodes (node_levels : list (string * Z))
    : list (Z * list string) :=
  fold_left group_step node_levels [].

(** [for i, node in enumerate(nodes): pos[node] = (level, -i)] *)
Fixpoint place_nodes (level i : Z) (nodes : list string)
    (pos : list (string * (Z * Z))) : list (string * (Z * Z)) :=
  match nodes with
  | [] => pos
  | node :: rest => place_nodes level (i + 1) rest (Dict.set pos node (level, - i))
  end.

(** Lines 115-121, the body of the loop over [level_nodes.items()]. Every
    list of [level_nodes] holds a node, so [nodes[0]] exists. *)
Definition place_level (G : DiGraph) (pos : list (string * (Z * Z)))
    (entry : Z * list string) : list (string * (Z * Z)) :=
  let (level, nodes) := entry in
  if level =? 0 then
    match nodes with
    | node0 :: _ => Dict.set pos node0 (0, 0)
    | [] => pos
    end
  else place_nodes level 0 (sort_desc (in_weight G) nodes) pos.

(** [pos] after the loop of lines 115-121; [max] of an empty level map
    raises [ValueError] at line 106. *)
Definition visualize_graph_pos (G : DiGraph) (node_levels : list (string * Z))
    : res (list (string * (Z * Z))) :=
  match node_levels with
  | [] => Exc ValueError
  | _ :: _ => Ret (fold_left (place_level G) (level_nodes node_levels) [])
  end.

(** Line 128 of [eth_track.py]: the nodes left to the random placement.
    [xrp_track.py] has no such pass. *)
Definition remaining_nodes (G : DiGraph) (pos : list (string * (Z * Z)))
    : list string :=
  List.filter (fun n => negb (Dict.mem pos n)) (Dict.keys (nodes G)).

End Layout.

(** The loop of lines 115-121 with the sort key of line 119 as a
    parameter. The key the code computes for a node is one float: the
    weights of the edges that [G.in_edges(node)] yields, added in floating
    point. A float is a rational number; [key] stands for that value,
    whatever it is. [Layout.place_level G] is [place_level_by] at the exact
    sum [Layout.in_weight G]. *)
Definition place_level_by (key : string -> Q) (pos : list (string * (Z * Z)))
    (entry : Z * list string) : list (string * (Z * Z)) :=
  let (level, nodes) := entry in
  if level =? 0 then
    match nodes with
    | node0 :: _ => Dict.set pos node0 (0, 0)
    | [] => pos
    end
  else Layout.place_nodes level 0 (Layout.sort_desc key nodes) pos.

Definition visualize_graph_pos_by (key : string -> Q)
    (node_levels : list (string * Z)) : res (list (string * (Z * Z))) :=
  match node_levels with
  | [] => Exc ValueError
  | _ :: _ =>
      Ret (fold_left (place_level_by key) (Layout.level_nodes node_levels) [])
  end.

(** ** Fixtures *)

Definition init_state (origin : string) : tstate :=
  {| wire := net0; traced := ∅; node_levels := [(origin, 0)]; fetched := [];
     assigned := [] |}.

Module EthFixture.
Import Eth.

Definition ether (n : Z) : Z := n * 10 ^ 18.

Definition tx (source destination : string) (eth : Z) (time : Z) : txn :=
  {| tx_from := source; tx_to := destination; tx_value := ether eth;
     tx_timeStamp := time; tx_hash := source ++ destination |}.

(** A server that answers every request with status 200 and, on page 1,
    the transactions of [history] that [account] sent or received. *)
Definition ledger (history : list txn) (clock : nat) (account : string)
    (page : Z) : reply txlist :=
  let involved :=
    List.filter
      (fun t => bool_decide (tx_from t = account) || bool_decide (tx_to t = account))
      history in
  match involved with
  | [] => Http 200 {| status := "0"; result := [] |}
  | _ :: _ =>
      Http 200 {| status := "1"; result := if page =? 1 then involved else [] |}
  end.

(** The scenario of the specification, window [0, 100]. *)
Definition scenario : list txn :=
  [tx "A" "B" 5 10; tx "A" "C" 3 10; tx "B" "D" 1 10].

Definition run_scenario : res (list txn) * tstate :=
  trace_transactions (ledger scenario) 10 "A" 0 100 0 1 (init_state "A").

(** [D] is first reached through [B] and later directly from [A]. *)
Definition revisit : list txn :=
  [tx "A" "B" 5 10; tx "A" "D" 3 10; tx "B" "D" 1 10].

Definition run_revisit : res (list txn) * tstate :=
  trace_transactions (ledger revisit) 10 "A" 0 100 0 1 (init_state "A").

(** A server that answers every request with status 504. *)
Definition always_504 (clock : nat) (account : string) (page : Z)
    : reply txlist :=
  Http 504 {| status := "0"; result := [] |}.

(** A level map and a graph in which [build_graph] has put a second
    account on level 0. *)
Definition unseen_source : res DiGraph * list (string * Z) :=
  build_graph [tx "S" "B" 5 10] [("A", 0); ("B", 1)].
End EthFixture.

Module XrpFixture.
Import Xrp.

Definition tx (source destination : string) (drops : Z) (time : Z) : txn :=
  {| Account := source; Destination := Some destination;
     Amount := Some drops; date := time |}.

Definition ledger (history : list txn) (clock : nat) (account : string)
    (mark : option string) (limit : Z) : reply txpage :=
  Http 200
    {| transactions :=
         List.filter
           (fun t => bool_decide (Account t = account)
                     || bool_decide (Destination t = Some account))
           history;
       marker := None |}.

Definition scenario : list txn :=
  [tx "A" "B" 5000000 10; tx "A" "C" 3000000 10; tx "B" "D" 1000000 10].

Definition run_scenario : res (list txn) * tstate :=
  trace_transactions (ledger scenario) 10 "A" 0 100 0 1 (init_state "A").

(** An in-window transaction whose amount is zero. *)
Definition zero_amount : list txn := [tx "A" "B" 0 10].

Definition run_zero_amount : res (list txn) * tstate :=
  trace_transactions (ledger zero_amount) 10 "A" 0 100 0 1 (init_state "A").

Definition empty_page : txpage := {| transactions := []; marker := None |}.

(** Status 429 for the first [n] requests, then the page of [ledger]. *)
Definition rate_limited (n : nat) (history : list txn) (clock : nat)
    (account : string) (mark : option string) (limit : Z) : reply txpage :=
  if (clock <? n)%nat then Http 429 empty_page
  else ledger history clock account mark limit.

(** Status 504 for every request about [victim], [ledger] otherwise. *)
Definition failing_for (victim : string) (history : list txn) (clock : nat)
    (account : string) (mark : option string) (limit : Z) : reply txpage :=
  if bool_decide (account = victim) then Http 504 empty_page
  else ledger history clock account mark limit.

Definition run_failing : res (list txn) * tstate :=
  trace_transactions (failing_for "B" scenario) 10 "A" 0 100 0 1
    (init_state "A").
End XrpFixture.

(** ** Vocabulary of the properties *)

(** The network after [n] more requests, each followed by a sleep. *)
Definition slept (seconds : Z) (n : nat) (w : net) : net :=
  {| clock := clock w + n; sleeps := sleeps w ++ repeat seconds n |}.

(** The level map after the assignments [asg], executed in order. *)
Definition replay (asg : list (string * Z)) (levels : list (string * Z))
    : list (string * Z) :=
  fold_left (fun d p => Dict.set d (fst p) (snd p)) asg levels.

(** What every call of the tracer does to the shared state, whatever its
    outcome: [traced] grows; the accounts fetched are distinct, were not
    traced before and are traced after; the level map changes by
    assignments to accounts that were not traced before. *)
Definition trace_inv (st st' : tstate) : Prop :=
  traced st ⊆ traced st' ∧
  (∃ new, fetched st' = fetched st ++ new ∧ NoDup new ∧
          ∀ a, a ∈ new → (a ∉ traced st) ∧ (a ∈ traced st')) ∧
  (∃ asg, assigned st' = assigned st ++ asg ∧
          node_levels st' = replay asg (node_levels st) ∧
          ∀ p, p ∈ asg → fst p ∉ traced st).

(** Paths of [n] hops along a relation. *)
Inductive path (E : string → string → Prop) : nat → string → string → Prop :=
| path_here a : path E 0 a a
| path_hop n a b c : E a b → path E n b c → path E (S n) a c.


(** The first and the last level assigned to [a] in a log of assignments,
    and the number of assignments to [a]. *)
Definition assignments_to (a : string) (log : list (string * Z)) : list Z :=
  map snd (List.filter (fun p => bool_decide (fst p = a)) log).

Definition first_assigned (a : string) (log : list (string * Z)) : option Z :=
  head (assignments_to a log).

Definition last_assigned (a : string) (log : list (string * Z)) : option Z :=
  last (assignments_to a log).

(** [a] is more than [k] hops away from [origin], or out of reach. *)
Definition farther_than (E : string → string → Prop) (origin : string)
    (k : nat) (a : string) : Prop :=
  ∀ n, path E n origin a → (k < n)%nat.

(** The directed transfers of a transaction history, and a server that
    serves an account nothing but transactions of the history that the
    account sent or received. *)
Definition eth_edge (history : list Eth.txn) (a b : string) : Prop :=
  ∃ t, t ∈ history ∧ Eth.tx_from t = a ∧ Eth.tx_to t = b.

Definition eth_serves (server : nat → string → Z → reply Eth.txlist)
    (history : list Eth.txn) : Prop :=
  ∀ clock account page code json t,
    server clock account page = Http code json → t ∈ Eth.result json →
    t ∈ history ∧ (Eth.tx_from t = account ∨ Eth.tx_to t = account).

Definition xrp_edge (history : list Xrp.txn) (a b : string) : Prop :=
  ∃ t, t ∈ history ∧ Xrp.Account t = a ∧ Xrp.Destination t = Some b.

Definition xrp_serves
    (server : nat → string → option string → Z → reply Xrp.txpage)
    (history : list Xrp.txn) : Prop :=
  ∀ clock account mark limit code json t,
    server clock account mark limit = Http code json →
    t ∈ Xrp.transactions json →
    t ∈ history ∧ (Xrp.Account t = account ∨ Xrp.Destination t = Some account).

(** The accounts of one level, in the order of the level map, and the first
    account of level 0. *)
Definition level_members (levels : list (string * Z)) (lvl : Z) : list string :=
  map fst (List.filter (fun p => snd p =? lvl) levels).

Definition first_level0 (levels : list (string * Z)) : option string :=
  head (level_members levels 0).

(** What the tracer is served and keeps. [served_to fetch max_depth a t]:
    [t] is in a list that [fetch] returned for account [a];
    [kept ... st' t]: [t] was served, passed the tracer's test, and its
    destination has a level in [st']; [reached max_depth E a d b l]: [l] is
    [d] plus the length of a path from [a] to [b], at most [max_depth + 1]. *)
Section TracerVocabulary.
Context {txn : Type}.
Variable fetch : string → Z → Z → net → res (list txn) * net.
Variable follow : txn → option string.
Variable max_depth : Z.
Variable E : string → string → Prop.

Definition served_to (a : string) (t : txn) : Prop :=
  ∃ d w txs w', fetch a d max_depth w = (Ret txs, w') ∧ t ∈ txs.

Definition kept (st' : tstate) (t : txn) : Prop :=
  (∃ a, served_to a t) ∧
  ∃ b, follow t = Some b ∧ is_Some (Dict.get (node_levels st') b).

Definition reached (a : string) (d : Z) (b : string) (l : Z) : Prop :=
  ∃ n, path E n a b ∧ l = d + Z.of_nat n ∧ (1 ≤ n)%nat
       ∧ d + Z.of_nat n ≤ max_depth + 1.
End TracerVocabulary.

(** [t] is in a reply of the server to a request about [account]. *)
Definition eth_served (server : nat → string → Z → reply Eth.txlist)
    (account : string) (t : Eth.txn) : Prop :=
  ∃ clock page code json,
    server clock account page = Http code json ∧ t ∈ Eth.result json.

Definition xrp_served
    (server : nat → string → option string → Z → reply Xrp.txpage)
    (account : string) (t : Xrp.txn) : Prop :=
  ∃ clock mark limit code json,
    server clock account mark limit = Http code json
    ∧ t ∈ Xrp.transactions json.

(** One iteration of the loop of [build_graph] on the graph. *)
Definition graph_step (s d : string) (w : Q) (ls ld : Z) (G : DiGraph) : DiGraph :=
  set_subset_key d ld (set_subset_key s ls (add_edge s d w G)).

(** A [subset_key] attribute equals the level of its node; a node has the
    attribute. *)
Definition attr_ok (G : DiGraph) (levels : list (string * Z)) : Prop :=
  ∀ n l, Dict.get (nodes G) n = Some (Some l) → Dict.get levels n = Some l.

Definition has_attr (G : DiGraph) (n : string) : Prop :=
  ∃ l, Dict.get (nodes G) n = Some (Some l).

(** Only the list of level 0 may hold [n]. *)
Definition elsewhere (n : string) (groups : list (Z * list string)) : Prop :=
  ∀ lvl nodes, (lvl, nodes) ∈ groups → lvl ≠ 0 → n ∉ nodes.

(** ** Node labels

    [format_wallet_address] (line 99 of [eth_track.py], line 85 of
    [xrp_track.py]): [f"{address[:4]}...{address[-4:]}"]. A slice of a
    string shorter than four characters is the whole string. *)
Definition format_wallet_address (address : string) : string :=
  (String.substring 0 4 address ++ "..."
   ++ String.substring (String.length address - 4) 4 address)%string.

(** The sleep that follows a reply 429 or 504 in [xrp_track.py], and the
    network after the replies [codes], each followed by its sleep. *)
Definition backoff (status_code : Z) : Z :=
  if status_code =? 429 then 60 else 30.

Definition retried (codes : list Z) (w : net) : net :=
  {| clock := clock w + length codes; sleeps := sleeps w ++ map backoff codes |}.

(** The network after [n] more requests, none followed by a sleep. *)
Definition requested (n : nat) (w : net) : net :=
  {| clock := clock w + n; sleeps := sleeps w |}.

(** A server that answers the first requests with the statuses [codes], in
    order, and every later one as [XrpFixture.ledger] does. *)
Definition xrp_scripted (codes : list Z) (history : list Xrp.txn) (clock : nat)
    (account : string) (mark : option string) (limit : Z) : reply Xrp.txpage :=
  match codes !! clock with
  | Some c => Http c XrpFixture.empty_page
  | None => XrpFixture.ledger history clock account mark limit
  end.

(** Pagination against a server with fixed pages. [eth_first_pages book
    page n] holds the records of the [n] pages from [page] on; a page is
    full when its status is not ["0"] and it holds 10000 records or more. *)
Fixpoint eth_first_pages (book : Z → Eth.txlist) (page : Z) (n : nat)
    : list Eth.txn :=
  match n with
  | O => []
  | S n' => Eth.result (book page) ++ eth_first_pages book (page + 1) n'
  end.

Definition eth_full (p : Eth.txlist) : Prop :=
  Eth.status p ≠ "0" ∧ 10000 ≤ Z.of_nat (length (Eth.result p)).

(** [datetime.utcfromtimestamp] (line 49 of [eth_track.py]) raises on
    seconds outside the range the platform converts, [ValueError] past the
    year 9999, and [Eth.fetch_pages] has no such outcome. Seconds from 1970
    to 2038 are converted everywhere; [eth_converts] holds of a record that
    lies there. *)
Definition eth_converts (t : Eth.txn) : bool :=
  (0 <=? Eth.tx_timeStamp t) && (Eth.tx_timeStamp t <? 2 ^ 31).

(** [xrp_chain book mark marks]: starting from the page requested with
    [mark], the pages carry the markers [marks] in turn, and the last page
    carries none; [xrp_chain_txns] holds the records of those pages. *)
Fixpoint xrp_chain (book : option string → Xrp.txpage) (mark : option string)
    (marks : list string) : Prop :=
  match marks with
  | [] => Xrp.marker (book (Xrp.params_marker mark)) = None
  | m :: rest =>
      Xrp.marker (book (Xrp.params_marker mark)) = Some m
      ∧ xrp_chain book (Some m) rest
  end.

Fixpoint xrp_chain_txns (book : option string → Xrp.txpage)
    (mark : option string) (marks : list string) : list Xrp.txn :=
  Xrp.transactions (book (Xrp.params_marker mark))
  ++ match marks with
     | [] => []
     | m :: rest => xrp_chain_txns book (Some m) rest
     end.

(** Books of pages for the examples. *)
Definition eth_two_pages (page : Z) : Eth.txlist :=
  if page =? 1
  then {| Eth.status := "1"; Eth.result := repeat (EthFixture.tx "A" "B" 1 10) (Z.to_nat 10000) |}
  else {| Eth.status := "1"; Eth.result := [EthFixture.tx "A" "C" 2 10] |}.

Definition xrp_two_pages (mark : option string) : Xrp.txpage :=
  match mark with
  | None => {| Xrp.transactions := [XrpFixture.tx "A" "B" 1 10];
               Xrp.marker := Some "m1" |}
  | Some _ => {| Xrp.transactions := [XrpFixture.tx "A" "C" 2 10];
                 Xrp.marker := None |}
  end.

(** Servers that answer at once: no rate limit, short pages (and for
    [xrp_track.py] no status 504 and no marker), so that a fetch ends after
    one request. *)
Definition eth_prompt (server : nat → string → Z → reply Eth.txlist) : Prop :=
  ∀ clock account page,
    match server clock account page with
    | Http code json =>
        code ≠ 429 ∧ Z.of_nat (length (Eth.result json)) < 10000
    | Failed => True
    end.

Definition xrp_prompt
    (server : nat → string → option string → Z → reply Xrp.txpage) : Prop :=
  ∀ clock account mark limit,
    match server clock account mark limit with
    | Http code json => code ≠ 429 ∧ code ≠ 504 ∧ Xrp.marker json = None
    | Failed => True
    end.

(** A history with a transfer back to the origin. *)
Definition eth_cycle : list Eth.txn :=
  [EthFixture.tx "A" "B" 5 10; EthFixture.tx "B" "A" 1 10].

Definition xrp_cycle : list Xrp.txn :=
  [XrpFixture.tx "A" "B" 5 10; XrpFixture.tx "B" "A" 1 10].

(** [a] is ranked before [b]: the sort key of [b] is at most that of
    [a]. *)
Definition ranked_before (key : string → Q) (a b : string) : Prop :=
  (key b <= key a)%Q.

(** Sort keys of an example: the floats that line 119 computes for [D1],
    which receives 1.0 and then four times 1e-16, and for [D2], which receives
    1.0000000000000002, that is [1 + 2 ^ -52]. In floating point
    [1.0 + 1e-16] is [1.0], so that the key of [D1] is 1.0, below that of
    [D2]; the exact sums are in the other order. *)
Definition lost_addends (node : string) : Q :=
  if bool_decide (node = "D1") then 1%Q
  else if bool_decide (node = "D2") then (1 + 1 / inject_Z (2 ^ 52))%Q
  else 0%Q.

(** ** The main blocks

    Lines 171-181 of [eth_track.py] and 148-158 of [xrp_track.py]: the
    origin gets level 0 in a new level map, the tracer runs from depth 0
    with the [traced] set still empty, [build_graph] works on the list and
    the level map the tracer leaves, and [visualize_graph] lays the graph
    out. The account, the window and [max_depth] (2 in both files) are
    parameters here; the result is the graph, the level map and [pos]
    before the jitter. *)
Definition after_layout (G : DiGraph) (node_levels : list (string * Z))
    : res (DiGraph * list (string * Z) * list (string * (Z * Z))) :=
  match Layout.visualize_graph_pos G node_levels with
  | Ret pos => Ret (G, node_levels, pos)
  | Exc e => Exc e
  | OutOfFuel => OutOfFuel
  end.

Definition eth_main (server : nat → string → Z → reply Eth.txlist)
    (fuel : nat) (initial_account : string)
    (start_datetime end_datetime max_depth : Z)
    : res (DiGraph * list (string * Z) * list (string * (Z * Z))) :=
  match Eth.trace_transactions server fuel initial_account start_datetime
          end_datetime 0 max_depth (init_state initial_account) with
  | (Ret transactions, st) =>
      match Eth.build_graph transactions (node_levels st) with
      | (Ret G, node_levels) => after_layout G node_levels
      | (Exc e, _) => Exc e
      | (OutOfFuel, _) => OutOfFuel
      end
  | (Exc e, _) => Exc e
  | (OutOfFuel, _) => OutOfFuel
  end.

Definition xrp_main
    (server : nat → string → option string → Z → reply Xrp.txpage)
    (fuel : nat) (initial_account : string)
    (start_datetime end_datetime max_depth : Z)
    : res (DiGraph * list (string * Z) * list (string * (Z * Z))) :=
  match Xrp.trace_transactions server fuel initial_account start_datetime
          end_datetime 0 max_depth (init_state initial_account) with
  | (Ret transactions, st) =>
      match Xrp.build_graph transactions (node_levels st) with
      | (Ret G, node_levels) => after_layout G node_levels
      | (Exc e, _) => Exc e
      | (OutOfFuel, _) => OutOfFuel
      end
  | (Exc e, _) => Exc e
  | (OutOfFuel, _) => OutOfFuel
  end.

(** A transaction of the returned list with the account it was served to:
    it leads elsewhere, and that account has a level in [st']. *)
Definition sourced {txn : Type}
    (fetch : string → Z → Z → net → res (list txn) * net)
    (follow : txn → option string) (max_depth : Z) (st' : tstate) (t : txn)
    : Prop :=
  ∃ a b, served_to fetch max_depth a t ∧ follow t = Some b ∧ b ≠ a
         ∧ is_Some (Dict.get (node_levels st') a).

(** The assignments of one call at depth [d], in the order in which they
    are executed: every discovery made by the call's own loop assigns
    [d + 1] and is followed by the assignments of the call on the discovered
    account, which runs at depth [d + 1]; a call deeper than [max_depth]
    makes none. *)
Inductive nested (max_depth : Z) : Z → list (string * Z) → Prop :=
| nested_nil d : nested max_depth d []
| nested_cons d b sub rest :
    d ≤ max_depth →
    nested max_depth (d + 1) sub →
    nested max_depth d rest →
    nested max_depth d ((b, d + 1) :: sub ++ rest).

(** The destinations of a log of assignments, as [follow] yields them. *)
Definition assigned_to (asg : list (string * Z)) : list (option string) :=
  map (fun p => Some (fst p)) asg.

(** The transactions a call on [a] at depth [d] returns, with the
    assignments it makes: a transaction [t] that [fetch] returned for [a]
    at depth [d] and that leads to [b] assigns [d + 1] to [b]; the
    transactions and assignments of the call on [b] at depth [d + 1]
    follow, and then those of the rest of the loop. *)
Section Discoveries.
Context {txn : Type}.
Variable fetch : string → Z → Z → net → res (list txn) * net.
Variable follow : txn → option string.
Variable max_depth : Z.

Definition served_at (a : string) (d : Z) (t : txn) : Prop :=
  ∃ w txs w', fetch a d max_depth w = (Ret txs, w') ∧ t ∈ txs.

Inductive discovered
    : string → Z → list txn → list (string * Z) → Prop :=
| discovered_nil a d : discovered a d [] []
| discovered_cons a d t b sub asub rest arest :
    d ≤ max_depth →
    served_at a d t →
    follow t = Some b →
    discovered b (d + 1) sub asub →
    discovered a d rest arest →
    discovered a d (t :: sub ++ rest) ((b, d + 1) :: asub ++ arest).
End Discoveries.

(** * Properties *)

(** ** Dictionaries *)

Section DictFacts.
Context {K V : Type} `{EqDecision K}.
Implicit Types (d : list (K * V)) (k : K) (v : V).

Lemma dict_get_set_eq d k v : Dict.get (Dict.set d k v) k = Some v.
Proof.
  induction d as [|[k' v'] d IH]; simpl.
  - by rewrite decide_True.
  - destruct (decide (k = k')) as [->|Hne]; simpl.
    + by rewrite decide_True.
    + by rewrite decide_False.
Qed.

Lemma dict_get_set_ne d k k' v :
  k ≠ k' → Dict.get (Dict.set d k v) k' = Dict.get d k'.
Proof.
  intros Hne. induction d as [|[k0 v0] d IH]; simpl.
  - by rewrite decide_False.
  - destruct (decide (k = k0)) as [->|Hk]; simpl.
    + by rewrite !decide_False.
    + by rewrite IH.
Qed.

Lemma dict_get_set d k k' v :
  Dict.get (Dict.set d k v) k' = if decide (k = k') then Some v else Dict.get d k'.
Proof.
  destruct (decide (k = k')) as [->|Hne].
  - apply dict_get_set_eq.
  - by apply dict_get_set_ne.
Qed.

Lemma dict_mem_get d k : Dict.mem d k = true ↔ is_Some (Dict.get d k).
Proof.
  unfold Dict.mem.
  destruct (Dict.get d k); split; intros H'; first [done | by destruct H'].
Qed.

Lemma dict_mem_false d k : Dict.mem d k = false ↔ Dict.get d k = None.
Proof. unfold Dict.mem. by destruct (Dict.get d k). Qed.

Lemma dict_get_keys d k : is_Some (Dict.get d k) ↔ k ∈ Dict.keys d.
Proof.
  unfold Dict.keys. induction d as [|[k' v'] d IH]; simpl.
  - split; [by intros [? ?] | intros Hn; by apply elem_of_nil in Hn].
  - rewrite elem_of_cons. destruct (decide (k = k')) as [->|Hne].
    + split; [by left | by eexists].
    + rewrite IH. naive_solver.
Qed.

Lemma dict_get_None_keys d k : Dict.get d k = None ↔ k ∉ Dict.keys d.
Proof. rewrite <- dict_get_keys, eq_None_not_Some. done. Qed.

Lemma dict_set_mono d k v k' :
  is_Some (Dict.get d k') → is_Some (Dict.get (Dict.set d k v) k').
Proof. rewrite dict_get_set. case_decide; [by eexists | done]. Qed.

Lemma dict_keys_set d k v :
  Dict.keys (Dict.set d k v)
  = if Dict.mem d k then Dict.keys d else Dict.keys d ++ [k].
Proof.
  unfold Dict.mem, Dict.keys. induction d as [|[k' v'] d IH]; simpl; [done|].
  destruct (decide (k = k')) as [->|Hne]; simpl; [done|].
  rewrite IH. by destruct (Dict.get d k).
Qed.

Lemma dict_get_In d k v : Dict.get d k = Some v → (k, v) ∈ d.
Proof.
  induction d as [|[k' v'] d IH]; simpl; [done|].
  destruct (decide (k = k')) as [->|Hne].
  - intros [= ->]. by left.
  - intros Hg. right. by apply IH.
Qed.

Lemma dict_In_get d k v :
  NoDup (Dict.keys d) → (k, v) ∈ d → Dict.get d k = Some v.
Proof.
  unfold Dict.keys. induction d as [|[k' v'] d IH]; simpl.
  - by intros _ ?%elem_of_nil.
  - intros [Hnot Hnd]%NoDup_cons [Heq|Hin]%elem_of_cons.
    + injection Heq as -> ->. by rewrite decide_True.
    + destruct (decide (k = k')) as [->|Hne]; [|by apply IH].
      exfalso. apply Hnot. apply (list_elem_of_fmap_2 fst) in Hin. done.
Qed.

Lemma dict_keys_set_NoDup d k v :
  NoDup (Dict.keys d) → NoDup (Dict.keys (Dict.set d k v)).
Proof.
  intros Hnd. rewrite dict_keys_set.
  destruct (Dict.mem d k) eqn:Hm; [done|].
  apply NoDup_app. split_and!; [done| |apply NoDup_singleton].
  intros x Hx ->%list_elem_of_singleton.
  apply dict_mem_false, dict_get_None_keys in Hm. done.
Qed.
End DictFacts.

(** ** The ledger client *)

Lemma slept_0 seconds w : slept seconds 0 w = w.
Proof.
  destruct w as [c s]. unfold slept; simpl.
  by rewrite Nat.add_0_r, app_nil_r.
Qed.

Lemma slept_S seconds n w :
  slept seconds n (time_sleep seconds (tick w)) = slept seconds (S n) w.
Proof.
  destruct w as [c s]. unfold slept, time_sleep, tick; simpl. f_equal.
  - lia.
  - by rewrite <- app_assoc.
Qed.

Section XrpClient.
Variable server : nat → string → option string → Z → reply Xrp.txpage.
Implicit Types (w : net) (fuel n : nat).

(** [n] rate-limit replies followed by a good one: [n] sleeps of 60 s. *)
Lemma xrp_get_loop_rate_limited n : ∀ fuel account mark limit retries attempt w code json,
  attempt < retries →
  (∀ i, (i < n)%nat →
     ∃ j, server (clock w + i)%nat account (Xrp.params_marker mark) limit = Http 429 j) →
  server (clock w + n)%nat account (Xrp.params_marker mark) limit = Http code json →
  code ≠ 429 → raises_for_status code = false →
  (n < fuel)%nat →
  Xrp.get_loop server fuel account mark limit retries attempt w
  = (Ret json, tick (slept 60 n w)).
Proof.
  induction n as [|n IH]; intros fuel account mark limit retries attempt w
    code json Hlt H429 Hok Hcode Hst Hfuel;
    (destruct fuel as [|fuel]; [lia|]); simpl.
  - rewrite Nat.add_0_r in Hok.
    apply Z.ltb_lt in Hlt. rewrite Hlt, Hok.
    apply Z.eqb_neq in Hcode. rewrite Hcode, Hst. by rewrite slept_0.
  - destruct (H429 O ltac:(lia)) as [j Hj]. rewrite Nat.add_0_r in Hj.
    pose proof Hlt as Hlt'. apply Z.ltb_lt in Hlt'. rewrite Hlt', Hj. simpl.
    rewrite (IH fuel account mark limit retries attempt _ code json);
      try done; try lia.
    + by rewrite slept_S.
    + intros i Hi. destruct (H429 (S i) ltac:(lia)) as [j' Hj'].
      exists j'. simpl. by rewrite <- Hj', Nat.add_succ_r.
    + simpl. by rewrite <- Hok, Nat.add_succ_r.
Qed.

(** A 504 that never resolves: the cap is reached after exactly
    [retries - attempt] requests, each followed by a sleep of 30 s. *)
Lemma xrp_get_loop_504 n : ∀ fuel account mark limit retries attempt w,
  Z.of_nat n = retries - attempt →
  (∀ i, (i < n)%nat →
     ∃ j, server (clock w + i)%nat account (Xrp.params_marker mark) limit = Http 504 j) →
  (n < fuel)%nat →
  Xrp.get_loop server fuel account mark limit retries attempt w
  = (Exc MaxRetriesExceeded, slept 30 n w).
Proof.
  induction n as [|n IH]; intros fuel account mark limit retries attempt w
    Hn H504 Hfuel; (destruct fuel as [|fuel]; [lia|]); simpl.
  - assert ((attempt <? retries) = false) as -> by (apply Z.ltb_ge; lia).
    by rewrite slept_0.
  - assert ((attempt <? retries) = true) as -> by (apply Z.ltb_lt; lia).
    destruct (H504 O ltac:(lia)) as [j Hj]. rewrite Nat.add_0_r in Hj.
    rewrite Hj. simpl.
    rewrite (IH fuel account mark limit retries (attempt + 1)); try lia.
    + by rewrite slept_S.
    + intros i Hi. destruct (H504 (S i) ltac:(lia)) as [j' Hj'].
      exists j'. simpl. by rewrite <- Hj', Nat.add_succ_r.
Qed.

(** Any other failure status is raised at once. *)
Lemma xrp_get_loop_other fuel account mark limit retries attempt w code json :
  attempt < retries →
  server (clock w) account (Xrp.params_marker mark) limit = Http code json →
  raises_for_status code = true → code ≠ 429 → code ≠ 504 →
  Xrp.get_loop server (S fuel) account mark limit retries attempt w
  = (Exc (HTTPError code), tick w).
Proof.
  intros Hlt Hs Hr H429 H504. simpl.
  apply Z.ltb_lt in Hlt. rewrite Hlt, Hs, Hr.
  apply Z.eqb_neq in H429, H504. by rewrite H429, H504.
Qed.
End XrpClient.

Section EthClient.
Variable server : nat → string → Z → reply Eth.txlist.

Lemma eth_get_rate_limited n : ∀ fuel account page w code json,
  (∀ i, (i < n)%nat → ∃ j, server (clock w + i)%nat account page = Http 429 j) →
  server (clock w + n)%nat account page = Http code json →
  code ≠ 429 → raises_for_status code = false →
  (n < fuel)%nat →
  Eth.get_transactions server fuel account page w
  = (Ret json, tick (slept 60 n w)).
Proof.
  induction n as [|n IH]; intros fuel account page w code json
    H429 Hok Hcode Hst Hfuel; (destruct fuel as [|fuel]; [lia|]); simpl.
  - rewrite Nat.add_0_r in Hok. rewrite Hok.
    apply Z.eqb_neq in Hcode. rewrite Hcode, Hst. by rewrite slept_0.
  - destruct (H429 O ltac:(lia)) as [j Hj]. rewrite Nat.add_0_r in Hj.
    rewrite Hj. simpl.
    rewrite (IH fuel account page _ code json); try done; try lia.
    + by rewrite slept_S.
    + intros i Hi. destruct (H429 (S i) ltac:(lia)) as [j' Hj'].
      exists j'. simpl. by rewrite <- Hj', Nat.add_succ_r.
    + simpl. by rewrite <- Hok, Nat.add_succ_r.
Qed.

(** Every failure status other than 429, 504 included, is raised at the
    first reply. *)
Lemma eth_get_failure fuel account page w code json :
  server (clock w) account page = Http code json →
  raises_for_status code = true → code ≠ 429 →
  Eth.get_transactions server (S fuel) account page w
  = (Exc (HTTPError code), tick w).
Proof.
  intros Hs Hr H429. simpl. rewrite Hs, Hr.
  apply Z.eqb_neq in H429. by rewrite H429.
Qed.
End EthClient.

(** ** The tracer: an induction principle following the code

    [P] is proved of every call of [trace_transactions], [PL] of every run
    of its loop, from one case per branch of the source. *)

Section TraceInd.
Context {txn : Type}.
Variable fetch : string → Z → Z → net → res (list txn) * net.
Variable follow : txn → option string.
Variable max_depth : Z.

Let outcome : Type := res (list txn) * tstate.
Let entered (a : string) (st : tstate) : tstate :=
  log_fetch a (mark_traced a st).

Variable P : string → Z → tstate → outcome → Prop.
Variable PL : string → Z → list txn → list txn → tstate → outcome → Prop.

Hypothesis P_no_fuel : ∀ a d st, P a d st (OutOfFuel, st).
Hypothesis P_skip : ∀ a d st,
  (d >? max_depth) || bool_decide (a ∈ traced st) = true →
  P a d st (Ret [], st).
Hypothesis P_fetch_exc : ∀ a d st e w,
  d ≤ max_depth → a ∉ traced st →
  fetch a d max_depth (wire st) = (Exc e, w) →
  P a d st (Exc e, with_wire w (entered a st)).
Hypothesis P_fetch_no_fuel : ∀ a d st w,
  d ≤ max_depth → a ∉ traced st →
  fetch a d max_depth (wire st) = (OutOfFuel, w) →
  P a d st (OutOfFuel, with_wire w (entered a st)).
Hypothesis P_expand : ∀ a d st txs w o,
  d ≤ max_depth → a ∉ traced st →
  fetch a d max_depth (wire st) = (Ret txs, w) →
  PL a d txs [] (with_wire w (entered a st)) o →
  P a d st o.
Hypothesis PL_nil : ∀ a d acc st, PL a d [] acc st (Ret acc, st).
Hypothesis PL_none : ∀ a d t rest acc st o,
  follow t = None → PL a d rest acc st o → PL a d (t :: rest) acc st o.
Hypothesis PL_traced : ∀ a d t rest acc st o b,
  follow t = Some b → b ∈ traced st →
  PL a d rest acc st o → PL a d (t :: rest) acc st o.
Hypothesis PL_rec : ∀ a d t rest acc st o b sub st2,
  follow t = Some b → b ∉ traced st →
  P b (d + 1) (set_level b (d + 1) st) (Ret sub, st2) →
  PL a d rest (acc ++ t :: sub) st2 o →
  PL a d (t :: rest) acc st o.
Hypothesis PL_rec_exc : ∀ a d t rest acc st b e st2,
  follow t = Some b → b ∉ traced st →
  P b (d + 1) (set_level b (d + 1) st) (Exc e, st2) →
  PL a d (t :: rest) acc st (Exc e, st2).
Hypothesis PL_rec_no_fuel : ∀ a d t rest acc st b st2,
  follow t = Some b → b ∉ traced st →
  P b (d + 1) (set_level b (d + 1) st) (OutOfFuel, st2) →
  PL a d (t :: rest) acc st (OutOfFuel, st2).

Lemma trace_loop_ind (self : string → Z → tstate → outcome) :
  (∀ b d st, P b d st (self b d st)) →
  ∀ a d txs acc st,
    PL a d txs acc st (Tracer.trace_loop follow self d txs acc st).
Proof.
  intros Hself a d txs. induction txs as [|t rest IH]; intros acc st; simpl.
  - apply PL_nil.
  - destruct (follow t) as [b|] eqn:Hf; [|by apply PL_none].
    case_bool_decide as Hb; [by eapply PL_traced|].
    pose proof (Hself b (d + 1) (set_level b (d + 1) st)) as Hsub.
    destruct (self b (d + 1) (set_level b (d + 1) st)) as [[sub|e|] st2].
    + by eapply PL_rec.
    + by eapply PL_rec_exc.
    + by eapply PL_rec_no_fuel.
Qed.

Lemma trace_ind fuel : ∀ a d st,
  P a d st (Tracer.trace_transactions fetch follow fuel a d max_depth st).
Proof.
  induction fuel as [|fuel IH]; intros a d st; simpl; [apply P_no_fuel|].
  destruct ((d >? max_depth) || bool_decide (a ∈ traced st)) eqn:Hguard;
    [by apply P_skip|].
  apply orb_false_iff in Hguard as [Hd Ha].
  rewrite Z.gtb_ltb in Hd. apply Z.ltb_ge in Hd.
  apply bool_decide_eq_false in Ha.
  destruct (fetch a d max_depth (wire st)) as [[txs|e|] w] eqn:Hfetch.
  - eapply P_expand; [done..|]. by apply trace_loop_ind.
  - by apply P_fetch_exc.
  - by apply P_fetch_no_fuel.
Qed.
End TraceInd.

(** ** The shared state along a trace *)

Lemma replay_app asg1 asg2 levels :
  replay (asg1 ++ asg2) levels = replay asg2 (replay asg1 levels).
Proof. unfold replay. apply fold_left_app. Qed.

Lemma replay_mono asg : ∀ levels k,
  is_Some (Dict.get levels k) → is_Some (Dict.get (replay asg levels) k).
Proof.
  induction asg as [|[b l] asg IH]; intros levels k Hk; simpl; [done|].
  apply IH. by apply dict_set_mono.
Qed.

Lemma replay_untouched asg : ∀ levels k,
  k ∉ asg.*1 → Dict.get (replay asg levels) k = Dict.get levels k.
Proof.
  induction asg as [|[b l] asg IH]; intros levels k Hk; simpl; [done|].
  rewrite fmap_cons, not_elem_of_cons in Hk. destruct Hk as [Hne Hk].
  rewrite IH by done. simpl in *. by apply dict_get_set_ne.
Qed.

Lemma replay_NoDup asg : ∀ levels,
  NoDup (Dict.keys levels) → NoDup (Dict.keys (replay asg levels)).
Proof.
  induction asg as [|[b l] asg IH]; intros levels Hnd; simpl; [done|].
  apply IH. by apply dict_keys_set_NoDup.
Qed.

Lemma trace_inv_refl st : trace_inv st st.
Proof.
  split_and!; [done| |].
  - exists []. rewrite app_nil_r. split_and!; [done|apply NoDup_nil_2|].
    by intros a ?%elem_of_nil.
  - exists []. rewrite app_nil_r. split_and!; [done..|].
    by intros a ?%elem_of_nil.
Qed.

Lemma trace_inv_trans st1 st2 st3 :
  trace_inv st1 st2 → trace_inv st2 st3 → trace_inv st1 st3.
Proof.
  intros (Ht1 & (new1 & Hf1 & Hnd1 & Hn1) & (asg1 & Ha1 & Hl1 & Hp1))
         (Ht2 & (new2 & Hf2 & Hnd2 & Hn2) & (asg2 & Ha2 & Hl2 & Hp2)).
  split_and!.
  - set_solver.
  - exists (new1 ++ new2). split_and!.
    + by rewrite Hf2, Hf1, app_assoc.
    + apply NoDup_app. split_and!; [done| |done].
      intros a H1 H2. apply Hn1 in H1. apply Hn2 in H2. tauto.
    + intros a [H1|H2]%elem_of_app.
      * apply Hn1 in H1. set_solver.
      * apply Hn2 in H2. set_solver.
  - exists (asg1 ++ asg2). split_and!.
    + by rewrite Ha2, Ha1, app_assoc.
    + by rewrite Hl2, Hl1, replay_app.
    + intros p [H1|H2]%elem_of_app; [by apply Hp1|].
      apply Hp2 in H2. set_solver.
Qed.

Lemma trace_inv_entered a w st :
  a ∉ traced st → trace_inv st (with_wire w (log_fetch a (mark_traced a st))).
Proof.
  intros Ha. split_and!; simpl.
  - set_solver.
  - exists [a]. split_and!; [done|apply NoDup_singleton|].
    intros a' ->%list_elem_of_singleton. set_solver.
  - exists []. rewrite app_nil_r. split_and!; [done..|].
    by intros p ?%elem_of_nil.
Qed.

Lemma trace_inv_set_level b l st :
  b ∉ traced st → trace_inv st (set_level b l st).
Proof.
  intros Hb. split_and!; simpl.
  - done.
  - exists []. rewrite app_nil_r. split_and!; [done|apply NoDup_nil_2|].
    by intros a ?%elem_of_nil.
  - exists [(b, l)]. split_and!; [done..|].
    by intros p ->%list_elem_of_singleton.
Qed.

Lemma trace_inv_traced st st' a : trace_inv st st' → a ∈ traced st → a ∈ traced st'.
Proof. intros (Ht & _) Ha. set_solver. Qed.

Lemma trace_inv_keys st st' k :
  trace_inv st st' →
  is_Some (Dict.get (node_levels st) k) → is_Some (Dict.get (node_levels st') k).
Proof. intros (_ & _ & (asg & _ & -> & _)) Hk. by apply replay_mono. Qed.

Lemma trace_inv_traced_level st st' a :
  trace_inv st st' → a ∈ traced st →
  Dict.get (node_levels st') a = Dict.get (node_levels st) a.
Proof.
  intros (_ & _ & (asg & _ & -> & Hp)) Ha. apply replay_untouched.
  intros ([b l] & -> & Hin)%list_elem_of_fmap. by apply Hp in Hin.
Qed.

Section TraceInv.
Context {txn : Type}.
Variable fetch : string → Z → Z → net → res (list txn) * net.
Variable follow : txn → option string.
Variable max_depth : Z.

Lemma trace_transactions_inv fuel a d st :
  trace_inv st
    (snd (Tracer.trace_transactions fetch follow fuel a d max_depth st)).
Proof.
  apply (trace_ind fetch follow max_depth
           (fun _ _ st o => trace_inv st (snd o))
           (fun _ _ _ _ st o => trace_inv st (snd o))); clear; simpl;
    eauto using trace_inv_refl, trace_inv_entered, trace_inv_trans,
      trace_inv_set_level.
Qed.
End TraceInv.

(** The recursion needs no more fuel than the depth bound: when the fetches
    return, a trace entered at depth [d] with more than [max_depth + 1 - d]
    units of fuel does not run out of it. *)
Section TraceFuel.
Context {txn : Type}.
Variable fetch : string → Z → Z → net → res (list txn) * net.
Variable follow : txn → option string.
Variable max_depth : Z.
Hypothesis fetch_returns : ∀ a d w, fst (fetch a d max_depth w) ≠ OutOfFuel.

Lemma trace_loop_fuel (self : string → Z → tstate → res (list txn) * tstate) d :
  (∀ b st, fst (self b (d + 1) st) ≠ OutOfFuel) →
  ∀ txs acc st, fst (Tracer.trace_loop follow self d txs acc st) ≠ OutOfFuel.
Proof.
  intros Hself txs. induction txs as [|t rest IH]; intros acc st; simpl; [done|].
  destruct (follow t) as [b|]; [|apply IH].
  case_bool_decide; [apply IH|].
  pose proof (Hself b (set_level b (d + 1) st)) as Hsub.
  destruct (self b (d + 1) (set_level b (d + 1) st)) as [[sub|e|] st2];
    [apply IH|done|done].
Qed.

Lemma trace_transactions_fuel fuel : ∀ a d st,
  (Z.to_nat (max_depth + 1 - d) < fuel)%nat →
  fst (Tracer.trace_transactions fetch follow fuel a d max_depth st) ≠ OutOfFuel.
Proof.
  induction fuel as [|fuel IH]; intros a d st Hfuel; [lia|]. simpl.
  destruct ((d >? max_depth) || bool_decide (a ∈ traced st)) eqn:Hguard; [done|].
  apply orb_false_iff in Hguard as [Hd _].
  rewrite Z.gtb_ltb in Hd. apply Z.ltb_ge in Hd.
  pose proof (fetch_returns a d (wire st)) as Hf.
  destruct (fetch a d max_depth (wire st)) as [[txs|e|] w]; [|done..].
  apply trace_loop_fuel. intros b st'. apply IH. lia.
Qed.
End TraceFuel.

(** The induction principle again, with [trace_inv] known of every
    sub-run. *)
Section TraceIndInv.
Context {txn : Type}.
Variable fetch : string → Z → Z → net → res (list txn) * net.
Variable follow : txn → option string.
Variable max_depth : Z.

Let outcome : Type := res (list txn) * tstate.
Let entered (a : string) (st : tstate) : tstate :=
  log_fetch a (mark_traced a st).

Variable P : string → Z → tstate → outcome → Prop.
Variable PL : string → Z → list txn → list txn → tstate → outcome → Prop.

Hypothesis P_no_fuel : ∀ a d st, P a d st (OutOfFuel, st).
Hypothesis P_skip : ∀ a d st,
  (d >? max_depth) || bool_decide (a ∈ traced st) = true →
  P a d st (Ret [], st).
Hypothesis P_fetch_exc : ∀ a d st e w,
  d ≤ max_depth → a ∉ traced st →
  fetch a d max_depth (wire st) = (Exc e, w) →
  P a d st (Exc e, with_wire w (entered a st)).
Hypothesis P_fetch_no_fuel : ∀ a d st w,
  d ≤ max_depth → a ∉ traced st →
  fetch a d max_depth (wire st) = (OutOfFuel, w) →
  P a d st (OutOfFuel, with_wire w (entered a st)).
Hypothesis P_expand : ∀ a d st txs w o,
  d ≤ max_depth → a ∉ traced st →
  fetch a d max_depth (wire st) = (Ret txs, w) →
  trace_inv (with_wire w (entered a st)) (snd o) →
  PL a d txs [] (with_wire w (entered a st)) o →
  P a d st o.
Hypothesis PL_nil : ∀ a d acc st, PL a d [] acc st (Ret acc, st).
Hypothesis PL_none : ∀ a d t rest acc st o,
  follow t = None → PL a d rest acc st o → PL a d (t :: rest) acc st o.
Hypothesis PL_traced : ∀ a d t rest acc st o b,
  follow t = Some b → b ∈ traced st →
  PL a d rest acc st o → PL a d (t :: rest) acc st o.
Hypothesis PL_rec : ∀ a d t rest acc st o b sub st2,
  follow t = Some b → b ∉ traced st →
  trace_inv (set_level b (d + 1) st) st2 →
  trace_inv st2 (snd o) →
  P b (d + 1) (set_level b (d + 1) st) (Ret sub, st2) →
  PL a d rest (acc ++ t :: sub) st2 o →
  PL a d (t :: rest) acc st o.
Hypothesis PL_rec_exc : ∀ a d t rest acc st b e st2,
  follow t = Some b → b ∉ traced st →
  P b (d + 1) (set_level b (d + 1) st) (Exc e, st2) →
  PL a d (t :: rest) acc st (Exc e, st2).
Hypothesis PL_rec_no_fuel : ∀ a d t rest acc st b st2,
  follow t = Some b → b ∉ traced st →
  P b (d + 1) (set_level b (d + 1) st) (OutOfFuel, st2) →
  PL a d (t :: rest) acc st (OutOfFuel, st2).

Lemma trace_ind_inv fuel a d st :
  P a d st (Tracer.trace_transactions fetch follow fuel a d max_depth st).
Proof.
  cut (trace_inv st
         (snd (Tracer.trace_transactions fetch follow fuel a d max_depth st))
       ∧ P a d st
           (Tracer.trace_transactions fetch follow fuel a d max_depth st));
    [tauto|].
  apply (trace_ind fetch follow max_depth
           (fun a d st o => trace_inv st (snd o) ∧ P a d st o)
           (fun a d txs acc st o => trace_inv st (snd o) ∧ PL a d txs acc st o));
    clear fuel a d st; simpl.
  - eauto using trace_inv_refl.
  - eauto using trace_inv_refl.
  - eauto using trace_inv_entered.
  - eauto using trace_inv_entered.
  - intros a d st txs w o Hd Ha Hf [Hinv HPL].
    eauto using trace_inv_trans, trace_inv_entered.
  - eauto using trace_inv_refl.
  - intros a d t rest acc st o Hf [Hinv HPL]. eauto.
  - intros a d t rest acc st o b Hf Hb [Hinv HPL]. eauto.
  - intros a d t rest acc st o b sub st2 Hf Hb [Hinv1 HP] [Hinv2 HPL].
    split; [|by eapply PL_rec].
    eauto using trace_inv_trans, trace_inv_set_level.
  - intros a d t rest acc st b e st2 Hf Hb [Hinv HP]. simpl in *.
    eauto using trace_inv_trans, trace_inv_set_level.
  - intros a d t rest acc st b st2 Hf Hb [Hinv HP]. simpl in *.
    eauto using trace_inv_trans, trace_inv_set_level.
Qed.
End TraceIndInv.

Section TraceResults.
Context {txn : Type}.
Variable fetch : string → Z → Z → net → res (list txn) * net.
Variable follow : txn → option string.
Variable max_depth : Z.

Local Abbreviation served_to := (served_to fetch max_depth).
Local Abbreviation kept := (kept fetch follow max_depth).

Lemma kept_mono st st' t : trace_inv st st' → kept st t → kept st' t.
Proof.
  intros Hinv (Hs & b & Hf & Hb). split; [done|].
  exists b. split; [done|]. by eapply trace_inv_keys.
Qed.

(** Every transaction of the returned list came out of a fetch, passed
    the tracer's test, and its destination has a level at the end. *)
Lemma trace_transactions_kept fuel a d st txns st' :
  Tracer.trace_transactions fetch follow fuel a d max_depth st = (Ret txns, st') →
  ∀ t, t ∈ txns → kept st' t.
Proof.
  revert txns st'.
  apply (trace_ind_inv fetch follow max_depth
    (fun _ _ st o => ∀ txns st', o = (Ret txns, st') → ∀ t, t ∈ txns → kept st' t)
    (fun a _ txs acc st o =>
       (∀ t, t ∈ txs → served_to a t) →
       ∀ out st', o = (Ret out, st') → ∀ t, t ∈ out → t ∈ acc ∨ kept st' t));
    clear fuel a d st; try (intros; discriminate).
  - intros a d st _ txns st' [= <- <-] t Ht. by apply elem_of_nil in Ht.
  - intros a d st txs w o Hd Ha Hf Hinv HPL txns st' -> t Ht.
    destruct (HPL (fun t Ht => ex_intro _ d (ex_intro _ _ (ex_intro _ _
                (ex_intro _ _ (conj Hf Ht))))) txns st' eq_refl t Ht)
      as [Hnil|Hk]; [by apply elem_of_nil in Hnil | done].
  - intros a d acc st _ out st' [= <- <-] t Ht. by left.
  - intros a d t rest acc st o Hf HPL Hs out st' -> t' Ht'.
    eapply HPL; [|done..]. intros t0 Ht0. apply Hs. by right.
  - intros a d t rest acc st o b Hf Hb HPL Hs out st' -> t' Ht'.
    eapply HPL; [|done..]. intros t0 Ht0. apply Hs. by right.
  - intros a d t rest acc st o b sub st2 Hf Hb Hinv1 Hinv2 HP HPL Hs
      out st' -> t' Ht'. simpl in Hinv2.
    destruct (HPL (fun t0 Ht0 => Hs t0 (list_elem_of_further _ _ _ Ht0))
                out st' eq_refl t' Ht') as [Hin|Hk]; [|by right].
    apply elem_of_app in Hin as [Hacc|Hin]; [by left|right].
    apply elem_of_cons in Hin as [->|Hsub].
    + split; [exists a; apply Hs; by left|].
      exists b. split; [done|].
      eapply trace_inv_keys; [exact Hinv2|].
      eapply trace_inv_keys; [exact Hinv1|].
      simpl. rewrite dict_get_set_eq. by eexists.
    + eapply kept_mono; [exact Hinv2|]. by eapply HP.
Qed.

(** When the trace returns, every fetch it made had returned. *)
Lemma trace_transactions_fetch_returned fuel a d st txns st' :
  Tracer.trace_transactions fetch follow fuel a d max_depth st = (Ret txns, st') →
  ∀ a', a' ∈ fetched st' →
    a' ∈ fetched st ∨
    ∃ d' w txs w', fetch a' d' max_depth w = (Ret txs, w').
Proof.
  revert txns st'.
  apply (trace_ind fetch follow max_depth
    (fun _ _ st o => ∀ txns st', o = (Ret txns, st') → ∀ a', a' ∈ fetched st' →
       a' ∈ fetched st ∨ ∃ d' w txs w', fetch a' d' max_depth w = (Ret txs, w'))
    (fun _ _ _ _ st o => ∀ out st', o = (Ret out, st') → ∀ a', a' ∈ fetched st' →
       a' ∈ fetched st ∨ ∃ d' w txs w', fetch a' d' max_depth w = (Ret txs, w')));
    clear fuel a d st; try (intros; discriminate); try by eauto.
  - intros a d st _ txns st' [= <- <-] a' Ha'. by left.
  - intros a d st txs w o Hd Ha Hf HPL txns st' -> a' Ha'.
    destruct (HPL txns st' eq_refl a' Ha') as [Hin|Hr]; [|by right].
    simpl in Hin. apply elem_of_app in Hin as [Hin|Hin]; [by left|].
    apply list_elem_of_singleton in Hin as ->. right; eauto.
  - intros a d acc st out st' [= <- <-] a' Ha'. by left.
  - intros a d t rest acc st o b sub st2 Hf Hb HP HPL out st' -> a' Ha'.
    destruct (HPL out st' eq_refl a' Ha') as [Hin|Hr]; [|by right].
    by apply (HP sub st2 eq_refl).
Qed.
End TraceResults.

Section TracePaths.
Context {txn : Type}.
Variable fetch : string → Z → Z → net → res (list txn) * net.
Variable follow : txn → option string.
Variable max_depth : Z.

(** [E] holds at least of the hops the tracer takes. *)
Variable E : string → string → Prop.
Hypothesis hop_E : ∀ a t b,
  served_to fetch max_depth a t → follow t = Some b → b ≠ a → E a b.

Local Abbreviation reached := (reached max_depth E).

Lemma reached_first a d b : E a b → d ≤ max_depth → reached a d b (d + 1).
Proof.
  intros He Hd. exists 1%nat. split_and!; [|lia..].
  eapply path_hop; [done|apply path_here].
Qed.

Lemma reached_hop a d b c l : E a b → reached b (d + 1) c l → reached a d c l.
Proof.
  intros He (n & Hp & -> & Hn & Hb). exists (S n). split_and!; [|lia..].
  by eapply path_hop.
Qed.

(** A level found in the map at the end was there at the start, or is the
    length of a path from the traced account, at most [max_depth + 1]
    counted from depth 0. *)
Lemma trace_transactions_levels fuel a d st b l :
  Dict.get
    (node_levels (snd (Tracer.trace_transactions fetch follow fuel a d max_depth st)))
    b = Some l →
  Dict.get (node_levels st) b = Some l ∨ reached a d b l.
Proof.
  revert b l.
  apply (trace_ind_inv fetch follow max_depth
    (fun a d st o => ∀ b l, Dict.get (node_levels (snd o)) b = Some l →
       Dict.get (node_levels st) b = Some l ∨ reached a d b l)
    (fun a d txs _ st o =>
       a ∈ traced st → d ≤ max_depth → (∀ t, t ∈ txs → served_to fetch max_depth a t) →
       ∀ b l, Dict.get (node_levels (snd o)) b = Some l →
         Dict.get (node_levels st) b = Some l ∨ reached a d b l));
    clear fuel a d st; simpl; try by eauto.
  - intros a d st txs w o Hd Ha Hf Hinv HPL b l Hl.
    apply (HPL ltac:(set_solver) Hd); [|done].
    intros t Ht. by exists d, (wire st), txs, w.
  - intros a d t rest acc st o Hf HPL Ha Hd Hs b l Hl.
    apply HPL; try done. intros t0 Ht0. apply Hs. by right.
  - intros a d t rest acc st o b Hf Hb HPL Ha Hd Hs b' l Hl.
    apply HPL; try done. intros t0 Ht0. apply Hs. by right.
  - intros a d t rest acc st o b sub st2 Hf Hb Hinv1 Hinv2 HP HPL Ha Hd Hs
      b' l Hl.
    assert (E a b) as He.
    { eapply hop_E; [apply Hs; by left|done|]. intros ->. done. }
    destruct (HPL (trace_inv_traced _ _ _ Hinv1 Ha) Hd
                (fun t0 Ht0 => Hs t0 (list_elem_of_further _ _ _ Ht0)) b' l Hl)
      as [Hl2|Hr]; [|by right].
    destruct (HP b' l Hl2) as [Hl1|Hr]; [|right; by eapply reached_hop].
    simpl in Hl1. rewrite dict_get_set in Hl1. case_decide as Hbb; [|by left].
    subst b'. injection Hl1 as <-. right. by apply reached_first.
  - intros a d t rest acc st b e st2 Hf Hb HP Ha Hd Hs b' l Hl.
    assert (E a b) as He.
    { eapply hop_E; [apply Hs; by left|done|]. intros ->. done. }
    destruct (HP b' l Hl) as [Hl1|Hr]; [|right; by eapply reached_hop].
    simpl in Hl1. rewrite dict_get_set in Hl1. case_decide as Hbb; [|by left].
    subst b'. injection Hl1 as <-. right. by apply reached_first.
  - intros a d t rest acc st b st2 Hf Hb HP Ha Hd Hs b' l Hl.
    assert (E a b) as He.
    { eapply hop_E; [apply Hs; by left|done|]. intros ->. done. }
    destruct (HP b' l Hl) as [Hl1|Hr]; [|right; by eapply reached_hop].
    simpl in Hl1. rewrite dict_get_set in Hl1. case_decide as Hbb; [|by left].
    subst b'. injection Hl1 as <-. right. by apply reached_first.
Qed.
End TracePaths.

(** ** Converted amounts and the filters *)

Lemma Qpositive_spec q : Qpositive q = true ↔ 0 < Qnum q.
Proof.
  unfold Qpositive, Qle_bool. simpl. rewrite negb_true_iff, Z.leb_gt. lia.
Qed.

Lemma Qpositive_Qlt q : Qpositive q = true ↔ (0 < q)%Q.
Proof. rewrite Qpositive_spec. unfold Qlt. simpl. lia. Qed.

Lemma eth_amount_num t : Qnum (Eth.amount t) = Eth.tx_value t * 1.
Proof. reflexivity. Qed.

Lemma eth_amount_positive t :
  Qpositive (Eth.amount t) = true ↔ 0 < Eth.tx_value t.
Proof. rewrite Qpositive_spec, eth_amount_num. lia. Qed.

Lemma xrp_amount_positive v : Qpositive (Xrp.amount v) = true ↔ 0 < v.
Proof.
  rewrite Qpositive_spec. change (Qnum (Xrp.amount v)) with (v * 1). lia.
Qed.

Lemma eth_accept_spec s e t :
  Eth.accept s e t = true
  ↔ s ≤ Eth.tx_timeStamp t ≤ e ∧ (0 < Eth.amount t)%Q.
Proof.
  unfold Eth.accept.
  rewrite !andb_true_iff, !Z.leb_le, Qpositive_Qlt. tauto.
Qed.

Lemma xrp_accept_spec s e t : Xrp.accept s e t = true ↔ s ≤ Xrp.date t ≤ e.
Proof. unfold Xrp.accept. rewrite andb_true_iff, !Z.leb_le. tauto. Qed.

Lemma eth_follow_Some t b :
  Eth.follow t = Some b → b = Eth.tx_to t ∧ 0 < Eth.tx_value t.
Proof.
  unfold Eth.follow.
  destruct (bool_decide _ && Qpositive _) eqn:Hg; [|done].
  intros [= <-]. apply andb_true_iff in Hg as [_ Hq].
  by apply eth_amount_positive in Hq.
Qed.

Lemma xrp_follow_Some t b :
  Xrp.follow t = Some b →
  Xrp.Destination t = Some b ∧ is_Some (Xrp.Amount t).
Proof.
  unfold Xrp.follow.
  destruct (Xrp.Destination t) as [dst|]; [|done].
  destruct (Xrp.Amount t) as [v|]; [|done].
  intros [= <-]. split; [done|by eexists].
Qed.

(** ** What [fetch_all_transactions] returns *)

Section EthFetch.
Variable server : nat → string → Z → reply Eth.txlist.

Local Abbreviation eth_served := (eth_served server).

Lemma eth_get_transactions_Ret fuel : ∀ account page w json w',
  Eth.get_transactions server fuel account page w = (Ret json, w') →
  ∃ clock code, server clock account page = Http code json.
Proof.
  induction fuel as [|fuel IH]; intros account page w json w'; simpl; [done|].
  destruct (server (clock w) account page) as [code j|] eqn:Hs; [|done].
  destruct (code =? 429); [by apply IH|].
  destruct (raises_for_status code); [done|].
  intros [= <- <-]. eauto.
Qed.

Lemma eth_fetch_pages_S fuel account s e page acc w :
  Eth.fetch_pages server (S fuel) account s e page acc w
  = match Eth.get_transactions server (S fuel) account page w with
    | (Ret data, w1) =>
        if bool_decide (Eth.status data = "0") then (Ret acc, w1)
        else
          let acc1 := acc ++ List.filter (Eth.accept s e) (Eth.result data) in
          if Z.of_nat (length (Eth.result data)) <? 10000
          then (Ret acc1, w1)
          else Eth.fetch_pages server fuel account s e (page + 1) acc1 w1
    | (Exc e, w1) => (Exc e, w1)
    | (OutOfFuel, w1) => (OutOfFuel, w1)
    end.
Proof. reflexivity. Qed.

Lemma eth_fetch_pages_accepted s e fuel : ∀ account page acc w txs w',
  Eth.fetch_pages server fuel account s e page acc w = (Ret txs, w') →
  ∀ t, t ∈ txs → t ∈ acc ∨ (Eth.accept s e t = true ∧ eth_served account t).
Proof.
  induction fuel as [|fuel IH]; intros account page acc w txs w'; [done|].
  rewrite eth_fetch_pages_S.
  destruct (Eth.get_transactions server (S fuel) account page w)
    as [[data|ex|] w1] eqn:Hget; [|done..].
  apply eth_get_transactions_Ret in Hget as (clk & code & Hs).
  assert (∀ t, t ∈ acc ++ List.filter (Eth.accept s e) (Eth.result data) →
            t ∈ acc ∨ (Eth.accept s e t = true ∧ eth_served account t)) as Hnew.
  { intros t [Ha|Hf]%elem_of_app; [by left|right].
    apply list_elem_of_In, filter_In in Hf as [Hin Hacc].
    split; [done|]. exists clk, page, code, data.
    split; [done|]. by apply list_elem_of_In. }
  case_bool_decide.
  { intros [= <- <-] t Ht. by left. }
  simpl. destruct (Z.of_nat (length (Eth.result data)) <? 10000).
  { intros [= <- <-]. done. }
  intros Hrec t Ht. destruct (IH _ _ _ _ _ _ Hrec t Ht) as [Hin|Hok]; eauto.
Qed.

Lemma eth_fetch_all_accepted s e fuel account d m w txs w' t :
  Eth.fetch_all_transactions server fuel account s e d m w = (Ret txs, w') →
  t ∈ txs → Eth.accept s e t = true ∧ eth_served account t.
Proof.
  intros Hf Ht. destruct (eth_fetch_pages_accepted _ _ _ _ _ _ _ _ _ Hf t Ht)
    as [Hnil|Hok]; [by apply elem_of_nil in Hnil | done].
Qed.
End EthFetch.

Section XrpFetch.
Variable server : nat → string → option string → Z → reply Xrp.txpage.

Local Abbreviation xrp_served := (xrp_served server).

Lemma xrp_get_loop_Ret fuel : ∀ account mark limit retries attempt w json w',
  Xrp.get_loop server fuel account mark limit retries attempt w = (Ret json, w') →
  ∃ clock code, server clock account (Xrp.params_marker mark) limit = Http code json
                ∧ raises_for_status code = false.
Proof.
  induction fuel as [|fuel IH]; intros account mark limit retries attempt w
    json w'; simpl; [done|].
  destruct (attempt <? retries); [|done].
  destruct (server (clock w) account (Xrp.params_marker mark) limit)
    as [code j|] eqn:Hs; [|done].
  destruct (code =? 429); [by apply IH|].
  destruct (raises_for_status code) eqn:Hr.
  - destruct (code =? 504); [by apply IH|done].
  - intros [= <- <-]. eauto.
Qed.

Lemma xrp_fetch_pages_S fuel account s e d m limit mark acc w :
  Xrp.fetch_pages server (S fuel) account s e d m limit mark acc w
  = match Xrp.get_transactions server (S fuel) account mark limit 5 w with
    | (Ret data, w1) =>
        let acc1 := acc ++ List.filter (Xrp.accept s e) (Xrp.transactions data) in
        match Xrp.marker data with
        | Some mk =>
            if d <? m
            then Xrp.fetch_pages server fuel account s e d m limit (Some mk) acc1 w1
            else (Ret acc1, w1)
        | None => (Ret acc1, w1)
        end
    | (Exc e, w1) => (Exc e, w1)
    | (OutOfFuel, w1) => (OutOfFuel, w1)
    end.
Proof. reflexivity. Qed.

Lemma xrp_fetch_pages_accepted s e fuel : ∀ account d m limit mark acc w txs w',
  Xrp.fetch_pages server fuel account s e d m limit mark acc w = (Ret txs, w') →
  ∀ t, t ∈ txs → t ∈ acc ∨ (Xrp.accept s e t = true ∧ xrp_served account t).
Proof.
  induction fuel as [|fuel IH]; intros account d m limit mark acc w txs w';
    [done|].
  rewrite xrp_fetch_pages_S.
  destruct (Xrp.get_transactions server (S fuel) account mark limit 5 w)
    as [[data|ex|] w1] eqn:Hget; [|done..].
  apply xrp_get_loop_Ret in Hget as (clk & code & Hs & _).
  assert (∀ t, t ∈ acc ++ List.filter (Xrp.accept s e) (Xrp.transactions data) →
            t ∈ acc ∨ (Xrp.accept s e t = true ∧ xrp_served account t)) as Hnew.
  { intros t [Ha|Hf]%elem_of_app; [by left|right].
    apply list_elem_of_In, filter_In in Hf as [Hin Hacc].
    split; [done|]. exists clk, (Xrp.params_marker mark), limit, code, data.
    split; [done|]. by apply list_elem_of_In. }
  simpl. destruct (Xrp.marker data) as [mk|].
  - destruct (d <? m).
    + intros Hrec t Ht.
      destruct (IH _ _ _ _ _ _ _ _ _ Hrec t Ht) as [Hin|Hok]; eauto.
    + intros [= <- <-]. done.
  - intros [= <- <-]. done.
Qed.

Lemma xrp_fetch_all_accepted s e fuel account d m w txs w' t :
  Xrp.fetch_all_transactions server fuel account s e d m w = (Ret txs, w') →
  t ∈ txs → Xrp.accept s e t = true ∧ xrp_served account t.
Proof.
  unfold Xrp.fetch_all_transactions. intros Hf Ht.
  destruct (xrp_fetch_pages_accepted _ _ _ _ _ _ _ _ _ _ _ _ Hf t Ht)
    as [Hnil|Hok]; [by apply elem_of_nil in Hnil | done].
Qed.
End XrpFetch.

(** ** The graph builder *)

Lemma dict_get_snoc {K V : Type} `{EqDecision K} (d : list (K * V)) k v k' :
  Dict.get (d ++ [(k, v)]) k'
  = match Dict.get d k' with
    | Some x => Some x
    | None => if decide (k' = k) then Some v else None
    end.
Proof.
  induction d as [|[k0 v0] d IH]; simpl; [done|].
  by destruct (decide (k' = k0)).
Qed.

Lemma add_node_get n G m :
  Dict.get (nodes (add_node n G)) m
  = match Dict.get (nodes G) m with
    | Some x => Some x
    | None => if decide (m = n) then Some None else None
    end.
Proof.
  unfold add_node. destruct (Dict.mem (nodes G) n) eqn:Hm; simpl.
  - destruct (Dict.get (nodes G) m) eqn:Hg; [done|].
    case_decide as Heq; [|done]. subst m.
    apply dict_mem_get in Hm as [x Hx]. congruence.
  - apply dict_get_snoc.
Qed.

Lemma add_node_edges n G : edges (add_node n G) = edges G.
Proof. unfold add_node. by destruct (Dict.mem (nodes G) n). Qed.

Lemma graph_step_edges s d w ls ld G :
  edges (graph_step s d w ls ld G) = Dict.set (edges G) (s, d) w.
Proof.
  unfold graph_step, set_subset_key, add_edge. simpl.
  by rewrite !add_node_edges.
Qed.

Lemma graph_step_nodes s d w ls ld G n :
  Dict.get (nodes (graph_step s d w ls ld G)) n
  = if decide (d = n) then Some (Some ld)
    else if decide (s = n) then Some (Some ls)
    else Dict.get (nodes G) n.
Proof.
  unfold graph_step, set_subset_key, add_edge. simpl.
  rewrite !dict_get_set. repeat case_decide; try done.
  rewrite !add_node_get. destruct (Dict.get (nodes G) n); [done|].
  by rewrite !decide_False.
Qed.

Section BuilderFacts.
Context {txn : Type}.
Variable edge_of : txn → option (string * string * Q).
Implicit Types (levels lv : list (string * Z)) (G : DiGraph).

Lemma default_source_get s levels a l :
  Dict.get levels a = Some l →
  Dict.get (Builder.default_source s levels) a = Some l.
Proof.
  intros Ha. unfold Builder.default_source.
  destruct (Dict.mem levels s) eqn:Hm; [done|].
  apply dict_mem_false in Hm. rewrite dict_get_set_ne; [done|congruence].
Qed.

Lemma default_source_mono s levels a :
  is_Some (Dict.get levels a) →
  is_Some (Dict.get (Builder.default_source s levels) a).
Proof. intros [l Hl]. exists l. by apply default_source_get. Qed.

Lemma default_source_new s levels :
  Dict.get levels s = None →
  Dict.get (Builder.default_source s levels) s = Some 0.
Proof.
  intros Hs. unfold Builder.default_source.
  apply dict_mem_false in Hs. rewrite Hs. apply dict_get_set_eq.
Qed.

Lemma default_source_source s levels :
  is_Some (Dict.get (Builder.default_source s levels) s).
Proof.
  destruct (Dict.get levels s) as [l|] eqn:Hs.
  - exists l. by apply default_source_get.
  - exists 0. by apply default_source_new.
Qed.

(** The loop unfolded at a transaction that gets an edge. *)
Lemma build_loop_cons t rest G levels s d w :
  edge_of t = Some (s, d, w) →
  Builder.build_loop edge_of (t :: rest) G levels
  = match Dict.get (Builder.default_source s levels) s with
    | None => (Exc (KeyError s), Builder.default_source s levels)
    | Some ls =>
        match Dict.get (Builder.default_source s levels) d with
        | None => (Exc (KeyError d), Builder.default_source s levels)
        | Some ld =>
            Builder.build_loop edge_of rest (graph_step s d w ls ld G)
              (Builder.default_source s levels)
        end
    end.
Proof. intros He. simpl. by rewrite He. Qed.

Lemma build_loop_skip t rest G levels :
  edge_of t = None →
  Builder.build_loop edge_of (t :: rest) G levels
  = Builder.build_loop edge_of rest G levels.
Proof. intros He. simpl. by rewrite He. Qed.

(** Entries of the level map are never changed. *)
Lemma build_loop_levels txns : ∀ G levels r lv,
  Builder.build_loop edge_of txns G levels = (r, lv) →
  ∀ a l, Dict.get levels a = Some l → Dict.get lv a = Some l.
Proof.
  induction txns as [|t rest IH]; intros G levels r lv.
  - intros [= <- <-]. done.
  - destruct (edge_of t) as [[[s d] w]|] eqn:He.
    + rewrite (build_loop_cons _ _ _ _ _ _ _ He).
      destruct (Dict.get (Builder.default_source s levels) s) as [ls|].
      2:{ intros [= <- <-] a l. apply default_source_get. }
      destruct (Dict.get (Builder.default_source s levels) d) as [ld|].
      2:{ intros [= <- <-] a l. apply default_source_get. }
      intros Hb a l Hl. eapply IH; [done|]. by apply default_source_get.
    + rewrite (build_loop_skip _ _ _ _ He). apply IH.
Qed.

(** No [KeyError] when every destination has a level. *)
Lemma build_loop_total txns : ∀ G levels,
  (∀ t s d w, t ∈ txns → edge_of t = Some (s, d, w) →
              is_Some (Dict.get levels d)) →
  ∃ G' lv, Builder.build_loop edge_of txns G levels = (Ret G', lv).
Proof.
  induction txns as [|t rest IH]; intros G levels Hd; [by eexists _, _|].
  destruct (edge_of t) as [[[s d] w]|] eqn:He.
  - rewrite (build_loop_cons _ _ _ _ _ _ _ He).
    destruct (default_source_source s levels) as [ls ->].
    destruct (default_source_mono s levels d) as [ld ->].
    { eapply Hd; [by left|done]. }
    apply IH. intros t' s' d' w' Ht' He'. apply default_source_mono.
    eapply Hd; [by right|done].
  - rewrite (build_loop_skip _ _ _ _ He). apply IH.
    intros t' s' d' w' Ht' He'. eapply Hd; [by right|done].
Qed.

(** Every node of the graph has a level in the returned map. *)
Lemma build_loop_nodes txns : ∀ G levels G' lv,
  Builder.build_loop edge_of txns G levels = (Ret G', lv) →
  (∀ n, is_Some (Dict.get (nodes G) n) → is_Some (Dict.get levels n)) →
  ∀ n, is_Some (Dict.get (nodes G') n) → is_Some (Dict.get lv n).
Proof.
  induction txns as [|t rest IH]; intros G levels G' lv.
  - intros [= <- <-]. done.
  - destruct (edge_of t) as [[[s d] w]|] eqn:He.
    + rewrite (build_loop_cons _ _ _ _ _ _ _ He).
      destruct (Dict.get (Builder.default_source s levels) s) as [ls|] eqn:Hs;
        [|done].
      destruct (Dict.get (Builder.default_source s levels) d) as [ld|] eqn:Hd;
        [|done].
      intros Hb HG. eapply IH; [done|]. intros n.
      rewrite graph_step_nodes. repeat case_decide; subst.
      * by eexists.
      * by eexists.
      * intros Hn. by apply default_source_mono, HG.
    + rewrite (build_loop_skip _ _ _ _ He). apply IH.
Qed.

(** An edge keeps its weight through transactions between other pairs. *)
Lemma build_loop_edge_kept txns s d : ∀ G levels G' lv,
  Builder.build_loop edge_of txns G levels = (Ret G', lv) →
  (∀ t w, t ∈ txns → edge_of t ≠ Some (s, d, w)) →
  Dict.get (edges G') (s, d) = Dict.get (edges G) (s, d).
Proof.
  induction txns as [|t rest IH]; intros G levels G' lv.
  - intros [= <- <-]. done.
  - destruct (edge_of t) as [[[s' d'] w']|] eqn:He.
    + rewrite (build_loop_cons _ _ _ _ _ _ _ He).
      destruct (Dict.get (Builder.default_source s' levels) s') as [ls|];
        [|done].
      destruct (Dict.get (Builder.default_source s' levels) d') as [ld|];
        [|done].
      intros Hb Hno. erewrite IH; [|done|].
      * rewrite graph_step_edges. apply dict_get_set_ne.
        intros [= -> ->]. by eapply (Hno t w'); [left|].
      * intros t0 w0 Ht0. apply Hno. by right.
    + rewrite (build_loop_skip _ _ _ _ He). intros Hb Hno.
      eapply IH; [done|]. intros t0 w0 Ht0. apply Hno. by right.
Qed.

(** The weight of an edge is that of the last transaction of its pair. *)
Lemma build_loop_last_wins pre : ∀ t post G levels G' lv s d w,
  Builder.build_loop edge_of (pre ++ t :: post) G levels = (Ret G', lv) →
  edge_of t = Some (s, d, w) →
  (∀ t' w', t' ∈ post → edge_of t' ≠ Some (s, d, w')) →
  Dict.get (edges G') (s, d) = Some w.
Proof.
  induction pre as [|t0 pre IH]; intros t post G levels G' lv s d w; simpl.
  - intros Hb He Hno. fold (Builder.build_loop edge_of) in Hb.
    change (Builder.build_loop edge_of (t :: post) G levels = (Ret G', lv)) in Hb.
    rewrite (build_loop_cons _ _ _ _ _ _ _ He) in Hb.
    destruct (Dict.get (Builder.default_source s levels) s) as [ls|]; [|done].
    destruct (Dict.get (Builder.default_source s levels) d) as [ld|]; [|done].
    erewrite build_loop_edge_kept; [|done..].
    rewrite graph_step_edges. apply dict_get_set_eq.
  - intros Hb He Hno.
    change (Builder.build_loop edge_of (t0 :: pre ++ t :: post) G levels
            = (Ret G', lv)) in Hb.
    destruct (edge_of t0) as [[[s0 d0] w0]|] eqn:He0.
    + rewrite (build_loop_cons _ _ _ _ _ _ _ He0) in Hb.
      destruct (Dict.get (Builder.default_source s0 levels) s0) as [ls|];
        [|done].
      destruct (Dict.get (Builder.default_source s0 levels) d0) as [ld|];
        [|done].
      by eapply IH.
    + rewrite (build_loop_skip _ _ _ _ He0) in Hb. by eapply IH.
Qed.

(** Every edge comes from a transaction. *)
Lemma build_loop_edge_source txns : ∀ G levels G' lv s d w,
  Builder.build_loop edge_of txns G levels = (Ret G', lv) →
  Dict.get (edges G') (s, d) = Some w →
  Dict.get (edges G) (s, d) = Some w
  ∨ ∃ t, t ∈ txns ∧ edge_of t = Some (s, d, w).
Proof.
  induction txns as [|t rest IH]; intros G levels G' lv s d w.
  - intros [= <- <-]. by left.
  - destruct (edge_of t) as [[[s' d'] w']|] eqn:He.
    + rewrite (build_loop_cons _ _ _ _ _ _ _ He).
      destruct (Dict.get (Builder.default_source s' levels) s') as [ls|];
        [|done].
      destruct (Dict.get (Builder.default_source s' levels) d') as [ld|];
        [|done].
      intros Hb Hw. destruct (IH _ _ _ _ _ _ _ Hb Hw) as [Hg|(t' & Ht' & He')].
      * rewrite graph_step_edges, dict_get_set in Hg.
        case_decide as Heq; [|by left].
        injection Heq as -> ->. injection Hg as ->.
        right. exists t. split; [by left|done].
      * right. exists t'. split; [by right|done].
    + rewrite (build_loop_skip _ _ _ _ He). intros Hb Hw.
      destruct (IH _ _ _ _ _ _ _ Hb Hw) as [Hg|(t' & Ht' & He')]; [by left|].
      right. exists t'. split; [by right|done].
Qed.
End BuilderFacts.

(** ** The scenario of the specification *)

(** C1, as stated, fails: with [max_depth = 1] the account [B] is entered at
    depth 1, and [1 > 1] is false, so [B] is expanded and the transaction
    from [B] to [D] is in the returned list. *)
Lemma C1_counterexample :
  ¬ (∃ txns st G lv,
       EthFixture.run_scenario = (Ret txns, st)
       ∧ Eth.build_graph txns (node_levels st) = (Ret G, lv)
       ∧ (EthFixture.tx "B" "D" 1 10 ∉ txns)
       ∧ Dict.keys (nodes G) ≡ₚ ["A"; "B"; "C"]
       ∧ Dict.keys (edges G) ≡ₚ [("A", "B"); ("A", "C")]
       ∧ lv ≡ₚ [("A", 0); ("B", 1); ("C", 1)]).
Proof.
  intros (txns & st & G & lv & Hrun & _ & Hno & _).
  apply (f_equal fst) in Hrun. vm_compute in Hrun.
  injection Hrun as <-. apply Hno. vm_compute.
  apply list_elem_of_further, list_elem_of_here.
Qed.

(** C1, amended: in the scenario the tracer fetches [A], [B] and [C] and
    returns the three transactions; the graph has the nodes [A], [B], [D],
    [C] and the edges [A→B], [B→D], [A→C]; the level map is [A=0], [B=1],
    [D=2], [C=1]. Only [D], reached at depth 2, is not expanded. *)
Theorem C1_scenario :
  (fst EthFixture.run_scenario
   = Ret [EthFixture.tx "A" "B" 5 10; EthFixture.tx "B" "D" 1 10;
          EthFixture.tx "A" "C" 3 10]
   ∧ node_levels (snd EthFixture.run_scenario)
     = [("A", 0); ("B", 1); ("D", 2); ("C", 1)]
   ∧ fetched (snd EthFixture.run_scenario) = ["A"; "B"; "C"]
   ∧ ∃ G, Eth.build_graph
            [EthFixture.tx "A" "B" 5 10; EthFixture.tx "B" "D" 1 10;
             EthFixture.tx "A" "C" 3 10]
            (node_levels (snd EthFixture.run_scenario))
          = (Ret G, [("A", 0); ("B", 1); ("D", 2); ("C", 1)])
        ∧ nodes G = [("A", Some 0); ("B", Some 1); ("D", Some 2); ("C", Some 1)]
        ∧ Dict.keys (edges G) = [("A", "B"); ("B", "D"); ("A", "C")])
  ∧
  (fst XrpFixture.run_scenario
   = Ret [XrpFixture.tx "A" "B" 5000000 10; XrpFixture.tx "B" "D" 1000000 10;
          XrpFixture.tx "A" "C" 3000000 10]
   ∧ node_levels (snd XrpFixture.run_scenario)
     = [("A", 0); ("B", 1); ("D", 2); ("C", 1)]
   ∧ fetched (snd XrpFixture.run_scenario) = ["A"; "B"; "C"]
   ∧ ∃ G, Xrp.build_graph
            [XrpFixture.tx "A" "B" 5000000 10; XrpFixture.tx "B" "D" 1000000 10;
             XrpFixture.tx "A" "C" 3000000 10]
            (node_levels (snd XrpFixture.run_scenario))
          = (Ret G, [("A", 0); ("B", 1); ("D", 2); ("C", 1)])
        ∧ nodes G = [("A", Some 0); ("B", Some 1); ("D", Some 2); ("C", Some 1)]
        ∧ Dict.keys (edges G) = [("A", "B"); ("B", "D"); ("A", "C")]).
Proof.
  split.
  - split_and!; [by vm_compute..|].
    eexists. split_and!; [by vm_compute|done..].
  - split_and!; [by vm_compute..|].
    eexists. split_and!; [by vm_compute|done..].
Qed.

(** ** Depth bound *)

Lemma path_no_entry E n a c :
  path E n a c → (∀ x, ¬ E x c) → n = O ∧ a = c.
Proof.
  induction 1 as [a|n a b c He Hp IH]; intros Hno; [done|].
  destruct (IH Hno) as [_ ->]. by apply Hno in He.
Qed.

Lemma eth_tracer_hop server history fuel s e k a t b :
  eth_serves server history →
  served_to (fun a d m w => Eth.fetch_all_transactions server fuel a s e d m w) k a t →
  Eth.follow t = Some b → b ≠ a → eth_edge history a b.
Proof.
  intros Hsrv (d & w & txs & w' & Hf & Ht) Hfol Hne.
  destruct (eth_fetch_all_accepted _ _ _ _ _ _ _ _ _ _ _ Hf Ht)
    as [_ (clk & page & code & json & Hs & Hin)].
  destruct (Hsrv _ _ _ _ _ _ Hs Hin) as [Hh Hor].
  apply eth_follow_Some in Hfol as [-> _].
  exists t. split_and!; [done| |done]. by destruct Hor.
Qed.

Lemma xrp_tracer_hop server history fuel s e k a t b :
  xrp_serves server history →
  served_to (fun a d m w => Xrp.fetch_all_transactions server fuel a s e d m w) k a t →
  Xrp.follow t = Some b → b ≠ a → xrp_edge history a b.
Proof.
  intros Hsrv (d & w & txs & w' & Hf & Ht) Hfol Hne.
  destruct (xrp_fetch_all_accepted _ _ _ _ _ _ _ _ _ _ _ Hf Ht)
    as [_ (clk & mark & limit & code & json & Hs & Hin)].
  destruct (Hsrv _ _ _ _ _ _ _ Hs Hin) as [Hh Hor].
  apply xrp_follow_Some in Hfol as [Hd _].
  exists t. split_and!; [done| |done]. destruct Hor as [?|Hd']; [done|].
  congruence.
Qed.

Lemma eth_ledger_serves history : eth_serves (EthFixture.ledger history) history.
Proof.
  intros clk account page code json t. unfold EthFixture.ledger.
  destruct (List.filter _ history) as [|t0 l] eqn:Hf.
  - intros [= <- <-] Ht. by apply elem_of_nil in Ht.
  - intros [= <- <-]. simpl. destruct (page =? 1).
    + rewrite <- Hf. intros [Hin Hb]%list_elem_of_In%filter_In.
      split; [by apply list_elem_of_In|].
      apply orb_true_iff in Hb as [Hb|Hb]; apply bool_decide_eq_true in Hb; auto.
    + intros Ht. by apply elem_of_nil in Ht.
Qed.

Lemma xrp_ledger_serves history : xrp_serves (XrpFixture.ledger history) history.
Proof.
  intros clk account mark limit code json t. unfold XrpFixture.ledger.
  intros [= <- <-]. simpl. intros [Hin Hb]%list_elem_of_In%filter_In.
  split; [by apply list_elem_of_In|].
  apply orb_true_iff in Hb as [Hb|Hb]; apply bool_decide_eq_true in Hb; auto.
Qed.

(** C2, as stated, fails: in the scenario, with [max_depth = 1], the account
    [D] is two hops from the origin and is a key of the final level map. *)
Lemma C2_counterexample :
  ¬ (∀ a, farther_than (eth_edge EthFixture.scenario) "A" 1 a →
          Dict.get (node_levels (snd EthFixture.run_scenario)) a = None).
Proof.
  intros Hclaim. specialize (Hclaim "D"). cut (Some 2 = None); [done|].
  rewrite <- Hclaim; [by vm_compute|].
  intros n Hp. inversion Hp as [|n' a b c He Hp' Hn Ha Hc]; subst.
  inversion Hp' as [|n'' a' b' c' He' Hp'']; subst; [|lia].
  destruct He as (t & Ht & Hfrom & Hto). exfalso.
  unfold EthFixture.scenario in Ht.
  repeat (apply elem_of_cons in Ht as [->|Ht]; [discriminate|]).
  by apply elem_of_nil in Ht.
Qed.

(** C2, amended: the bound is [max_depth + 1]. An entry of the final level
    map that the trace started at [depth] has written has a level [l] with
    [depth < l ≤ max_depth + 1] and its account ends a path of [l - depth]
    transfers from the traced account; every other entry was in the map
    before. Hence no account more than [max_depth + 1] hops away is added. *)
Theorem C2_depth_bound :
  (∀ server history fuel origin s e depth k st b l,
     eth_serves server history →
     Dict.get
       (node_levels (snd (Eth.trace_transactions server fuel origin s e depth k st)))
       b = Some l →
     Dict.get (node_levels st) b = Some l
     ∨ (depth < l ≤ k + 1
        ∧ path (eth_edge history) (Z.to_nat (l - depth)) origin b))
  ∧
  (∀ server history fuel origin s e depth k st b l,
     xrp_serves server history →
     Dict.get
       (node_levels (snd (Xrp.trace_transactions server fuel origin s e depth k st)))
       b = Some l →
     Dict.get (node_levels st) b = Some l
     ∨ (depth < l ≤ k + 1
        ∧ path (xrp_edge history) (Z.to_nat (l - depth)) origin b)).
Proof.
  split.
  - intros server history fuel origin s e depth k st b l Hsrv Hl.
    unfold Eth.trace_transactions in Hl.
    eapply trace_transactions_levels in Hl as [Hl|(n & Hp & -> & Hn & Hb)];
      [by left| |intros a t b'; by apply eth_tracer_hop].
    right. split; [lia|].
    by replace (Z.to_nat (depth + Z.of_nat n - depth)) with n by lia.
  - intros server history fuel origin s e depth k st b l Hsrv Hl.
    unfold Xrp.trace_transactions in Hl.
    eapply trace_transactions_levels in Hl as [Hl|(n & Hp & -> & Hn & Hb)];
      [by left| |intros a t b'; by apply xrp_tracer_hop].
    right. split; [lia|].
    by replace (Z.to_nat (depth + Z.of_nat n - depth)) with n by lia.
Qed.

Lemma C2_depth_bound_witness :
  (0 < 2 ≤ 1 + 1 ∧ path (eth_edge EthFixture.scenario) 2 "A" "D")
  ∧ (0 < 2 ≤ 1 + 1 ∧ path (xrp_edge XrpFixture.scenario) 2 "A" "D").
Proof.
  split.
  - destruct (proj1 C2_depth_bound (EthFixture.ledger EthFixture.scenario)
                EthFixture.scenario 10%nat "A" 0 100 0 1 (init_state "A") "D" 2
                (eth_ledger_serves _) ltac:(by vm_compute)) as [H0|Hp].
    + by vm_compute in H0.
    + exact Hp.
  - destruct (proj2 C2_depth_bound (XrpFixture.ledger XrpFixture.scenario)
                XrpFixture.scenario 10%nat "A" 0 100 0 1 (init_state "A") "D" 2
                (xrp_ledger_serves _) ltac:(by vm_compute)) as [H0|Hp].
    + by vm_compute in H0.
    + exact Hp.
Defined.

(** ** Level assignment *)

Lemma assignments_to_cons a b l log :
  assignments_to a ((b, l) :: log)
  = if decide (b = a) then l :: assignments_to a log else assignments_to a log.
Proof.
  unfold assignments_to. simpl.
  case_bool_decide; by case_decide.
Qed.

Lemma replay_last asg : ∀ levels a,
  Dict.get (replay asg levels) a
  = match last_assigned a asg with
    | Some l => Some l
    | None => Dict.get levels a
    end.
Proof.
  unfold last_assigned.
  induction asg as [|[b l] asg IH]; intros levels a; simpl; [done|].
  change (Dict.get (replay asg (Dict.set levels b l)) a
          = match last (assignments_to a ((b, l) :: asg)) with
            | Some l0 => Some l0
            | None => Dict.get levels a
            end).
  rewrite IH, assignments_to_cons, dict_get_set.
  case_decide; [|done]. rewrite last_cons.
  by destruct (last (assignments_to a asg)).
Qed.

(** The log of assignments follows the code: a call at depth [d] assigns
    [d + 1] at every discovery of its own loop, the calls it makes assign
    in between, and when the call returns the assignments are, one for one
    and in order, those of the transactions it returns. *)
Section TraceAssignments.
Context {txn : Type}.
Variable fetch : string → Z → Z → net → res (list txn) * net.
Variable follow : txn → option string.
Variable max_depth : Z.

Local Abbreviation discovered := (discovered fetch follow max_depth).

Lemma discovered_assigned_to a d txns asg :
  discovered a d txns asg → map follow txns = assigned_to asg.
Proof.
  unfold assigned_to.
  induction 1 as [|a d t b sub asub rest arest Hd Hs Hf _ IH1 _ IH2]; [done|].
  simpl. rewrite !map_app, Hf. by rewrite IH1, IH2.
Qed.

Lemma discovered_nested a d txns asg :
  discovered a d txns asg → nested max_depth d asg.
Proof.
  induction 1; by constructor.
Qed.

Lemma trace_transactions_assignments fuel a d st :
  ∃ asg,
    assigned (snd (Tracer.trace_transactions fetch follow fuel a d max_depth st))
    = assigned st ++ asg
    ∧ nested max_depth d asg
    ∧ ∀ txns,
        fst (Tracer.trace_transactions fetch follow fuel a d max_depth st)
        = Ret txns →
        discovered a d txns asg.
Proof.
  apply (trace_ind_inv fetch follow max_depth
    (fun a d st o => ∃ asg, assigned (snd o) = assigned st ++ asg
       ∧ nested max_depth d asg
       ∧ ∀ txns, fst o = Ret txns → discovered a d txns asg)
    (fun a d txs acc st o =>
       d ≤ max_depth →
       (∀ t, t ∈ txs → served_at fetch max_depth a d t) →
       ∃ asg, assigned (snd o) = assigned st ++ asg
       ∧ nested max_depth d asg
       ∧ ∀ out, fst o = Ret out →
           ∃ new, out = acc ++ new ∧ discovered a d new asg));
    clear fuel a d st; simpl.
  - intros a d st. exists []. rewrite app_nil_r. by split_and!; [|constructor|].
  - intros a d st _. exists []. rewrite app_nil_r.
    split_and!; [done|constructor|]. intros txns [= <-]. constructor.
  - intros a d st e w _ _ _. exists []. rewrite app_nil_r.
    by split_and!; [|constructor|].
  - intros a d st w _ _ _. exists []. rewrite app_nil_r.
    by split_and!; [|constructor|].
  - intros a d st txs w o Hd _ Hf _ HPL.
    destruct (HPL Hd) as (asg & Hasg & Hn & Hout).
    { intros t Ht. by exists (wire st), txs, w. }
    exists asg. split_and!; [done..|]. intros txns Ho.
    by destruct (Hout txns Ho) as (new & -> & Hnew).
  - intros a d acc st _ _. exists []. rewrite app_nil_r.
    split_and!; [done|constructor|].
    intros out [= <-]. exists []. rewrite app_nil_r. split; [done|constructor].
  - intros a d t rest acc st o _ HPL Hd Hs. apply HPL; [done|].
    intros t' Ht'. apply Hs. by right.
  - intros a d t rest acc st o b _ _ HPL Hd Hs. apply HPL; [done|].
    intros t' Ht'. apply Hs. by right.
  - intros a d t rest acc st o b sub st2 Hf Hb _ _ HP HPL Hd Hs.
    destruct HP as (asg1 & Ha1 & Hn1 & Hsub).
    destruct (HPL Hd) as (asg2 & Ha2 & Hn2 & Hout).
    { intros t' Ht'. apply Hs. by right. }
    simpl in Ha1. exists ((b, d + 1) :: asg1 ++ asg2). split_and!.
    + rewrite Ha2, Ha1. by rewrite <- !app_assoc.
    + by constructor.
    + intros out Ho. destruct (Hout out Ho) as (new & -> & Hnew).
      exists (t :: sub ++ new). split; [by rewrite <- app_assoc|].
      constructor; [done|apply Hs; by left|done|by apply Hsub|done].
  - intros a d t rest acc st b e st2 Hf Hb HP Hd Hs.
    destruct HP as (asg1 & Ha1 & Hn1 & _). simpl in Ha1.
    exists ((b, d + 1) :: asg1 ++ []). split_and!.
    + rewrite Ha1, app_nil_r. by rewrite <- !app_assoc.
    + constructor; [done..|constructor].
    + done.
  - intros a d t rest acc st b st2 Hf Hb HP Hd Hs.
    destruct HP as (asg1 & Ha1 & Hn1 & _). simpl in Ha1.
    exists ((b, d + 1) :: asg1 ++ []). split_and!.
    + rewrite Ha1, app_nil_r. by rewrite <- !app_assoc.
    + constructor; [done..|constructor].
    + done.
Qed.
End TraceAssignments.




(** ** No re-expansion *)

(** C4: the accounts for which [fetch_all_transactions] is called during a
    trace are pairwise distinct; none was in [traced] before the trace and
    each is in [traced] after it; [traced] only grows. This holds whatever
    the outcome of the trace. *)
Theorem C4_fetched_once :
  (∀ server fuel account s e depth k st,
     let st' := snd (Eth.trace_transactions server fuel account s e depth k st) in
     traced st ⊆ traced st'
     ∧ ∃ new, fetched st' = fetched st ++ new ∧ NoDup new
         ∧ ∀ a, a ∈ new → (a ∉ traced st) ∧ (a ∈ traced st'))
  ∧
  (∀ server fuel account s e depth k st,
     let st' := snd (Xrp.trace_transactions server fuel account s e depth k st) in
     traced st ⊆ traced st'
     ∧ ∃ new, fetched st' = fetched st ++ new ∧ NoDup new
         ∧ ∀ a, a ∈ new → (a ∉ traced st) ∧ (a ∈ traced st')).
Proof.
  split; intros server fuel account s e depth k st st'.
  - destruct (trace_transactions_inv
      (fun a d m w => Eth.fetch_all_transactions server fuel a s e d m w)
      Eth.follow k fuel account depth st) as (Ht & Hf & _). done.
  - destruct (trace_transactions_inv
      (fun a d m w => Xrp.fetch_all_transactions server fuel a s e d m w)
      Xrp.follow k fuel account depth st) as (Ht & Hf & _). done.
Qed.

(** ** Filter correctness *)

Lemma eth_trace_accepted server fuel origin s e depth k st txns st' t :
  Eth.trace_transactions server fuel origin s e depth k st = (Ret txns, st') →
  t ∈ txns → Eth.accept s e t = true.
Proof.
  intros Hrun Ht. unfold Eth.trace_transactions in Hrun.
  destruct (trace_transactions_kept _ _ _ _ _ _ _ _ _ Hrun t Ht)
    as [(a & d & w & txs & w' & Hf & Hin) _].
  by destruct (eth_fetch_all_accepted _ _ _ _ _ _ _ _ _ _ _ Hf Hin).
Qed.

Lemma xrp_trace_accepted server fuel origin s e depth k st txns st' t :
  Xrp.trace_transactions server fuel origin s e depth k st = (Ret txns, st') →
  t ∈ txns → Xrp.accept s e t = true.
Proof.
  intros Hrun Ht. unfold Xrp.trace_transactions in Hrun.
  destruct (trace_transactions_kept _ _ _ _ _ _ _ _ _ Hrun t Ht)
    as [(a & d & w & txs & w' & Hf & Hin) _].
  by destruct (xrp_fetch_all_accepted _ _ _ _ _ _ _ _ _ _ _ Hf Hin).
Qed.

Lemma eth_graph_edge txns levels G lv src dst w :
  Eth.build_graph txns levels = (Ret G, lv) →
  Dict.get (edges G) (src, dst) = Some w →
  ∃ t, t ∈ txns ∧ Eth.tx_from t = src ∧ Eth.tx_to t = dst ∧ w = Eth.amount t.
Proof.
  intros Hb Hw.
  destruct (build_loop_edge_source _ _ _ _ _ _ _ _ _ Hb Hw)
    as [Hnil|(t & Ht & He)]; [done|].
  injection He as <- <- <-. by exists t.
Qed.

Lemma xrp_edge_of_Some t src dst w :
  Xrp.edge_of t = Some (src, dst, w) →
  Xrp.Account t = src ∧ Xrp.Destination t = Some dst
  ∧ ∃ v, Xrp.Amount t = Some v ∧ w = Xrp.amount v.
Proof.
  unfold Xrp.edge_of. destruct (Xrp.Destination t) as [d|]; [|done].
  destruct (Xrp.Amount t) as [v|]; [|done].
  intros [= <- <- <-]. eauto.
Qed.

Lemma xrp_graph_edge txns levels G lv src dst w :
  Xrp.build_graph txns levels = (Ret G, lv) →
  Dict.get (edges G) (src, dst) = Some w →
  ∃ t, t ∈ txns ∧ Xrp.Account t = src ∧ Xrp.Destination t = Some dst
       ∧ ∃ v, Xrp.Amount t = Some v ∧ w = Xrp.amount v.
Proof.
  intros Hb Hw.
  destruct (build_loop_edge_source _ _ _ _ _ _ _ _ _ Hb Hw)
    as [Hnil|(t & Ht & He)]; [done|].
  exists t. split; [done|]. by apply xrp_edge_of_Some.
Qed.

(** C5, as stated, fails for [xrp_track.py], which never looks at the sign
    of an amount: an in-window transaction of amount 0 is returned by the
    tracer and becomes an edge of weight 0. *)
Lemma C5_counterexample :
  ¬ (∀ txns st, XrpFixture.run_zero_amount = (Ret txns, st) →
       (∀ t v, t ∈ txns → Xrp.Amount t = Some v → (0 < Xrp.amount v)%Q)
       ∧ ∀ G lv src dst w,
           Xrp.build_graph txns (node_levels st) = (Ret G, lv) →
           Dict.get (edges G) (src, dst) = Some w → (0 < w)%Q).
Proof.
  intros Hclaim.
  destruct (Hclaim [XrpFixture.tx "A" "B" 0 10] (snd XrpFixture.run_zero_amount))
    as [Hpos _]; [by vm_compute|].
  specialize (Hpos (XrpFixture.tx "A" "B" 0 10) 0 ltac:(by left) eq_refl).
  by vm_compute in Hpos.
Qed.

(** C5, amended: the filter of [eth_track.py] accepts exactly the
    transactions in the inclusive window with a positive amount; the filter
    of [xrp_track.py] accepts exactly those in the window. In both, every
    transaction of the list the tracer returns passed the filter, and every
    edge of the built graph is the edge of a transaction of that list; so no
    transaction outside the window appears, and for [eth_track.py] none
    with an amount that is not positive. *)
Theorem C5_filter :
  ((∀ s e t, Eth.accept s e t = true
             ↔ s ≤ Eth.tx_timeStamp t ≤ e ∧ (0 < Eth.amount t)%Q)
   ∧ ∀ server fuel origin s e depth k st txns st',
       Eth.trace_transactions server fuel origin s e depth k st = (Ret txns, st') →
       (∀ t, t ∈ txns → s ≤ Eth.tx_timeStamp t ≤ e ∧ (0 < Eth.amount t)%Q)
       ∧ ∀ levels G lv src dst w,
           Eth.build_graph txns levels = (Ret G, lv) →
           Dict.get (edges G) (src, dst) = Some w →
           ∃ t, t ∈ txns ∧ Eth.tx_from t = src ∧ Eth.tx_to t = dst
                ∧ w = Eth.amount t
                ∧ s ≤ Eth.tx_timeStamp t ≤ e ∧ (0 < w)%Q)
  ∧
  ((∀ s e t, Xrp.accept s e t = true ↔ s ≤ Xrp.date t ≤ e)
   ∧ ∀ server fuel origin s e depth k st txns st',
       Xrp.trace_transactions server fuel origin s e depth k st = (Ret txns, st') →
       (∀ t, t ∈ txns → s ≤ Xrp.date t ≤ e)
       ∧ ∀ levels G lv src dst w,
           Xrp.build_graph txns levels = (Ret G, lv) →
           Dict.get (edges G) (src, dst) = Some w →
           ∃ t v, t ∈ txns ∧ Xrp.Account t = src ∧ Xrp.Destination t = Some dst
                  ∧ Xrp.Amount t = Some v ∧ w = Xrp.amount v
                  ∧ s ≤ Xrp.date t ≤ e).
Proof.
  split; split.
  - apply eth_accept_spec.
  - intros server fuel origin s e depth k st txns st' Hrun.
    assert (∀ t, t ∈ txns → s ≤ Eth.tx_timeStamp t ≤ e ∧ (0 < Eth.amount t)%Q)
      as Hall.
    { intros t Ht. apply eth_accept_spec. by eapply eth_trace_accepted. }
    split; [done|]. intros levels G lv src dst w Hb Hw.
    destruct (eth_graph_edge _ _ _ _ _ _ _ Hb Hw) as (t & Ht & <- & <- & ->).
    exists t. destruct (Hall t Ht). done.
  - apply xrp_accept_spec.
  - intros server fuel origin s e depth k st txns st' Hrun.
    assert (∀ t, t ∈ txns → s ≤ Xrp.date t ≤ e) as Hall.
    { intros t Ht. apply xrp_accept_spec. by eapply xrp_trace_accepted. }
    split; [done|]. intros levels G lv src dst w Hb Hw.
    destruct (xrp_graph_edge _ _ _ _ _ _ _ Hb Hw)
      as (t & Ht & <- & Hd & v & Hv & ->).
    exists t, v. destruct (Hall t Ht). done.
Qed.

Lemma C5_filter_witness :
  (∀ t, t ∈ [EthFixture.tx "A" "B" 5 10; EthFixture.tx "B" "D" 1 10;
             EthFixture.tx "A" "C" 3 10] →
        0 ≤ Eth.tx_timeStamp t ≤ 100 ∧ (0 < Eth.amount t)%Q)
  ∧ (∀ t, t ∈ [XrpFixture.tx "A" "B" 5000000 10; XrpFixture.tx "B" "D" 1000000 10;
               XrpFixture.tx "A" "C" 3000000 10] →
          0 ≤ Xrp.date t ≤ 100).
Proof.
  split.
  - refine (proj1 (proj2 (proj1 C5_filter)
      (EthFixture.ledger EthFixture.scenario) 10%nat "A" 0 100 0 1
      (init_state "A") _ (snd EthFixture.run_scenario) _)).
    by vm_compute.
  - refine (proj1 (proj2 (proj2 C5_filter)
      (XrpFixture.ledger XrpFixture.scenario) 10%nat "A" 0 100 0 1
      (init_state "A") _ (snd XrpFixture.run_scenario) _)).
    by vm_compute.
Defined.

(** ** Retry policy *)

Lemma xrp_fetch_failing server victim :
  (∀ clock mark limit, ∃ j, server clock victim mark limit = Http 504 j) →
  ∀ fuel s e d m w txs w',
    Xrp.fetch_all_transactions server fuel victim s e d m w ≠ (Ret txs, w').
Proof.
  intros H504 fuel s e d m w txs w'. unfold Xrp.fetch_all_transactions.
  destruct fuel as [|fuel]; [done|]. rewrite xrp_fetch_pages_S.
  destruct (Xrp.get_transactions server (S fuel) victim None 200 5 w)
    as [[data|ex|] w1] eqn:Hget; [|done..].
  apply xrp_get_loop_Ret in Hget as (clk & code & Hs & Hr).
  destruct (H504 clk (Xrp.params_marker None) 200) as [j Hj].
  rewrite Hj in Hs. injection Hs as <- _. done.
Qed.

Lemma xrp_fetch_cap server victim fuel s e d m w :
  (∀ clock mark limit, ∃ j, server clock victim mark limit = Http 504 j) →
  (5 < fuel)%nat →
  Xrp.fetch_all_transactions server fuel victim s e d m w
  = (Exc MaxRetriesExceeded, slept 30 5 w).
Proof.
  intros H504 Hfuel. unfold Xrp.fetch_all_transactions.
  destruct fuel as [|fuel]; [lia|]. rewrite xrp_fetch_pages_S.
  unfold Xrp.get_transactions.
  rewrite (xrp_get_loop_504 server 5); [done|done| |lia].
  intros i _. apply H504.
Qed.

(** C6, as stated, fails for [eth_track.py], whose client has no retry on
    status 504 and no cap: the first 504 is raised at once, after one
    request and without a sleep. *)
Lemma C6_counterexample :
  Eth.get_transactions EthFixture.always_504 10 "A" 1 net0
  = (Exc (HTTPError 504), tick net0)
  ∧ ¬ (∃ n, (0 < n)%nat
            ∧ snd (Eth.get_transactions EthFixture.always_504 10 "A" 1 net0)
              = slept 30 n net0).
Proof.
  split; [done|]. intros (n & Hn & Heq).
  apply (f_equal sleeps) in Heq. simpl in Heq.
  destruct n; [lia|done].
Qed.

(** C6, amended. In [xrp_track.py], [get_transactions] retries a
    rate-limited request without bound, sleeping 60 s each time: after [n]
    replies 429 and a good reply it returns, having slept [n] times; on
    status 504 it sleeps 30 s and retries, and when [retries] replies in a
    row were 504 it raises, after exactly [retries] requests; that
    exception ends the whole trace, which then returns no list; any other
    failure status is raised at the first reply. In [eth_track.py],
    [get_transactions] retries status 429 in the same way and raises every
    other failure status, 504 included, at the first reply. *)
Theorem C6_retry_policy :
  (∀ server n fuel account mark limit retries w code json,
     0 < retries →
     (∀ i, (i < n)%nat →
        ∃ j, server (clock w + i)%nat account (Xrp.params_marker mark) limit
             = Http 429 j) →
     server (clock w + n)%nat account (Xrp.params_marker mark) limit
     = Http code json →
     code ≠ 429 → raises_for_status code = false → (n < fuel)%nat →
     Xrp.get_transactions server fuel account mark limit retries w
     = (Ret json, tick (slept 60 n w)))
  ∧ (∀ server n fuel account mark limit w,
       (∀ i, (i < n)%nat →
          ∃ j, server (clock w + i)%nat account (Xrp.params_marker mark) limit
               = Http 504 j) →
       (n < fuel)%nat →
       Xrp.get_transactions server fuel account mark limit (Z.of_nat n) w
       = (Exc MaxRetriesExceeded, slept 30 n w))
  ∧ (∀ server victim fuel origin s e depth k st,
       (∀ clock mark limit, ∃ j, server clock victim mark limit = Http 504 j) →
       victim ∈ fetched (snd (Xrp.trace_transactions server fuel origin s e depth k st)) →
       victim ∉ fetched st →
       ∀ txns, fst (Xrp.trace_transactions server fuel origin s e depth k st)
               ≠ Ret txns)
  ∧ (∀ server victim fuel s e d m w,
       (∀ clock mark limit, ∃ j, server clock victim mark limit = Http 504 j) →
       (5 < fuel)%nat →
       Xrp.fetch_all_transactions server fuel victim s e d m w
       = (Exc MaxRetriesExceeded, slept 30 5 w))
  ∧ (fst XrpFixture.run_failing = Exc MaxRetriesExceeded
     ∧ wire (snd XrpFixture.run_failing) = slept 30 5 (tick net0))
  ∧ (∀ server fuel account mark limit retries w code json,
       0 < retries →
       server (clock w) account (Xrp.params_marker mark) limit = Http code json →
       raises_for_status code = true → code ≠ 429 → code ≠ 504 →
       Xrp.get_transactions server (S fuel) account mark limit retries w
       = (Exc (HTTPError code), tick w))
  ∧ (∀ server n fuel account page w code json,
       (∀ i, (i < n)%nat →
          ∃ j, server (clock w + i)%nat account page = Http 429 j) →
       server (clock w + n)%nat account page = Http code json →
       code ≠ 429 → raises_for_status code = false → (n < fuel)%nat →
       Eth.get_transactions server fuel account page w
       = (Ret json, tick (slept 60 n w)))
  ∧ (∀ server fuel account page w code json,
       server (clock w) account page = Http code json →
       raises_for_status code = true → code ≠ 429 →
       Eth.get_transactions server (S fuel) account page w
       = (Exc (HTTPError code), tick w)).
Proof.
  split_and!.
  - intros server n fuel account mark limit retries w code json Hr.
    by apply xrp_get_loop_rate_limited.
  - intros server n fuel account mark limit w H504 Hfuel.
    apply xrp_get_loop_504; [lia|done..].
  - intros server victim fuel origin s e depth k st H504 Hin Hnot txns Hret.
    destruct (Xrp.trace_transactions server fuel origin s e depth k st)
      as [r st'] eqn:Hrun. simpl in *. subst r.
    unfold Xrp.trace_transactions in Hrun.
    destruct (trace_transactions_fetch_returned _ _ _ _ _ _ _ _ _ Hrun victim Hin)
      as [Hold|(d' & w & txs & w' & Hf)]; [done|].
    by apply xrp_fetch_failing in Hf.
  - intros server victim fuel s e d m w. apply xrp_fetch_cap.
  - by vm_compute.
  - by vm_compute.
  - intros server fuel account mark limit retries w code json Hr.
    by apply xrp_get_loop_other.
  - intros server n fuel account page w code json. apply eth_get_rate_limited.
  - intros server fuel account page w code json. apply eth_get_failure.
Qed.

Lemma C6_retry_policy_witness :
  Xrp.get_transactions (XrpFixture.rate_limited 3 XrpFixture.scenario) 10 "A"
    None 200 5 net0
  = (Ret {| Xrp.transactions :=
              [XrpFixture.tx "A" "B" 5000000 10; XrpFixture.tx "A" "C" 3000000 10];
            Xrp.marker := None |},
     tick (slept 60 3 net0))
  ∧ Xrp.get_transactions (XrpFixture.failing_for "B" XrpFixture.scenario) 10 "B"
      None 200 (Z.of_nat 5) net0
    = (Exc MaxRetriesExceeded, slept 30 5 net0)
  ∧ (∀ txns, fst XrpFixture.run_failing ≠ Ret txns)
  ∧ Xrp.fetch_all_transactions (XrpFixture.failing_for "B" XrpFixture.scenario)
      10 "B" 0 100 1 1 net0
    = (Exc MaxRetriesExceeded, slept 30 5 net0)
  ∧ Xrp.get_transactions (fun _ _ _ _ => Http 500 XrpFixture.empty_page) 1 "A"
      None 200 5 net0
    = (Exc (HTTPError 500), tick net0)
  ∧ Eth.get_transactions
      (fun clock _ _ =>
         if (clock <? 2)%nat then Http 429 {| Eth.status := "0"; Eth.result := [] |}
         else Http 200 {| Eth.status := "0"; Eth.result := [] |})
      10 "A" 1 net0
    = (Ret {| Eth.status := "0"; Eth.result := [] |}, tick (slept 60 2 net0))
  ∧ Eth.get_transactions EthFixture.always_504 1 "A" 1 net0
    = (Exc (HTTPError 504), tick net0).
Proof.
  destruct C6_retry_policy as (X1 & X2 & X3 & X4 & _ & X5 & E1 & E2).
  split_and!.
  - apply (X1 _ 3%nat _ _ _ _ _ _ 200); [lia| |reflexivity|lia|reflexivity|lia].
    intros i Hi. exists XrpFixture.empty_page.
    destruct i as [|[|[|i]]]; [reflexivity..|lia].
  - apply (X2 _ 5%nat); [|lia].
    intros i Hi. by exists XrpFixture.empty_page.
  - unfold XrpFixture.run_failing. apply (X3 _ "B").
    + intros clk mark limit. by exists XrpFixture.empty_page.
    + vm_compute. apply list_elem_of_further, list_elem_of_here.
    + apply not_elem_of_nil.
  - apply X4; [|lia]. intros clk mark limit. by exists XrpFixture.empty_page.
  - apply (X5 _ _ _ _ _ _ _ _ XrpFixture.empty_page); [lia|reflexivity..|lia|lia].
  - apply (E1 _ 2%nat _ _ _ _ 200); [|reflexivity|lia|reflexivity|lia].
    intros i Hi. exists {| Eth.status := "0"; Eth.result := [] |}.
    destruct i as [|[|i]]; [reflexivity..|lia].
  - apply (E2 _ _ _ _ _ _ {| Eth.status := "0"; Eth.result := [] |});
      [reflexivity..|lia].
Defined.

(** ** Edge weights *)

Lemma Qnot_sum (a b : Q) : (0 < a)%Q → ¬ (b == a + b)%Q.
Proof.
  intros Ha Heq. apply (Qlt_irrefl b). rewrite Heq at 2.
  rewrite <- (Qplus_0_l b) at 1. by apply Qplus_lt_le_compat; [|apply Qle_refl].
Qed.

(** C7: when two transactions of the list have the same source and
    destination and no later transaction has that pair, the weight of the
    edge in the graph that [build_graph] returns is the converted amount of
    the later one; it is not the sum of the two amounts. *)
Theorem C7_edge_weight_overwrite :
  (∀ pre t1 mid t2 post levels G lv,
     Eth.build_graph (pre ++ t1 :: mid ++ t2 :: post) levels = (Ret G, lv) →
     Eth.tx_from t1 = Eth.tx_from t2 → Eth.tx_to t1 = Eth.tx_to t2 →
     (∀ t, t ∈ post →
           (Eth.tx_from t, Eth.tx_to t) ≠ (Eth.tx_from t2, Eth.tx_to t2)) →
     (0 < Eth.amount t1)%Q →
     Dict.get (edges G) (Eth.tx_from t2, Eth.tx_to t2) = Some (Eth.amount t2)
     ∧ ¬ (Eth.amount t2 == Eth.amount t1 + Eth.amount t2)%Q)
  ∧
  (∀ pre t1 mid t2 post levels G lv d v1 v2,
     Xrp.build_graph (pre ++ t1 :: mid ++ t2 :: post) levels = (Ret G, lv) →
     Xrp.Account t1 = Xrp.Account t2 →
     Xrp.Destination t1 = Some d → Xrp.Destination t2 = Some d →
     Xrp.Amount t1 = Some v1 → Xrp.Amount t2 = Some v2 →
     (∀ t, t ∈ post →
           (Xrp.Account t, Xrp.Destination t) ≠ (Xrp.Account t2, Some d)) →
     (0 < Xrp.amount v1)%Q →
     Dict.get (edges G) (Xrp.Account t2, d) = Some (Xrp.amount v2)
     ∧ ¬ (Xrp.amount v2 == Xrp.amount v1 + Xrp.amount v2)%Q).
Proof.
  split.
  - intros pre t1 mid t2 post levels G lv Hb Hfrom Hto Hpost Hpos.
    split; [|by apply Qnot_sum].
    change (pre ++ t1 :: mid ++ t2 :: post)
      with (pre ++ (t1 :: mid) ++ t2 :: post) in Hb.
    rewrite app_assoc in Hb.
    eapply (build_loop_last_wins Eth.edge_of); [exact Hb|done|].
    intros t' w' Ht' [= Hf Ht _]. apply (Hpost t' Ht'). by rewrite Hf, Ht.
  - intros pre t1 mid t2 post levels G lv d v1 v2 Hb Hacc Hd1 Hd2 Hv1 Hv2
      Hpost Hpos.
    split; [|by apply Qnot_sum].
    change (pre ++ t1 :: mid ++ t2 :: post)
      with (pre ++ (t1 :: mid) ++ t2 :: post) in Hb.
    rewrite app_assoc in Hb.
    eapply (build_loop_last_wins Xrp.edge_of); [exact Hb| |].
    + unfold Xrp.edge_of. by rewrite Hd2, Hv2.
    + intros t' w' Ht' He. apply xrp_edge_of_Some in He as (Ha & Hd & _).
      apply (Hpost t' Ht'). by rewrite Ha, Hd.
Qed.

Lemma C7_edge_weight_overwrite_witness :
  (∃ G, fst (Eth.build_graph
               [EthFixture.tx "A" "B" 5 10; EthFixture.tx "A" "B" 7 10;
                EthFixture.tx "A" "C" 1 10]
               [("A", 0); ("B", 1); ("C", 1)]) = Ret G
        ∧ Dict.get (edges G) ("A", "B") = Some (Eth.amount (EthFixture.tx "A" "B" 7 10)))
  ∧ (∃ G, fst (Xrp.build_graph
                 [XrpFixture.tx "A" "B" 5 10; XrpFixture.tx "A" "B" 7 10;
                  XrpFixture.tx "A" "C" 1 10]
                 [("A", 0); ("B", 1); ("C", 1)]) = Ret G
          ∧ Dict.get (edges G) ("A", "B") = Some (Xrp.amount 7)).
Proof.
  split.
  - eexists. split; [by vm_compute|].
    refine (proj1 (proj1 C7_edge_weight_overwrite []
      (EthFixture.tx "A" "B" 5 10) [] (EthFixture.tx "A" "B" 7 10)
      [EthFixture.tx "A" "C" 1 10] [("A", 0); ("B", 1); ("C", 1)] _
      [("A", 0); ("B", 1); ("C", 1)] _ eq_refl eq_refl _ _)).
    + by vm_compute.
    + intros t Ht%list_elem_of_singleton. by subst t.
    + by vm_compute.
  - eexists. split; [by vm_compute|].
    refine (proj1 (proj2 C7_edge_weight_overwrite []
      (XrpFixture.tx "A" "B" 5 10) [] (XrpFixture.tx "A" "B" 7 10)
      [XrpFixture.tx "A" "C" 1 10] [("A", 0); ("B", 1); ("C", 1)] _
      [("A", 0); ("B", 1); ("C", 1)] "B" 5 7 _ eq_refl eq_refl eq_refl
      eq_refl eq_refl _ _)).
    + by vm_compute.
    + intros t Ht%list_elem_of_singleton. by subst t.
    + by vm_compute.
Defined.

(** ** Level defaulting in [build_graph] *)

Section BuilderLevels.
Context {txn : Type}.
Variable edge_of : txn → option (string * string * Q).
Implicit Types (levels lv : list (string * Z)) (G : DiGraph).

Lemma default_source_change s levels a :
  Dict.get (Builder.default_source s levels) a = Dict.get levels a
  ∨ (Dict.get levels a = None
     ∧ Dict.get (Builder.default_source s levels) a = Some 0).
Proof.
  unfold Builder.default_source.
  destruct (Dict.mem levels s) eqn:Hm; [by left|].
  apply dict_mem_false in Hm. rewrite dict_get_set.
  case_decide; [subst; by right | by left].
Qed.

(** The level map changes only by new entries of level 0. *)
Lemma build_loop_levels_change txns : ∀ G levels r lv,
  Builder.build_loop edge_of txns G levels = (r, lv) →
  ∀ a, Dict.get lv a = Dict.get levels a
       ∨ (Dict.get levels a = None ∧ Dict.get lv a = Some 0).
Proof.
  assert (∀ s levels lv a,
    (Dict.get lv a = Dict.get (Builder.default_source s levels) a
     ∨ (Dict.get (Builder.default_source s levels) a = None
        ∧ Dict.get lv a = Some 0)) →
    Dict.get lv a = Dict.get levels a
    ∨ (Dict.get levels a = None ∧ Dict.get lv a = Some 0)) as Hstep.
  { intros s levels lv a [Heq|[Hn H0]];
      destruct (default_source_change s levels a) as [Hd|[Hn' Hd]].
    - left. congruence.
    - right. split; congruence.
    - right. split; congruence.
    - congruence. }
  induction txns as [|t rest IH]; intros G levels r lv.
  - intros [= <- <-] a. by left.
  - destruct (edge_of t) as [[[s d] w]|] eqn:He.
    + rewrite (build_loop_cons _ _ _ _ _ _ _ _ He).
      destruct (Dict.get (Builder.default_source s levels) s) as [ls|].
      2:{ intros [= <- <-] a. apply (Hstep s). by left. }
      destruct (Dict.get (Builder.default_source s levels) d) as [ld|].
      2:{ intros [= <- <-] a. apply (Hstep s). by left. }
      intros Hb a. apply (Hstep s). by eapply IH.
    + rewrite (build_loop_skip _ _ _ _ _ He). apply IH.
Qed.

Lemma build_loop_attr_ok txns : ∀ G levels G' lv,
  Builder.build_loop edge_of txns G levels = (Ret G', lv) →
  attr_ok G levels → attr_ok G' lv.
Proof.
  induction txns as [|t rest IH]; intros G levels G' lv.
  - intros [= <- <-]. done.
  - destruct (edge_of t) as [[[s d] w]|] eqn:He.
    + rewrite (build_loop_cons _ _ _ _ _ _ _ _ He).
      destruct (Dict.get (Builder.default_source s levels) s) as [ls|] eqn:Hs;
        [|done].
      destruct (Dict.get (Builder.default_source s levels) d) as [ld|] eqn:Hd;
        [|done].
      intros Hb Hok. eapply IH; [done|]. intros n l.
      rewrite graph_step_nodes. repeat case_decide; subst.
      * by intros [= <-].
      * by intros [= <-].
      * intros Hn. by apply default_source_get, Hok.
    + rewrite (build_loop_skip _ _ _ _ _ He). apply IH.
Qed.

Lemma build_loop_has_attr txns : ∀ G levels G' lv n,
  Builder.build_loop edge_of txns G levels = (Ret G', lv) →
  has_attr G n → has_attr G' n.
Proof.
  induction txns as [|t rest IH]; intros G levels G' lv n.
  - intros [= <- <-]. done.
  - destruct (edge_of t) as [[[s d] w]|] eqn:He.
    + rewrite (build_loop_cons _ _ _ _ _ _ _ _ He).
      destruct (Dict.get (Builder.default_source s levels) s) as [ls|];
        [|done].
      destruct (Dict.get (Builder.default_source s levels) d) as [ld|];
        [|done].
      intros Hb [l Hl]. eapply IH; [done|]. unfold has_attr.
      rewrite graph_step_nodes. repeat case_decide; eauto.
    + rewrite (build_loop_skip _ _ _ _ _ He). apply IH.
Qed.

Lemma build_loop_endpoints txns : ∀ G levels G' lv t s d w,
  Builder.build_loop edge_of txns G levels = (Ret G', lv) →
  t ∈ txns → edge_of t = Some (s, d, w) →
  has_attr G' s ∧ has_attr G' d.
Proof.
  induction txns as [|t0 rest IH]; intros G levels G' lv t s d w Hb Ht He.
  - by apply elem_of_nil in Ht.
  - apply elem_of_cons in Ht as [->|Ht].
    + rewrite (build_loop_cons _ _ _ _ _ _ _ _ He) in Hb.
      destruct (Dict.get (Builder.default_source s levels) s) as [ls|];
        [|done].
      destruct (Dict.get (Builder.default_source s levels) d) as [ld|];
        [|done].
      split; (eapply build_loop_has_attr; [exact Hb|]); unfold has_attr;
        rewrite graph_step_nodes; repeat case_decide; eauto; done.
    + destruct (edge_of t0) as [[[s0 d0] w0]|] eqn:He0.
      * rewrite (build_loop_cons _ _ _ _ _ _ _ _ He0) in Hb.
        destruct (Dict.get (Builder.default_source s0 levels) s0) as [ls|];
          [|done].
        destruct (Dict.get (Builder.default_source s0 levels) d0) as [ld|];
          [|done].
        by eapply IH.
      * rewrite (build_loop_skip _ _ _ _ _ He0) in Hb. by eapply IH.
Qed.

(** A source without a level gets level 0, in the map and on its node. *)
Lemma build_graph_source_default txns levels G lv t s d w :
  Builder.build_graph edge_of txns levels = (Ret G, lv) →
  t ∈ txns → edge_of t = Some (s, d, w) →
  Dict.get levels s = None →
  Dict.get lv s = Some 0 ∧ Dict.get (nodes G) s = Some (Some 0).
Proof.
  intros Hb Ht He Hnone. unfold Builder.build_graph in Hb.
  destruct (build_loop_endpoints _ _ _ _ _ _ _ _ _ Hb Ht He) as [[l Hl] _].
  assert (Dict.get lv s = Some l) as Hlv.
  { eapply build_loop_attr_ok; [exact Hb| |exact Hl]. by intros n l'. }
  destruct (build_loop_levels_change _ _ _ _ _ Hb s) as [Heq|[_ H0]].
  - congruence.
  - split; [done|]. congruence.
Qed.
End BuilderLevels.

(** C8: [build_graph] gives level 0 to the source of a transaction it
    processes when that source has no entry in the level map; the entry is
    written into the level map that the caller passed (the map returned
    here), the [subset_key] of the node is 0 as well, and no entry that was
    in the map before is changed. *)
Theorem C8_source_default :
  (∀ txns levels r lv,
     Eth.build_graph txns levels = (r, lv) →
     (∀ a l, Dict.get levels a = Some l → Dict.get lv a = Some l)
     ∧ (∀ a, Dict.get lv a = Dict.get levels a
             ∨ (Dict.get levels a = None ∧ Dict.get lv a = Some 0))
     ∧ ∀ G t, r = Ret G → t ∈ txns →
         Dict.get levels (Eth.tx_from t) = None →
         Dict.get lv (Eth.tx_from t) = Some 0
         ∧ Dict.get (nodes G) (Eth.tx_from t) = Some (Some 0))
  ∧
  (∀ txns levels r lv,
     Xrp.build_graph txns levels = (r, lv) →
     (∀ a l, Dict.get levels a = Some l → Dict.get lv a = Some l)
     ∧ (∀ a, Dict.get lv a = Dict.get levels a
             ∨ (Dict.get levels a = None ∧ Dict.get lv a = Some 0))
     ∧ ∀ G t, r = Ret G → t ∈ txns →
         is_Some (Xrp.Destination t) → is_Some (Xrp.Amount t) →
         Dict.get levels (Xrp.Account t) = None →
         Dict.get lv (Xrp.Account t) = Some 0
         ∧ Dict.get (nodes G) (Xrp.Account t) = Some (Some 0)).
Proof.
  split; intros txns levels r lv Hb; split_and!.
  - by eapply build_loop_levels.
  - by eapply build_loop_levels_change.
  - intros G t -> Ht Hnone.
    by eapply (build_graph_source_default Eth.edge_of).
  - by eapply build_loop_levels.
  - by eapply build_loop_levels_change.
  - intros G t -> Ht [d Hd] [v Hv] Hnone.
    eapply (build_graph_source_default Xrp.edge_of); [done..| |done].
    unfold Xrp.edge_of. by rewrite Hd, Hv.
Qed.

Lemma C8_source_default_witness :
  (Dict.get (snd EthFixture.unseen_source) "S" = Some 0
   ∧ Dict.get (snd EthFixture.unseen_source) "A" = Some 0
   ∧ Dict.get (snd EthFixture.unseen_source) "B" = Some 1)
  ∧ Dict.get
      (snd (Xrp.build_graph [XrpFixture.tx "S" "B" 5 10] [("A", 0); ("B", 1)]))
      "S" = Some 0.
Proof.
  destruct C8_source_default as [Heth Hxrp].
  split.
  - destruct (Heth [EthFixture.tx "S" "B" 5 10] [("A", 0); ("B", 1)]
                (fst EthFixture.unseen_source) (snd EthFixture.unseen_source)
                ltac:(by vm_compute)) as (Hkeep & _ & Hnew).
    split_and!.
    + eapply (Hnew _ (EthFixture.tx "S" "B" 5 10)); [by vm_compute| |done].
      apply list_elem_of_here.
    + by apply Hkeep.
    + by apply Hkeep.
  - destruct (Hxrp [XrpFixture.tx "S" "B" 5 10] [("A", 0); ("B", 1)]
                (fst (Xrp.build_graph [XrpFixture.tx "S" "B" 5 10]
                        [("A", 0); ("B", 1)]))
                (snd (Xrp.build_graph [XrpFixture.tx "S" "B" 5 10]
                        [("A", 0); ("B", 1)]))
                ltac:(by vm_compute)) as (_ & _ & Hnew).
    eapply (Hnew _ (XrpFixture.tx "S" "B" 5 10));
      [by vm_compute|apply list_elem_of_here|by eexists|by eexists|done].
Defined.

(** ** Node levels never missing *)

(** C10: every transaction of the list that [trace_transactions] returns
    has a destination with an entry in the final level map; [build_graph]
    on that list and that map raises no [KeyError], and every node of the
    graph it returns has an entry in the level map it leaves, so the
    lookups [node_levels[node]] of [visualize_graph] succeed. *)
Theorem C10_levels_present :
  (∀ server fuel origin s e depth k st txns st',
     Eth.trace_transactions server fuel origin s e depth k st = (Ret txns, st') →
     (∀ t, t ∈ txns → is_Some (Dict.get (node_levels st') (Eth.tx_to t)))
     ∧ ∃ G lv, Eth.build_graph txns (node_levels st') = (Ret G, lv)
         ∧ ∀ n, n ∈ Dict.keys (nodes G) → is_Some (Dict.get lv n))
  ∧
  (∀ server fuel origin s e depth k st txns st',
     Xrp.trace_transactions server fuel origin s e depth k st = (Ret txns, st') →
     (∀ t, t ∈ txns →
        ∃ d, Xrp.Destination t = Some d
             ∧ is_Some (Dict.get (node_levels st') d))
     ∧ ∃ G lv, Xrp.build_graph txns (node_levels st') = (Ret G, lv)
         ∧ ∀ n, n ∈ Dict.keys (nodes G) → is_Some (Dict.get lv n)).
Proof.
  split; intros server fuel origin s e depth k st txns st' Hrun.
  - unfold Eth.trace_transactions in Hrun.
    assert (∀ t, t ∈ txns → is_Some (Dict.get (node_levels st') (Eth.tx_to t)))
      as Hdst.
    { intros t Ht.
      destruct (trace_transactions_kept _ _ _ _ _ _ _ _ _ Hrun t Ht)
        as [_ (b & Hf & Hb)].
      by apply eth_follow_Some in Hf as [-> _]. }
    split; [done|].
    destruct (build_loop_total Eth.edge_of txns empty_graph (node_levels st'))
      as (G & lv & Hb).
    { intros t src d w Ht [= _ <- _]. by apply Hdst. }
    exists G, lv. split; [done|]. intros n Hn%dict_get_keys.
    eapply build_loop_nodes; [exact Hb| |done].
    simpl. by intros n' [? ?].
  - unfold Xrp.trace_transactions in Hrun.
    assert (∀ t, t ∈ txns →
              ∃ d, Xrp.Destination t = Some d
                   ∧ is_Some (Dict.get (node_levels st') d)) as Hdst.
    { intros t Ht.
      destruct (trace_transactions_kept _ _ _ _ _ _ _ _ _ Hrun t Ht)
        as [_ (b & Hf & Hb)].
      apply xrp_follow_Some in Hf as [Hd _]. eauto. }
    split; [done|].
    destruct (build_loop_total Xrp.edge_of txns empty_graph (node_levels st'))
      as (G & lv & Hb).
    { intros t src d w Ht He. apply xrp_edge_of_Some in He as (_ & Hd & _).
      destruct (Hdst t Ht) as (d' & Hd' & Hsome). congruence. }
    exists G, lv. split; [done|]. intros n Hn%dict_get_keys.
    eapply build_loop_nodes; [exact Hb| |done].
    simpl. by intros n' [? ?].
Qed.

Lemma C10_levels_present_witness :
  (∀ t, t ∈ [EthFixture.tx "A" "B" 5 10; EthFixture.tx "B" "D" 1 10;
             EthFixture.tx "A" "C" 3 10] →
        is_Some (Dict.get (node_levels (snd EthFixture.run_scenario)) (Eth.tx_to t)))
  ∧ (∀ t, t ∈ [XrpFixture.tx "A" "B" 5000000 10; XrpFixture.tx "B" "D" 1000000 10;
               XrpFixture.tx "A" "C" 3000000 10] →
          ∃ d, Xrp.Destination t = Some d
               ∧ is_Some (Dict.get (node_levels (snd XrpFixture.run_scenario)) d)).
Proof.
  split.
  - refine (proj1 (proj1 C10_levels_present
      (EthFixture.ledger EthFixture.scenario) 10%nat "A" 0 100 0 1
      (init_state "A") _ (snd EthFixture.run_scenario) _)).
    by vm_compute.
  - refine (proj1 (proj2 C10_levels_present
      (XrpFixture.ledger XrpFixture.scenario) 10%nat "A" 0 100 0 1
      (init_state "A") _ (snd XrpFixture.run_scenario) _)).
    by vm_compute.
Defined.

(** ** The layout pass *)

Lemma level_members_cons n l levels lvl :
  level_members ((n, l) :: levels) lvl
  = if decide (l = lvl) then n :: level_members levels lvl
    else level_members levels lvl.
Proof.
  unfold level_members. simpl. case_decide as Hl.
  - subst. by rewrite Z.eqb_refl.
  - apply Z.eqb_neq in Hl. by rewrite Hl.
Qed.

Lemma level_members_elem levels lvl n :
  n ∈ level_members levels lvl ↔ (n, lvl) ∈ levels.
Proof.
  induction levels as [|[n0 l0] levels IH].
  - unfold level_members. simpl. split; intros H'; by apply elem_of_nil in H'.
  - rewrite level_members_cons, elem_of_cons. case_decide as Hl.
    + subst. rewrite elem_of_cons, IH. naive_solver.
    + rewrite IH. naive_solver.
Qed.

Lemma level_nodes_fold levels : ∀ acc lvl,
  Dict.get (fold_left Layout.group_step levels acc) lvl
  = match Dict.get acc lvl, level_members levels lvl with
    | None, [] => None
    | None, n :: l => Some (n :: l)
    | Some a, l => Some (a ++ l)
    end.
Proof.
  induction levels as [|[n0 l0] levels IH]; intros acc lvl.
  - unfold level_members. simpl.
    destruct (Dict.get acc lvl); [by rewrite app_nil_r | done].
  - simpl. rewrite IH, level_members_cons, dict_get_set.
    case_decide as Hl.
    + subst l0. destruct (Dict.get acc lvl) as [a|]; [|done].
      by rewrite <- app_assoc.
    + done.
Qed.

Lemma level_nodes_get levels lvl :
  Dict.get (Layout.level_nodes levels) lvl
  = match level_members levels lvl with
    | [] => None
    | n :: l => Some (n :: l)
    end.
Proof. unfold Layout.level_nodes. by rewrite level_nodes_fold. Qed.

Lemma level_nodes_NoDup levels : NoDup (Dict.keys (Layout.level_nodes levels)).
Proof.
  unfold Layout.level_nodes.
  cut (∀ acc : list (Z * list string), NoDup (Dict.keys acc) →
         NoDup (Dict.keys (fold_left Layout.group_step levels acc))).
  { intros Hc. apply Hc. apply NoDup_nil_2. }
  induction levels as [|[n0 l0] levels IH]; intros acc Hnd; simpl; [done|].
  apply IH. by apply dict_keys_set_NoDup.
Qed.

Lemma level_nodes_entry levels lvl nodes :
  (lvl, nodes) ∈ Layout.level_nodes levels →
  nodes = level_members levels lvl ∧ nodes ≠ [].
Proof.
  intros Hin. apply dict_In_get in Hin; [|apply level_nodes_NoDup].
  rewrite level_nodes_get in Hin.
  destruct (level_members levels lvl); [done|]. by injection Hin as <-.
Qed.

Lemma insert_desc_elem key x l y :
  y ∈ Layout.insert_desc key x l ↔ y = x ∨ y ∈ l.
Proof.
  induction l as [|z l IH]; simpl.
  - rewrite list_elem_of_singleton. split; [by left|].
    intros [?|Hn]; [done|by apply elem_of_nil in Hn].
  - destruct (negb _); rewrite !elem_of_cons; [rewrite IH|]; naive_solver.
Qed.

Lemma sort_desc_elem key l y : y ∈ Layout.sort_desc key l ↔ y ∈ l.
Proof.
  induction l as [|x l IH]; simpl; [done|].
  rewrite insert_desc_elem, elem_of_cons, IH. done.
Qed.

Lemma place_nodes_other lvl nodes n : ∀ i pos,
  n ∉ nodes →
  Dict.get (Layout.place_nodes lvl i nodes pos) n = Dict.get pos n.
Proof.
  induction nodes as [|x nodes IH]; intros i pos Hn; simpl; [done|].
  apply not_elem_of_cons in Hn as [Hne Hn].
  rewrite IH by done. by apply dict_get_set_ne.
Qed.

Section LayoutFold.
Variable G : DiGraph.
Variable n : string.

Local Abbreviation elsewhere := (elsewhere n).

Lemma elsewhere_cons g groups :
  elsewhere (g :: groups) → elsewhere groups.
Proof. intros He lvl nodes Hin. apply He. by right. Qed.

Lemma place_level_other pos lvl nodes :
  (lvl ≠ 0 → n ∉ nodes) → (lvl = 0 → head nodes ≠ Some n) →
  Dict.get (Layout.place_level G pos (lvl, nodes)) n = Dict.get pos n.
Proof.
  intros Hnz Hz. simpl. destruct (lvl =? 0) eqn:Hl.
  - apply Z.eqb_eq in Hl. specialize (Hz Hl).
    destruct nodes as [|n0 nodes]; [done|].
    apply dict_get_set_ne. intros ->. by apply Hz.
  - apply Z.eqb_neq in Hl. apply place_nodes_other.
    rewrite sort_desc_elem. by apply Hnz.
Qed.

Lemma place_level_pinned pos lvl nodes :
  (lvl ≠ 0 → n ∉ nodes) →
  Dict.get pos n = Some (0, 0) →
  Dict.get (Layout.place_level G pos (lvl, nodes)) n = Some (0, 0).
Proof.
  intros Hnz Hp. simpl. destruct (lvl =? 0) eqn:Hl.
  - destruct nodes as [|n0 nodes]; [done|].
    rewrite dict_get_set. by case_decide.
  - apply Z.eqb_neq in Hl. rewrite place_nodes_other; [done|].
    rewrite sort_desc_elem. by apply Hnz.
Qed.

Lemma place_fold_other groups : ∀ pos,
  elsewhere groups →
  (∀ nodes, (0, nodes) ∈ groups → head nodes ≠ Some n) →
  Dict.get (fold_left (Layout.place_level G) groups pos) n = Dict.get pos n.
Proof.
  induction groups as [|[lvl nodes] groups IH]; intros pos He Hz; [done|].
  simpl fold_left. rewrite IH.
  - apply place_level_other.
    + intros Hl. eapply He; [by left|done].
    + intros ->. apply Hz. by left.
  - by eapply elsewhere_cons.
  - intros nodes' Hin. apply Hz. by right.
Qed.

Lemma place_fold_keeps groups : ∀ pos,
  elsewhere groups →
  Dict.get pos n = Some (0, 0) →
  Dict.get (fold_left (Layout.place_level G) groups pos) n = Some (0, 0).
Proof.
  induction groups as [|[lvl nodes] groups IH]; intros pos He Hp; [done|].
  simpl fold_left. apply IH; [by eapply elsewhere_cons|].
  apply place_level_pinned; [|done].
  intros Hl. eapply He; [by left|done].
Qed.

Lemma place_fold_pinned groups : ∀ pos,
  elsewhere groups →
  (∃ nodes, (0, nodes) ∈ groups ∧ head nodes = Some n) →
  Dict.get (fold_left (Layout.place_level G) groups pos) n = Some (0, 0).
Proof.
  induction groups as [|[lvl nodes] groups IH]; intros pos He (ns & Hin & Hh).
  - by apply elem_of_nil in Hin.
  - simpl fold_left. apply elem_of_cons in Hin as [[= <- <-]|Hin].
    + apply place_fold_keeps; [by eapply elsewhere_cons|].
      destruct ns as [|n0 ns]; [done|]. injection Hh as ->.
      simpl. apply dict_get_set_eq.
    + apply IH; [by eapply elsewhere_cons|]. by exists ns.
Qed.
End LayoutFold.

Lemma layout_elsewhere levels n :
  NoDup (Dict.keys levels) → Dict.get levels n = Some 0 →
  elsewhere n (Layout.level_nodes levels).
Proof.
  intros Hnd Hn lvl nodes Hin Hl Hmem.
  apply level_nodes_entry in Hin as [-> _].
  apply level_members_elem, dict_In_get in Hmem; [|done]. congruence.
Qed.

Lemma layout_level0 G levels n :
  NoDup (Dict.keys levels) → Dict.get levels n = Some 0 →
  Dict.get (fold_left (Layout.place_level G) (Layout.level_nodes levels) []) n
  = if decide (first_level0 levels = Some n) then Some (0, 0) else None.
Proof.
  intros Hnd Hn. case_decide as Hfirst.
  - apply place_fold_pinned; [by apply layout_elsewhere|].
    exists (level_members levels 0). split; [|done].
    apply dict_get_In. rewrite level_nodes_get.
    unfold first_level0 in Hfirst. by destruct (level_members levels 0).
  - rewrite place_fold_other; [done|by apply layout_elsewhere|].
    intros nodes Hin. by apply level_nodes_entry in Hin as [-> _].
Qed.

Lemma first_level0_level levels n0 :
  NoDup (Dict.keys levels) → first_level0 levels = Some n0 →
  Dict.get levels n0 = Some 0.
Proof.
  intros Hnd Hf. apply dict_In_get; [done|]. apply level_members_elem.
  unfold first_level0 in Hf. destruct (level_members levels 0); [done|].
  injection Hf as ->. by left.
Qed.

Lemma first_level0_exists levels n :
  Dict.get levels n = Some 0 → is_Some (first_level0 levels).
Proof.
  intros Hn%dict_get_In%level_members_elem. unfold first_level0.
  destruct (level_members levels 0); [by apply elem_of_nil in Hn|by eexists].
Qed.

(** C9, as stated, fails: [build_graph] puts the unseen source [S] on level
    0 next to [A]; the layout pass pins only [A], the first account of level
    0, and [S], a node of the graph, is left to the random placement. *)
Lemma C9_counterexample :
  ¬ (∀ G lv pos n,
       EthFixture.unseen_source = (Ret G, lv) →
       Layout.visualize_graph_pos G lv = Ret pos →
       Dict.get lv n = Some 0 →
       Dict.get pos n = Some (0, 0) ∧ n ∉ Layout.remaining_nodes G pos).
Proof.
  intros Hclaim.
  destruct (Hclaim
    {| nodes := [("S", Some 0); ("B", Some 1)];
       edges := [(("S", "B"), Eth.amount (EthFixture.tx "S" "B" 5 10))] |}
    [("A", 0); ("B", 1); ("S", 0)]
    [("A", (0, 0)); ("B", (1, 0))] "S") as [Hpos _]; by vm_compute.
Qed.

(** C9, amended: when level 0 holds an account, the layout pass pins the
    first account of level 0, in the order of the level map, at [(0, 0)]; it
    gives no coordinate to any other account of level 0, and such an account,
    when it is a node of the graph, is among the nodes that [eth_track.py]
    leaves to the random placement. *)
Theorem C9_first_origin_pinned :
  ∀ G levels pos n,
    NoDup (Dict.keys levels) →
    Layout.visualize_graph_pos G levels = Ret pos →
    Dict.get levels n = Some 0 →
    (∃ n0, first_level0 levels = Some n0 ∧ Dict.get levels n0 = Some 0
           ∧ Dict.get pos n0 = Some (0, 0))
    ∧ (first_level0 levels = Some n → Dict.get pos n = Some (0, 0))
    ∧ (first_level0 levels ≠ Some n →
       Dict.get pos n = None
       ∧ (n ∈ Dict.keys (nodes G) → n ∈ Layout.remaining_nodes G pos)).
Proof.
  intros G levels pos n Hnd Hpos Hn. unfold Layout.visualize_graph_pos in Hpos.
  destruct levels as [|entry levels]; [done|].
  injection Hpos as <-. split_and!.
  - destruct (first_level0_exists _ _ Hn) as [n0 Hn0]. exists n0.
    pose proof (first_level0_level _ _ Hnd Hn0) as Hl0.
    split_and!; [done..|]. rewrite layout_level0 by done. by rewrite decide_True.
  - intros Hfirst. rewrite layout_level0 by done. by rewrite decide_True.
  - intros Hfirst.
    assert (Dict.get
              (fold_left (Layout.place_level G)
                 (Layout.level_nodes (entry :: levels)) []) n = None) as Hnone.
    { rewrite layout_level0 by done. by rewrite decide_False. }
    split; [done|]. intros Hin. unfold Layout.remaining_nodes.
    apply list_elem_of_In, filter_In. split; [by apply list_elem_of_In|].
    apply negb_true_iff, dict_mem_false. done.
Qed.

Lemma C9_first_origin_pinned_witness :
  Dict.get [("A", (0, 0)); ("B", (1, 0))] "A" = Some (0, 0)
  ∧ Dict.get [("A", (0, 0)); ("B", (1, 0))] "S" = None
  ∧ "S" ∈ Layout.remaining_nodes
            {| nodes := [("S", Some 0); ("B", Some 1)];
               edges := [(("S", "B"), Eth.amount (EthFixture.tx "S" "B" 5 10))] |}
            [("A", (0, 0)); ("B", (1, 0))].
Proof.
  assert (NoDup (Dict.keys [("A", 0); ("B", 1); ("S", 0)])) as Hnd.
  { apply (bool_decide_unpack _). by vm_compute. }
  pose (G := {| nodes := [("S", Some 0); ("B", Some 1)];
                edges := [(("S", "B"), Eth.amount (EthFixture.tx "S" "B" 5 10))] |}).
  split_and!.
  - refine (proj1 (proj2 (C9_first_origin_pinned G [("A", 0); ("B", 1); ("S", 0)]
      [("A", (0, 0)); ("B", (1, 0))] "A" Hnd _ _)) _); by vm_compute.
  - refine (proj1 (proj2 (proj2 (C9_first_origin_pinned G
      [("A", 0); ("B", 1); ("S", 0)] [("A", (0, 0)); ("B", (1, 0))] "S" Hnd _ _)) _));
      by vm_compute.
  - refine (proj2 (proj2 (proj2 (C9_first_origin_pinned G
      [("A", 0); ("B", 1); ("S", 0)] [("A", (0, 0)); ("B", (1, 0))] "S" Hnd _ _)) _) _).
    + by vm_compute.
    + by vm_compute.
    + by vm_compute.
    + apply list_elem_of_here.
Defined.

(** ** Node labels *)

Lemma substring_length s : ∀ n m,
  String.length (String.substring n m s)
  = Nat.min m (String.length s - n).
Proof.
  induction s as [|c s IH]; intros n m; simpl.
  - destruct n, m; simpl; lia.
  - destruct n as [|n].
    + destruct m as [|m]; simpl; [done|]. rewrite IH. simpl. lia.
    + rewrite IH. done.
Qed.

Lemma string_app_length (s1 s2 : string) :
  String.length (s1 ++ s2)%string = (String.length s1 + String.length s2)%nat.
Proof. induction s1 as [|c s1 IH]; simpl; [done|]. by rewrite IH. Qed.

Lemma substring_all s : ∀ m,
  (String.length s ≤ m)%nat → String.substring 0 m s = s.
Proof.
  induction s as [|c s IH]; intros m Hm; simpl.
  - by destruct m.
  - destruct m as [|m]; simpl in *; [lia|]. rewrite IH; [done|lia].
Qed.



(** ** The ledger client: retry budget *)

Lemma count_504_cons c codes :
  length (List.filter (Z.eqb 504) (c :: codes))
  = ((if (504 =? c)%Z then 1 else 0) + length (List.filter (Z.eqb 504) codes))%nat.
Proof.
  change (List.filter (Z.eqb 504) (c :: codes))
    with (if 504 =? c then c :: List.filter (Z.eqb 504) codes
          else List.filter (Z.eqb 504) codes).
  destruct (504 =? c); reflexivity.
Qed.

Lemma retried_cons c codes w :
  retried codes (time_sleep (backoff c) (tick w)) = retried (c :: codes) w.
Proof.
  destruct w as [clk sl]. unfold retried, time_sleep, tick. simpl. f_equal.
  - lia.
  - by rewrite <- app_assoc.
Qed.

Lemma retried_nil w : retried [] w = w.
Proof.
  destruct w as [clk sl]. unfold retried. simpl.
  by rewrite Nat.add_0_r, app_nil_r.
Qed.

Lemma xrp_get_loop_budget server codes : ∀ fuel account mark limit retries attempt w code json,
  Forall (fun c => c = 429 ∨ c = 504) codes →
  (∀ i c, codes !! i = Some c →
     ∃ j, server (clock w + i)%nat account (Xrp.params_marker mark) limit
          = Http c j) →
  server (clock w + length codes)%nat account (Xrp.params_marker mark) limit
  = Http code json →
  raises_for_status code = false → code ≠ 429 →
  attempt + Z.of_nat (length (List.filter (Z.eqb 504) codes)) < retries →
  (length codes < fuel)%nat →
  Xrp.get_loop server fuel account mark limit retries attempt w
  = (Ret json, tick (retried codes w)).
Proof.
  induction codes as [|c codes IH];
    intros fuel account mark limit retries attempt w code json
      Hall Hrep Hgood Hr H429 Hbudget Hfuel;
    (destruct fuel as [|fuel]; [simpl in Hfuel; lia|]); simpl.
  - simpl in Hbudget, Hgood. rewrite Nat.add_0_r in Hgood.
    assert ((attempt <? retries) = true) as -> by (apply Z.ltb_lt; lia).
    rewrite Hgood. apply Z.eqb_neq in H429. rewrite H429, Hr.
    by rewrite retried_nil.
  - rewrite count_504_cons in Hbudget.
    assert ((attempt <? retries) = true) as ->.
    { apply Z.ltb_lt. destruct (504 =? c); lia. }
    destruct (Hrep O c eq_refl) as [j Hj]. rewrite Nat.add_0_r in Hj.
    rewrite Hj. apply Forall_cons in Hall as [Hc Hall].
    assert (∀ i c', codes !! i = Some c' →
              ∃ j', server (clock (tick w) + i)%nat account
                      (Xrp.params_marker mark) limit = Http c' j') as Hrep'.
    { intros i c' Hi. destruct (Hrep (S i) c' Hi) as [j' Hj'].
      exists j'. simpl. by rewrite <- Hj', Nat.add_succ_r. }
    assert (server (clock (tick w) + length codes)%nat account
              (Xrp.params_marker mark) limit = Http code json) as Hgood'.
    { simpl. rewrite <- Hgood. simpl. by rewrite Nat.add_succ_r. }
    simpl in Hfuel.
    destruct Hc as [-> | ->]; simpl in *.
    + rewrite (IH fuel account mark limit retries attempt
                 (time_sleep 60 (tick w)) code json); try done; [|lia].
      by rewrite <- retried_cons.
    + rewrite (IH fuel account mark limit retries (attempt + 1)
                 (time_sleep 30 (tick w)) code json); try done; [|lia..].
      by rewrite <- retried_cons.
Qed.

(** In [xrp_track.py] only a reply 504 uses up the retry budget: after any
    sequence of replies 429 and 504 that holds fewer than [retries] replies
    504, a good reply is returned, and the client has slept 60 s after each
    429 and 30 s after each 504. With [retries <= 0] it raises without a
    request. *)
Theorem xrp_get_transactions_budget :
  (∀ server codes fuel account mark limit retries w code json,
     Forall (fun c => c = 429 ∨ c = 504) codes →
     (∀ i c, codes !! i = Some c →
        ∃ j, server (clock w + i)%nat account (Xrp.params_marker mark) limit
             = Http c j) →
     server (clock w + length codes)%nat account (Xrp.params_marker mark) limit
     = Http code json →
     raises_for_status code = false → code ≠ 429 →
     Z.of_nat (length (List.filter (Z.eqb 504) codes)) < retries →
     (length codes < fuel)%nat →
     Xrp.get_transactions server fuel account mark limit retries w
     = (Ret json, tick (retried codes w)))
  ∧ (∀ server fuel account mark limit retries w,
       retries ≤ 0 →
       Xrp.get_transactions server (S fuel) account mark limit retries w
       = (Exc MaxRetriesExceeded, w)).
Proof.
  split.
  - intros server codes fuel account mark limit retries w code json
      Hall Hrep Hgood Hr H429 Hbudget Hfuel.
    apply (xrp_get_loop_budget server codes fuel account mark limit retries 0
             w code json); done.
  - intros server fuel account mark limit retries w Hr.
    unfold Xrp.get_transactions. simpl.
    by assert ((0 <? retries) = false) as -> by (apply Z.ltb_ge; lia).
Qed.

Lemma xrp_get_transactions_budget_witness :
  Xrp.get_transactions (xrp_scripted [429; 504; 429; 504] XrpFixture.scenario)
    10 "A" None 200 5 net0
  = (Ret {| Xrp.transactions :=
              [XrpFixture.tx "A" "B" 5000000 10; XrpFixture.tx "A" "C" 3000000 10];
            Xrp.marker := None |},
     tick (retried [429; 504; 429; 504] net0))
  ∧ Xrp.get_transactions (xrp_scripted [] XrpFixture.scenario) 1 "A" None 200 0
      net0
    = (Exc MaxRetriesExceeded, net0).
Proof.
  split.
  - apply (proj1 xrp_get_transactions_budget _ [429; 504; 429; 504] _ _ _ _ _ _
             200).
    + repeat (apply List.Forall_cons; [lia|]). apply List.Forall_nil.
    + intros i c Hi. exists XrpFixture.empty_page.
      unfold xrp_scripted. simpl. by rewrite Hi.
    + reflexivity.
    + reflexivity.
    + lia.
    + simpl. lia.
    + simpl. lia.
  - apply (proj2 xrp_get_transactions_budget). lia.
Defined.

(** Neither client ever gives up on a rate limit: against a server that
    answers every request with status 429, [get_transactions] has, after any
    number of steps, made that many requests and slept 60 s after each, and
    has neither returned nor raised; in [xrp_track.py] the retry cap does
    not apply to it. *)
Theorem get_transactions_rate_limit_unbounded :
  (∀ server fuel account page w,
     (∀ clock, ∃ j, server clock account page = Http 429 j) →
     Eth.get_transactions server fuel account page w
     = (OutOfFuel, slept 60 fuel w))
  ∧ (∀ server fuel account mark limit retries w,
       0 < retries →
       (∀ clock, ∃ j, server clock account (Xrp.params_marker mark) limit
                      = Http 429 j) →
       Xrp.get_transactions server fuel account mark limit retries w
       = (OutOfFuel, slept 60 fuel w)).
Proof.
  split.
  - intros server fuel account page w H429. revert w.
    induction fuel as [|fuel IH]; intros w; simpl; [by rewrite slept_0|].
    destruct (H429 (clock w)) as [j ->]. simpl. by rewrite IH, slept_S.
  - intros server fuel account mark limit retries w Hr H429.
    unfold Xrp.get_transactions. revert w.
    induction fuel as [|fuel IH]; intros w; simpl; [by rewrite slept_0|].
    assert ((0 <? retries) = true) as -> by (apply Z.ltb_lt; lia).
    destruct (H429 (clock w)) as [j ->]. simpl. by rewrite IH, slept_S.
Qed.

Lemma get_transactions_rate_limit_unbounded_witness :
  Eth.get_transactions
    (fun _ _ _ => Http 429 {| Eth.status := "0"; Eth.result := [] |})
    7 "A" 1 net0
  = (OutOfFuel, slept 60 7 net0)
  ∧ Xrp.get_transactions (fun _ _ _ _ => Http 429 XrpFixture.empty_page)
      7 "A" None 200 5 net0
    = (OutOfFuel, slept 60 7 net0).
Proof.
  split.
  - apply (proj1 get_transactions_rate_limit_unbounded). intros clk. by eexists.
  - apply (proj2 get_transactions_rate_limit_unbounded); [lia|].
    intros clk. by eexists.
Defined.

Lemma eth_get_failure_free server fuel account page w json :
  server (clock w) account page = Http 200 json →
  Eth.get_transactions server (S fuel) account page w = (Ret json, tick w).
Proof. intros Hs. simpl. by rewrite Hs. Qed.

Lemma xrp_get_failure_free server fuel account mark limit retries w json :
  0 < retries →
  server (clock w) account (Xrp.params_marker mark) limit = Http 200 json →
  Xrp.get_transactions server (S fuel) account mark limit retries w
  = (Ret json, tick w).
Proof.
  intros Hr Hs. unfold Xrp.get_transactions. simpl.
  assert ((0 <? retries) = true) as -> by (apply Z.ltb_lt; lia).
  by rewrite Hs.
Qed.

(** ** Pagination *)

Lemma requested_tick n w : requested n (tick w) = requested (S n) w.
Proof. destruct w. unfold requested, tick. simpl. f_equal. lia. Qed.

Lemma requested_1 w : requested 1 w = tick w.
Proof. destruct w. unfold requested, tick. simpl. f_equal. lia. Qed.

Lemma eth_fetch_pages_book server book account s e :
  (∀ clock p, server clock account p = Http 200 (book p)) →
  ∀ n fuel page acc w,
    (∀ i, (i < n)%nat → eth_full (book (page + Z.of_nat i))) →
    (n < fuel)%nat →
    (Eth.status (book (page + Z.of_nat n)) = "0" →
     Eth.fetch_pages server fuel account s e page acc w
     = (Ret (acc ++ List.filter (Eth.accept s e) (eth_first_pages book page n)),
        requested (S n) w))
    ∧ (Eth.status (book (page + Z.of_nat n)) ≠ "0" →
       Z.of_nat (length (Eth.result (book (page + Z.of_nat n)))) < 10000 →
       Eth.fetch_pages server fuel account s e page acc w
       = (Ret (acc ++ List.filter (Eth.accept s e)
                        (eth_first_pages book page (S n))),
          requested (S n) w)).
Proof.
  intros Hsrv. induction n as [|n IH]; intros fuel page acc w Hfull Hfuel;
    (destruct fuel as [|fuel]; [lia|]); rewrite eth_fetch_pages_S;
    (rewrite (eth_get_failure_free server fuel account page w (book page))
       by apply Hsrv).
  - replace (page + Z.of_nat 0) with page by lia. split.
    + intros Hst. rewrite bool_decide_eq_true_2 by done.
      simpl. by rewrite app_nil_r, requested_1.
    + intros Hst Hshort. rewrite bool_decide_eq_false_2 by done. simpl.
      apply Z.ltb_lt in Hshort. rewrite Hshort.
      by rewrite !app_nil_r, requested_1.
  - destruct (Hfull O ltac:(lia)) as [Hst Hlen].
    replace (page + Z.of_nat 0) with page in Hst, Hlen by lia.
    rewrite bool_decide_eq_false_2 by done. simpl.
    assert ((Z.of_nat (length (Eth.result (book page))) <? 10000) = false)
      as -> by (apply Z.ltb_ge; lia).
    replace (page + Z.of_nat (S n)) with (page + 1 + Z.of_nat n) by lia.
    destruct (IH fuel (page + 1)
                (acc ++ List.filter (Eth.accept s e) (Eth.result (book page)))
                (tick w)) as [IH0 IH1]; [|lia|].
    { intros i Hi. replace (page + 1 + Z.of_nat i) with (page + Z.of_nat (S i))
        by lia. apply Hfull. lia. }
    split.
    + intros Hlast. rewrite (IH0 Hlast), requested_tick.
      f_equal. rewrite <- app_assoc. f_equal.
      change (eth_first_pages book page (S n))
        with (Eth.result (book page) ++ eth_first_pages book (page + 1) n).
      by rewrite List.filter_app.
    + intros Hlast Hshort. rewrite (IH1 Hlast Hshort), requested_tick.
      f_equal. rewrite <- app_assoc. f_equal.
      change (eth_first_pages book page (S (S n)))
        with (Eth.result (book page) ++ eth_first_pages book (page + 1) (S n)).
      by rewrite List.filter_app.
Qed.

(** Pagination in [eth_track.py]: against a server with fixed pages that
    answers with status 200, and when the timestamps of the records read
    are seconds that [datetime.utcfromtimestamp] converts,
    [fetch_all_transactions] requests the pages 1, 2, ... up to the first
    page that has status ["0"] or fewer than 10000 records, one request
    each, and returns the accepted records of the pages before it, in
    order, followed by those of that last page unless its status is ["0"],
    in which case its records are dropped unread. *)
Theorem eth_fetch_pagination :
  ∀ server book fuel account s e depth k w n,
    (∀ clock p, server clock account p = Http 200 (book p)) →
    (∀ i, (i < n)%nat → eth_full (book (1 + Z.of_nat i))) →
    (n < fuel)%nat →
    (Eth.status (book (1 + Z.of_nat n)) = "0" →
     forallb eth_converts (eth_first_pages book 1 n) = true →
     Eth.fetch_all_transactions server fuel account s e depth k w
     = (Ret (List.filter (Eth.accept s e) (eth_first_pages book 1 n)),
        requested (S n) w))
    ∧ (Eth.status (book (1 + Z.of_nat n)) ≠ "0" →
       Z.of_nat (length (Eth.result (book (1 + Z.of_nat n)))) < 10000 →
       forallb eth_converts (eth_first_pages book 1 (S n)) = true →
       Eth.fetch_all_transactions server fuel account s e depth k w
       = (Ret (List.filter (Eth.accept s e) (eth_first_pages book 1 (S n))),
          requested (S n) w)).
Proof.
  intros server book fuel account s e depth k w n Hsrv Hfull Hfuel.
  unfold Eth.fetch_all_transactions.
  destruct (eth_fetch_pages_book server book account s e Hsrv n fuel 1 [] w
              Hfull Hfuel) as [Hzero Hshort].
  split; [intros Hst _; by apply Hzero | intros Hst Hlen _; by apply Hshort].
Qed.

Lemma eth_fetch_pagination_witness :
  Eth.fetch_all_transactions (fun _ _ p => Http 200 (eth_two_pages p)) 5 "A"
    0 100 0 2 net0
  = (Ret (List.filter (Eth.accept 0 100) (eth_first_pages eth_two_pages 1 2)),
     requested 2 net0).
Proof.
  refine (proj2 (eth_fetch_pagination (fun _ _ p => Http 200 (eth_two_pages p))
            eth_two_pages 5%nat "A" 0 100 0 2 net0 1%nat _ _ _) _ _ _).
  - done.
  - intros i Hi. assert (i = O) as -> by lia. split; by vm_compute.
  - lia.
  - done.
  - simpl. lia.
  - by vm_compute.
Defined.

Lemma xrp_fetch_pages_book server book account s e depth k :
  (∀ clock mark, server clock account mark 200 = Http 200 (book mark)) →
  depth < k →
  ∀ marks fuel mark acc w,
    xrp_chain book mark marks →
    (length marks < fuel)%nat →
    Xrp.fetch_pages server fuel account s e depth k 200 mark acc w
    = (Ret (acc ++ List.filter (Xrp.accept s e) (xrp_chain_txns book mark marks)),
       requested (S (length marks)) w).
Proof.
  intros Hsrv Hdepth.
  induction marks as [|m marks IH]; intros fuel mark acc w Hchain Hfuel;
    (destruct fuel as [|fuel]; [simpl in Hfuel; lia|]);
    rewrite xrp_fetch_pages_S;
    (rewrite (xrp_get_failure_free server fuel account mark 200 5 w
                (book (Xrp.params_marker mark))) by (done || apply Hsrv)).
  - simpl in Hchain. simpl. rewrite Hchain.
    by rewrite app_nil_r, requested_1.
  - destruct Hchain as [Hm Hchain]. simpl. rewrite Hm.
    apply Z.ltb_lt in Hdepth. rewrite Hdepth.
    rewrite IH by (done || simpl in Hfuel; lia).
    rewrite requested_tick. f_equal. rewrite <- app_assoc. f_equal.
    by rewrite List.filter_app.
Qed.

(** Pagination in [xrp_track.py]: against a server with fixed pages that
    answers with status 200, a fetch at a depth below [max_depth] follows
    the markers to the first page without one and returns the in-window
    records of all these pages, in order, one request per page; a fetch at
    [max_depth] or deeper makes one request and returns the in-window
    records of the first page only, whatever marker that page carries. *)
Theorem xrp_fetch_pagination :
  ∀ server book fuel account s e depth k w,
    (∀ clock mark, server clock account mark 200 = Http 200 (book mark)) →
    (depth < k → ∀ marks,
       xrp_chain book None marks → (length marks < fuel)%nat →
       Xrp.fetch_all_transactions server fuel account s e depth k w
       = (Ret (List.filter (Xrp.accept s e) (xrp_chain_txns book None marks)),
          requested (S (length marks)) w))
    ∧ (k ≤ depth → (0 < fuel)%nat →
       Xrp.fetch_all_transactions server fuel account s e depth k w
       = (Ret (List.filter (Xrp.accept s e) (Xrp.transactions (book None))),
          tick w)).
Proof.
  intros server book fuel account s e depth k w Hsrv. split.
  - intros Hdepth marks Hchain Hfuel. unfold Xrp.fetch_all_transactions.
    by rewrite (xrp_fetch_pages_book server book account s e depth k Hsrv Hdepth
                  marks fuel None [] w).
  - intros Hdepth Hfuel. unfold Xrp.fetch_all_transactions.
    destruct fuel as [|fuel]; [lia|]. rewrite xrp_fetch_pages_S.
    rewrite (xrp_get_failure_free server fuel account None 200 5 w (book None))
      by (done || apply Hsrv).
    simpl. destruct (Xrp.marker (book None)); [|done].
    by assert ((depth <? k) = false) as -> by (apply Z.ltb_ge; lia).
Qed.

Lemma xrp_fetch_pagination_witness :
  Xrp.fetch_all_transactions (fun _ _ mark _ => Http 200 (xrp_two_pages mark))
    5 "A" 0 100 0 2 net0
  = (Ret [XrpFixture.tx "A" "B" 1 10; XrpFixture.tx "A" "C" 2 10],
     requested 2 net0)
  ∧ Xrp.fetch_all_transactions (fun _ _ mark _ => Http 200 (xrp_two_pages mark))
      5 "A" 0 100 2 2 net0
    = (Ret [XrpFixture.tx "A" "B" 1 10], tick net0).
Proof.
  destruct (xrp_fetch_pagination (fun _ _ mark _ => Http 200 (xrp_two_pages mark))
              xrp_two_pages 5%nat "A" 0 100 0 2 net0 ltac:(done)) as [Hdeep _].
  destruct (xrp_fetch_pagination (fun _ _ mark _ => Http 200 (xrp_two_pages mark))
              xrp_two_pages 5%nat "A" 0 100 2 2 net0 ltac:(done)) as [_ Hcut].
  split.
  - apply (Hdeep ltac:(lia) ["m1"]); [|simpl; lia]. by split.
  - apply Hcut; lia.
Defined.

(** ** More on the tracer *)

Section TraceMore.
Context {txn : Type}.
Variable fetch : string → Z → Z → net → res (list txn) * net.
Variable follow : txn → option string.
Variable max_depth : Z.

(** A call never changes the level of the account it is called on. *)
Lemma trace_transactions_own_level fuel a d st :
  Dict.get
    (node_levels (snd (Tracer.trace_transactions fetch follow fuel a d max_depth st)))
    a
  = Dict.get (node_levels st) a.
Proof.
  apply (trace_ind_inv fetch follow max_depth
    (fun a _ st o => Dict.get (node_levels (snd o)) a = Dict.get (node_levels st) a)
    (fun _ _ _ _ _ _ => True)); clear fuel a d st; simpl; try done.
  intros a d st txs w o Hd Ha Hf Hinv _.
  erewrite trace_inv_traced_level; [|exact Hinv|]; [done|].
  simpl. set_solver.
Qed.

(** After a call that did not run out of fuel, the account is in [traced]
    unless it was too deep. *)
Lemma trace_transactions_traced_after fuel a d st :
  d ≤ max_depth →
  fst (Tracer.trace_transactions fetch follow fuel a d max_depth st) ≠ OutOfFuel →
  a ∈ traced (snd (Tracer.trace_transactions fetch follow fuel a d max_depth st)).
Proof.
  apply (trace_ind_inv fetch follow max_depth
    (fun a d st o => d ≤ max_depth → fst o ≠ OutOfFuel → a ∈ traced (snd o))
    (fun _ _ _ _ _ _ => True)); clear fuel a d st; simpl; try done.
  - intros a d st Hg Hd _. apply orb_true_iff in Hg as [Hg|Hg].
    + apply Z.gtb_lt in Hg. lia.
    + by apply bool_decide_eq_true in Hg.
  - intros a d st e w _ _ _ _ _. set_solver.
  - intros a d st txs w o _ _ _ Hinv _ _ _.
    eapply trace_inv_traced; [exact Hinv|]. simpl. set_solver.
Qed.

(** No returned transaction leads to an account that was in [traced] at
    the start, nor to the account of the call. *)
Lemma trace_transactions_destinations fuel a d st txns st' :
  Tracer.trace_transactions fetch follow fuel a d max_depth st = (Ret txns, st') →
  ∀ t, t ∈ txns → ∃ b, follow t = Some b ∧ (b ∉ traced st) ∧ b ≠ a.
Proof.
  revert txns st'.
  apply (trace_ind_inv fetch follow max_depth
    (fun a _ st o => ∀ txns st', o = (Ret txns, st') →
       ∀ t, t ∈ txns → ∃ b, follow t = Some b ∧ (b ∉ traced st) ∧ b ≠ a)
    (fun a _ _ acc st o => a ∈ traced st → ∀ out st', o = (Ret out, st') →
       ∀ t, t ∈ out → t ∈ acc ∨ ∃ b, follow t = Some b ∧ b ∉ traced st));
    clear fuel a d st; try (intros; discriminate).
  - intros a d st _ txns st' [= <- <-] t Ht. by apply elem_of_nil in Ht.
  - intros a d st txs w o Hd Ha Hf Hinv HPL txns st' -> t Ht.
    destruct (HPL ltac:(simpl; set_solver) txns st' eq_refl t Ht)
      as [Hnil|(b & Hb & Hnot)]; [by apply elem_of_nil in Hnil|].
    exists b. simpl in Hnot. split; [done|]. set_solver.
  - intros a d acc st _ out st' [= <- <-] t Ht. by left.
  - intros a d t rest acc st o Hf HPL Ha out st' -> t' Ht'. by eapply HPL.
  - intros a d t rest acc st o b Hf Hb HPL Ha out st' -> t' Ht'. by eapply HPL.
  - intros a d t rest acc st o b sub st2 Hf Hb Hinv1 Hinv2 HP HPL Ha
      out st' -> t' Ht'.
    destruct (HPL (trace_inv_traced _ _ _ Hinv1 Ha) out st' eq_refl t' Ht')
      as [Hin|(b' & Hb' & Hnot)].
    + apply elem_of_app in Hin as [Hacc|Hin]; [by left|right].
      apply elem_of_cons in Hin as [->|Hsub]; [by exists b|].
      destruct (HP sub st2 eq_refl t' Hsub) as (b' & Hb' & Hnot & _).
      by exists b'.
    + right. exists b'. split; [done|].
      intros Hin. apply Hnot. by eapply trace_inv_traced.
Qed.
End TraceMore.

(** The tracer never changes the level of the account it is called on: the
    level 0 that the caller gave the origin stays, also when transactions
    lead back to the origin. *)
Theorem trace_keeps_own_level :
  (∀ server fuel account s e depth k st,
     Dict.get
       (node_levels (snd (Eth.trace_transactions server fuel account s e depth k st)))
       account
     = Dict.get (node_levels st) account)
  ∧ (∀ server fuel account s e depth k st,
       Dict.get
         (node_levels (snd (Xrp.trace_transactions server fuel account s e depth k st)))
         account
       = Dict.get (node_levels st) account).
Proof.
  split; intros server fuel account s e depth k st;
    apply trace_transactions_own_level.
Qed.

(** A trace that has ended leaves [traced] such that tracing the same
    account again, in any time window, fetches nothing, returns the empty
    list and changes no state. *)
Theorem trace_again_returns_nothing :
  (∀ server fuel fuel' account s e s' e' depth k st,
     fst (Eth.trace_transactions server fuel account s e depth k st) ≠ OutOfFuel →
     Eth.trace_transactions server (S fuel') account s' e' depth k
       (snd (Eth.trace_transactions server fuel account s e depth k st))
     = (Ret [], snd (Eth.trace_transactions server fuel account s e depth k st)))
  ∧ (∀ server fuel fuel' account s e s' e' depth k st,
       fst (Xrp.trace_transactions server fuel account s e depth k st) ≠ OutOfFuel →
       Xrp.trace_transactions server (S fuel') account s' e' depth k
         (snd (Xrp.trace_transactions server fuel account s e depth k st))
       = (Ret [], snd (Xrp.trace_transactions server fuel account s e depth k st))).
Proof.
  split; intros server fuel fuel' account s e s' e' depth k st Hend.
  - unfold Eth.trace_transactions at 1. simpl.
    destruct (depth >? k) eqn:Hd; [done|]. simpl.
    rewrite bool_decide_eq_true_2; [done|].
    apply trace_transactions_traced_after; [|done].
    rewrite Z.gtb_ltb in Hd. apply Z.ltb_ge in Hd. done.
  - unfold Xrp.trace_transactions at 1. simpl.
    destruct (depth >? k) eqn:Hd; [done|]. simpl.
    rewrite bool_decide_eq_true_2; [done|].
    apply trace_transactions_traced_after; [|done].
    rewrite Z.gtb_ltb in Hd. apply Z.ltb_ge in Hd. done.
Qed.

Lemma trace_again_returns_nothing_witness :
  Eth.trace_transactions (EthFixture.ledger EthFixture.scenario) 1 "A" 50 60 0 1
    (snd EthFixture.run_scenario)
  = (Ret [], snd EthFixture.run_scenario)
  ∧ Xrp.trace_transactions (XrpFixture.ledger XrpFixture.scenario) 1 "A" 50 60 0 1
      (snd XrpFixture.run_scenario)
    = (Ret [], snd XrpFixture.run_scenario).
Proof.
  split.
  - apply (proj1 trace_again_returns_nothing
             (EthFixture.ledger EthFixture.scenario) 10%nat 0%nat "A" 0 100 50 60
             0 1 (init_state "A")).
    by vm_compute.
  - apply (proj2 trace_again_returns_nothing
             (XrpFixture.ledger XrpFixture.scenario) 10%nat 0%nat "A" 0 100 50 60
             0 1 (init_state "A")).
    by vm_compute.
Defined.

(** The tracer keeps no transaction into an account that was already in
    [traced] when the trace began, and none into the traced account itself:
    a transfer back to the origin never becomes an edge. *)
Theorem trace_drops_edges_into_traced :
  (∀ server fuel account s e depth k st txns st',
     Eth.trace_transactions server fuel account s e depth k st = (Ret txns, st') →
     ∀ t, t ∈ txns → (Eth.tx_to t ∉ traced st) ∧ Eth.tx_to t ≠ account)
  ∧ (∀ server fuel account s e depth k st txns st',
       Xrp.trace_transactions server fuel account s e depth k st = (Ret txns, st') →
       ∀ t, t ∈ txns →
         ∃ d, Xrp.Destination t = Some d ∧ (d ∉ traced st) ∧ d ≠ account).
Proof.
  split; intros server fuel account s e depth k st txns st' Hrun t Ht.
  - unfold Eth.trace_transactions in Hrun.
    destruct (trace_transactions_destinations _ _ _ _ _ _ _ _ _ Hrun t Ht)
      as (b & Hf & Hnot & Hne).
    by apply eth_follow_Some in Hf as [-> _].
  - unfold Xrp.trace_transactions in Hrun.
    destruct (trace_transactions_destinations _ _ _ _ _ _ _ _ _ Hrun t Ht)
      as (b & Hf & Hnot & Hne).
    apply xrp_follow_Some in Hf as [Hd _]. by exists b.
Qed.

Lemma trace_drops_edges_into_traced_witness :
  (∀ t, t ∈ [EthFixture.tx "A" "B" 5 10] →
        (Eth.tx_to t ∉ traced (init_state "A")) ∧ Eth.tx_to t ≠ "A")
  ∧ (∀ t, t ∈ [XrpFixture.tx "A" "B" 5 10] →
          ∃ d, Xrp.Destination t = Some d ∧ (d ∉ traced (init_state "A"))
               ∧ d ≠ "A").
Proof.
  split.
  - refine (proj1 trace_drops_edges_into_traced (EthFixture.ledger eth_cycle)
              10%nat "A" 0 100 0 2 (init_state "A") _
              (snd (Eth.trace_transactions (EthFixture.ledger eth_cycle) 10 "A"
                      0 100 0 2 (init_state "A"))) _).
    by vm_compute.
  - refine (proj2 trace_drops_edges_into_traced (XrpFixture.ledger xrp_cycle)
              10%nat "A" 0 100 0 2 (init_state "A") _
              (snd (Xrp.trace_transactions (XrpFixture.ledger xrp_cycle) 10 "A"
                      0 100 0 2 (init_state "A"))) _).
    by vm_compute.
Defined.

(** ** Termination of the trace *)

Lemma eth_fetch_prompt server fuel account s e d m w :
  eth_prompt server →
  fst (Eth.fetch_all_transactions server (S fuel) account s e d m w) ≠ OutOfFuel.
Proof.
  intros Hp. unfold Eth.fetch_all_transactions. rewrite eth_fetch_pages_S.
  simpl Eth.get_transactions. specialize (Hp (clock w) account 1).
  destruct (server (clock w) account 1) as [code json|]; [|done].
  destruct Hp as [H429 Hshort]. apply Z.eqb_neq in H429. rewrite H429.
  destruct (raises_for_status code); [done|].
  case_bool_decide; [done|]. simpl.
  apply Z.ltb_lt in Hshort. by rewrite Hshort.
Qed.

Lemma xrp_fetch_prompt server fuel account s e d m w :
  xrp_prompt server →
  fst (Xrp.fetch_all_transactions server (S fuel) account s e d m w) ≠ OutOfFuel.
Proof.
  intros Hp. unfold Xrp.fetch_all_transactions. rewrite xrp_fetch_pages_S.
  unfold Xrp.get_transactions. simpl Xrp.get_loop.
  change (Xrp.params_marker None) with (@None string).
  specialize (Hp (clock w) account None 200).
  destruct (server (clock w) account None 200) as [code json|]; [|done].
  destruct Hp as (H429 & H504 & Hm).
  apply Z.eqb_neq in H429, H504. rewrite H429, H504.
  destruct (raises_for_status code); [done|]. simpl. by rewrite Hm.
Qed.

(** The recursion is bounded by the depth: against a server that answers
    at once, a trace entered at [depth] ends, with a list or an exception,
    within [max_depth + 2 - depth] nested calls. *)
Theorem trace_terminates :
  (∀ server fuel account s e depth k st,
     eth_prompt server →
     (Z.to_nat (k + 1 - depth) < fuel)%nat →
     fst (Eth.trace_transactions server fuel account s e depth k st) ≠ OutOfFuel)
  ∧ (∀ server fuel account s e depth k st,
       xrp_prompt server →
       (Z.to_nat (k + 1 - depth) < fuel)%nat →
       fst (Xrp.trace_transactions server fuel account s e depth k st) ≠ OutOfFuel).
Proof.
  split; intros server fuel account s e depth k st Hp Hfuel;
    (destruct fuel as [|fuel]; [lia|]).
  - apply trace_transactions_fuel; [|done].
    intros a d w. by apply eth_fetch_prompt.
  - apply trace_transactions_fuel; [|done].
    intros a d w. by apply xrp_fetch_prompt.
Qed.

Lemma eth_ledger_prompt history :
  Z.of_nat (length history) < 10000 → eth_prompt (EthFixture.ledger history).
Proof.
  intros Hlen clk account page. unfold EthFixture.ledger.
  pose proof (List.filter_length_le
    (fun t => bool_decide (Eth.tx_from t = account)
              || bool_decide (Eth.tx_to t = account)) history) as Hle.
  destruct (List.filter _ history) as [|t0 l]; [by split|].
  split; [done|]. destruct (page =? 1); [|done].
  change (Eth.result {| Eth.status := "1"; Eth.result := t0 :: l |})
    with (t0 :: l). lia.
Qed.

Lemma xrp_ledger_prompt history : xrp_prompt (XrpFixture.ledger history).
Proof. intros clk account mark limit. simpl. done. Qed.

Lemma trace_terminates_witness :
  fst (Eth.trace_transactions (EthFixture.ledger EthFixture.scenario) 3 "A"
         0 100 0 1 (init_state "A")) ≠ OutOfFuel
  ∧ fst (Xrp.trace_transactions (XrpFixture.ledger XrpFixture.scenario) 3 "A"
           0 100 0 1 (init_state "A")) ≠ OutOfFuel.
Proof.
  split.
  - apply (proj1 trace_terminates); [|lia].
    apply eth_ledger_prompt. by vm_compute.
  - apply (proj2 trace_terminates); [|lia]. apply xrp_ledger_prompt.
Defined.

(** ** More on the graph builder *)

Section BuilderMore.
Context {txn : Type}.
Variable edge_of : txn → option (string * string * Q).
Implicit Types (levels lv : list (string * Z)) (G : DiGraph).

(** The loop over a concatenation continues where the first part ended. *)
Lemma build_loop_app pre : ∀ post G levels,
  Builder.build_loop edge_of (pre ++ post) G levels
  = match Builder.build_loop edge_of pre G levels with
    | (Ret G1, lv1) => Builder.build_loop edge_of post G1 lv1
    | (Exc e, lv1) => (Exc e, lv1)
    | (OutOfFuel, lv1) => (OutOfFuel, lv1)
    end.
Proof.
  induction pre as [|t pre IH]; intros post G levels; [done|].
  change ((t :: pre) ++ post) with (t :: (pre ++ post)).
  destruct (edge_of t) as [[[s d] w]|] eqn:He.
  - rewrite !(build_loop_cons _ _ _ _ _ _ _ _ He).
    destruct (Dict.get (Builder.default_source s levels) s); [|done].
    destruct (Dict.get (Builder.default_source s levels) d); [|done].
    apply IH.
  - rewrite !(build_loop_skip _ _ _ _ _ He). apply IH.
Qed.

Lemma build_loop_edge_mono txns : ∀ G levels G' lv k,
  Builder.build_loop edge_of txns G levels = (Ret G', lv) →
  is_Some (Dict.get (edges G) k) → is_Some (Dict.get (edges G') k).
Proof.
  induction txns as [|t rest IH]; intros G levels G' lv k.
  - intros [= <- <-]. done.
  - destruct (edge_of t) as [[[s d] w]|] eqn:He.
    + rewrite (build_loop_cons _ _ _ _ _ _ _ _ He).
      destruct (Dict.get (Builder.default_source s levels) s) as [ls|]; [|done].
      destruct (Dict.get (Builder.default_source s levels) d) as [ld|]; [|done].
      intros Hb Hk. eapply IH; [done|].
      rewrite graph_step_edges. by apply dict_set_mono.
    + rewrite (build_loop_skip _ _ _ _ _ He). apply IH.
Qed.

Lemma build_loop_edge_present txns : ∀ G levels G' lv t s d w,
  Builder.build_loop edge_of txns G levels = (Ret G', lv) →
  t ∈ txns → edge_of t = Some (s, d, w) →
  is_Some (Dict.get (edges G') (s, d)).
Proof.
  induction txns as [|t0 rest IH]; intros G levels G' lv t s d w Hb Ht He.
  - by apply elem_of_nil in Ht.
  - apply elem_of_cons in Ht as [->|Ht].
    + rewrite (build_loop_cons _ _ _ _ _ _ _ _ He) in Hb.
      destruct (Dict.get (Builder.default_source s levels) s) as [ls|]; [|done].
      destruct (Dict.get (Builder.default_source s levels) d) as [ld|]; [|done].
      eapply build_loop_edge_mono; [exact Hb|].
      rewrite graph_step_edges, dict_get_set_eq. by eexists.
    + destruct (edge_of t0) as [[[s0 d0] w0]|] eqn:He0.
      * rewrite (build_loop_cons _ _ _ _ _ _ _ _ He0) in Hb.
        destruct (Dict.get (Builder.default_source s0 levels) s0) as [ls|];
          [|done].
        destruct (Dict.get (Builder.default_source s0 levels) d0) as [ld|];
          [|done].
        by eapply IH.
      * rewrite (build_loop_skip _ _ _ _ _ He0) in Hb. by eapply IH.
Qed.

Lemma build_loop_node_source txns : ∀ G levels G' lv n,
  Builder.build_loop edge_of txns G levels = (Ret G', lv) →
  is_Some (Dict.get (nodes G') n) →
  is_Some (Dict.get (nodes G) n)
  ∨ ∃ t s d w, t ∈ txns ∧ edge_of t = Some (s, d, w) ∧ (n = s ∨ n = d).
Proof.
  induction txns as [|t rest IH]; intros G levels G' lv n.
  - intros [= <- <-]. by left.
  - destruct (edge_of t) as [[[s d] w]|] eqn:He.
    + rewrite (build_loop_cons _ _ _ _ _ _ _ _ He).
      destruct (Dict.get (Builder.default_source s levels) s) as [ls|]; [|done].
      destruct (Dict.get (Builder.default_source s levels) d) as [ld|]; [|done].
      intros Hb Hn.
      destruct (IH _ _ _ _ _ Hb Hn) as [Hg|(t' & s' & d' & w' & Ht' & He' & Hor)].
      * rewrite graph_step_nodes in Hg. repeat case_decide; subst.
        -- right. exists t, s, n, w. split_and!; [by left|done|by right].
        -- right. exists t, n, d, w. split_and!; [by left|done|by left].
        -- by left.
      * right. exists t', s', d', w'. split_and!; [by right|done..].
    + rewrite (build_loop_skip _ _ _ _ _ He). intros Hb Hn.
      destruct (IH _ _ _ _ _ Hb Hn) as [Hg|(t' & s' & d' & w' & Ht' & He' & Hor)];
        [by left|].
      right. exists t', s', d', w'. split_and!; [by right|done..].
Qed.

(** The first transaction whose destination has no level raises
    [KeyError]; its source has been given its default level before. *)
Lemma build_graph_key_error pre t post levels G1 lv1 s d w :
  Builder.build_graph edge_of pre levels = (Ret G1, lv1) →
  edge_of t = Some (s, d, w) →
  Dict.get lv1 d = None → d ≠ s →
  Builder.build_graph edge_of (pre ++ t :: post) levels
  = (Exc (KeyError d), Builder.default_source s lv1).
Proof.
  unfold Builder.build_graph. intros Hpre He Hd Hne.
  rewrite build_loop_app, Hpre, (build_loop_cons _ _ _ _ _ _ _ _ He).
  destruct (default_source_source s lv1) as [ls ->].
  destruct (default_source_change s lv1 d) as [Heq|[_ H0]].
  - by rewrite Heq, Hd.
  - unfold Builder.default_source in H0.
    destruct (Dict.mem lv1 s); [congruence|].
    rewrite dict_get_set_ne in H0 by done. congruence.
Qed.
End BuilderMore.

(** [build_graph] raises [KeyError] at the first transaction whose
    destination has no entry in the level map (and is not its own source);
    the transactions after it are not processed, and the caller's level map
    is left with the entries written so far, the level 0 of that
    transaction's source included. *)
Theorem build_graph_missing_destination :
  (∀ pre t post levels G1 lv1,
     Eth.build_graph pre levels = (Ret G1, lv1) →
     Dict.get lv1 (Eth.tx_to t) = None → Eth.tx_to t ≠ Eth.tx_from t →
     Eth.build_graph (pre ++ t :: post) levels
     = (Exc (KeyError (Eth.tx_to t)),
        Builder.default_source (Eth.tx_from t) lv1))
  ∧ (∀ pre t post levels G1 lv1 d v,
       Xrp.build_graph pre levels = (Ret G1, lv1) →
       Xrp.Destination t = Some d → Xrp.Amount t = Some v →
       Dict.get lv1 d = None → d ≠ Xrp.Account t →
       Xrp.build_graph (pre ++ t :: post) levels
       = (Exc (KeyError d), Builder.default_source (Xrp.Account t) lv1)).
Proof.
  split.
  - intros pre t post levels G1 lv1 Hpre Hd Hne.
    by eapply (build_graph_key_error Eth.edge_of).
  - intros pre t post levels G1 lv1 d v Hpre Hd Hv Hnone Hne.
    eapply (build_graph_key_error Xrp.edge_of); [done| |done..].
    unfold Xrp.edge_of. by rewrite Hd, Hv.
Qed.

Lemma build_graph_missing_destination_witness :
  Eth.build_graph [EthFixture.tx "S" "B" 5 10; EthFixture.tx "B" "C" 1 10] []
  = (Exc (KeyError "B"), [("S", 0)])
  ∧ Xrp.build_graph [XrpFixture.tx "S" "B" 5 10; XrpFixture.tx "B" "C" 1 10] []
    = (Exc (KeyError "B"), [("S", 0)]).
Proof.
  split.
  - by apply (proj1 build_graph_missing_destination []
                (EthFixture.tx "S" "B" 5 10) [EthFixture.tx "B" "C" 1 10] []
                empty_graph []).
  - by apply (proj2 build_graph_missing_destination []
                (XrpFixture.tx "S" "B" 5 10) [XrpFixture.tx "B" "C" 1 10] []
                empty_graph [] "B" 5).
Defined.

(** The graph that [build_graph] returns has an edge from [s] to [d]
    exactly when a transaction of the list goes from [s] to [d], and its
    nodes are exactly the sources and destinations of the transactions (in
    [xrp_track.py], of those that have [Destination] and [Amount]). *)
Theorem build_graph_edges_and_nodes :
  (∀ txns levels G lv,
     Eth.build_graph txns levels = (Ret G, lv) →
     (∀ s d, is_Some (Dict.get (edges G) (s, d))
             ↔ ∃ t, t ∈ txns ∧ Eth.tx_from t = s ∧ Eth.tx_to t = d)
     ∧ (∀ n, n ∈ Dict.keys (nodes G)
             ↔ ∃ t, t ∈ txns ∧ (Eth.tx_from t = n ∨ Eth.tx_to t = n)))
  ∧ (∀ txns levels G lv,
       Xrp.build_graph txns levels = (Ret G, lv) →
       (∀ s d, is_Some (Dict.get (edges G) (s, d))
               ↔ ∃ t, t ∈ txns ∧ Xrp.Account t = s ∧ Xrp.Destination t = Some d
                      ∧ is_Some (Xrp.Amount t))
       ∧ (∀ n, n ∈ Dict.keys (nodes G)
               ↔ ∃ t d, t ∈ txns ∧ Xrp.Destination t = Some d
                        ∧ is_Some (Xrp.Amount t)
                        ∧ (Xrp.Account t = n ∨ d = n))).
Proof.
  split; intros txns levels G lv Hb; split.
  - intros s d. split.
    + intros [w Hw].
      destruct (eth_graph_edge _ _ _ _ _ _ _ Hb Hw) as (t & Ht & Hf & Hto & _).
      by exists t.
    + intros (t & Ht & <- & <-).
      by eapply (build_loop_edge_present Eth.edge_of).
  - intros n. rewrite <- dict_get_keys. split.
    + intros Hn.
      destruct (build_loop_node_source Eth.edge_of _ _ _ _ _ _ Hb Hn)
        as [[x Hx]|(t & s & d & w & Ht & [= <- <- _] & Hor)]; [done|].
      exists t. split; [done|]. destruct Hor; auto.
    + intros (t & Ht & Hor).
      destruct (build_loop_endpoints Eth.edge_of _ _ _ _ _ _ _ _ _ Hb Ht eq_refl)
        as [[l1 H1] [l2 H2]].
      destruct Hor as [<-|<-]; by eexists.
  - intros s d. split.
    + intros [w Hw].
      destruct (xrp_graph_edge _ _ _ _ _ _ _ Hb Hw)
        as (t & Ht & Ha & Hd & v & Hv & _).
      exists t. split_and!; [done..|by eexists].
    + intros (t & Ht & <- & Hd & [v Hv]).
      eapply (build_loop_edge_present Xrp.edge_of); [exact Hb|exact Ht|].
      unfold Xrp.edge_of. by rewrite Hd, Hv.
  - intros n. rewrite <- dict_get_keys. split.
    + intros Hn.
      destruct (build_loop_node_source Xrp.edge_of _ _ _ _ _ _ Hb Hn)
        as [[x Hx]|(t & s & d & w & Ht & He & Hor)]; [done|].
      apply xrp_edge_of_Some in He as (Ha & Hd & v & Hv & _).
      exists t, d. split_and!; [done..|by eexists|].
      destruct Hor; subst; auto.
    + intros (t & d & Ht & Hd & [v Hv] & Hor).
      assert (Xrp.edge_of t = Some (Xrp.Account t, d, Xrp.amount v)) as He.
      { unfold Xrp.edge_of. by rewrite Hd, Hv. }
      destruct (build_loop_endpoints Xrp.edge_of _ _ _ _ _ _ _ _ _ Hb Ht He)
        as [[l1 H1] [l2 H2]].
      destruct Hor as [<-|<-]; by eexists.
Qed.

Lemma build_graph_edges_and_nodes_witness :
  (∀ s d, is_Some (Dict.get
                     (edges {| nodes := [("S", Some 0); ("B", Some 1)];
                               edges := [(("S", "B"),
                                          Eth.amount (EthFixture.tx "S" "B" 5 10))] |})
                     (s, d))
          ↔ ∃ t, t ∈ [EthFixture.tx "S" "B" 5 10]
                 ∧ Eth.tx_from t = s ∧ Eth.tx_to t = d)
  ∧ (∀ s d, is_Some (Dict.get
                       (edges {| nodes := [("S", Some 0); ("B", Some 1)];
                                 edges := [(("S", "B"), Xrp.amount 5)] |})
                       (s, d))
            ↔ ∃ t, t ∈ [XrpFixture.tx "S" "B" 5 10]
                   ∧ Xrp.Account t = s ∧ Xrp.Destination t = Some d
                   ∧ is_Some (Xrp.Amount t)).
Proof.
  split.
  - apply (proj1 (proj1 build_graph_edges_and_nodes
             [EthFixture.tx "S" "B" 5 10] [("A", 0); ("B", 1)] _
             [("A", 0); ("B", 1); ("S", 0)] ltac:(by vm_compute))).
  - apply (proj1 (proj2 build_graph_edges_and_nodes
             [XrpFixture.tx "S" "B" 5 10] [("A", 0); ("B", 1)] _
             [("A", 0); ("B", 1); ("S", 0)] ltac:(by vm_compute))).
Defined.

(** ** The layout of the other levels *)

Lemma insert_desc_perm key x l : Layout.insert_desc key x l ≡ₚ x :: l.
Proof.
  induction l as [|y l IH]; simpl; [done|].
  destruct (negb _); [|done]. rewrite IH. apply Permutation_swap.
Qed.

Lemma sort_desc_perm key l : Layout.sort_desc key l ≡ₚ l.
Proof.
  induction l as [|x l IH]; simpl; [done|].
  by rewrite insert_desc_perm, IH.
Qed.

Lemma insert_desc_sorted key x l :
  StronglySorted (ranked_before key) l →
  StronglySorted (ranked_before key) (Layout.insert_desc key x l).
Proof.
  induction 1 as [|y l Hs IH Hall]; simpl.
  - repeat constructor.
  - destruct (Qle_bool (key y) (key x)) eqn:Hle; simpl.
    + apply Qle_bool_iff in Hle. constructor; [by constructor|].
      constructor; [done|].
      eapply List.Forall_impl; [|exact Hall]. intros z Hz.
      unfold ranked_before in *. by eapply Qle_trans.
    + constructor; [done|].
      rewrite insert_desc_perm. constructor; [|done].
      unfold ranked_before. apply Qlt_le_weak, Qnot_le_lt.
      intros Hle'. apply Qle_bool_iff in Hle'. congruence.
Qed.

Lemma sort_desc_sorted key l :
  StronglySorted (ranked_before key) (Layout.sort_desc key l).
Proof.
  induction l as [|x l IH]; simpl; [constructor|].
  by apply insert_desc_sorted.
Qed.

Lemma sorted_lookup key l : StronglySorted (ranked_before key) l →
  ∀ i j a b, (i < j)%nat → l !! i = Some a → l !! j = Some b →
    ranked_before key a b.
Proof.
  induction 1 as [|y l Hs IH Hall]; intros i j a b Hij Hi Hj; [done|].
  destruct j as [|j]; [lia|]. simpl in Hj. destruct i as [|i].
  - injection Hi as <-. rewrite List.Forall_forall in Hall. apply Hall.
    apply list_elem_of_In. by eapply list_elem_of_lookup_2.
  - simpl in Hi. eapply (IH i j); [lia|done..].
Qed.

Lemma place_nodes_get lvl nodes n : ∀ i j pos,
  NoDup nodes → nodes !! i = Some n →
  Dict.get (Layout.place_nodes lvl j nodes pos) n
  = Some (lvl, - (j + Z.of_nat i)).
Proof.
  induction nodes as [|x nodes IH]; intros i j pos Hnd Hi; [done|].
  apply NoDup_cons in Hnd as [Hx Hnd]. simpl. destruct i as [|i].
  - injection Hi as ->. rewrite place_nodes_other by done.
    rewrite dict_get_set_eq. do 3 f_equal. lia.
  - simpl in Hi. rewrite (IH i) by done. do 3 f_equal. lia.
Qed.

Lemma level_members_NoDup levels lvl :
  NoDup (Dict.keys levels) → NoDup (level_members levels lvl).
Proof.
  unfold Dict.keys. induction levels as [|[n0 l0] levels IH]; simpl.
  - intros _. unfold level_members. simpl. apply NoDup_nil_2.
  - intros [Hn Hnd]%NoDup_cons. rewrite level_members_cons.
    case_decide; [|by apply IH]. apply NoDup_cons. split; [|by apply IH].
    intros Hin%level_members_elem. apply Hn.
    by apply (list_elem_of_fmap_2 fst) in Hin.
Qed.

(** The layout with the exact sums as keys is the layout of [Layout]. *)
Lemma visualize_graph_pos_by_in_weight G levels :
  visualize_graph_pos_by (Layout.in_weight G) levels
  = Layout.visualize_graph_pos G levels.
Proof. reflexivity. Qed.

Section LayoutBy.
Variable key : string → Q.
Variable n : string.

Lemma place_level_by_other pos lvl nodes :
  (lvl ≠ 0 → n ∉ nodes) → (lvl = 0 → head nodes ≠ Some n) →
  Dict.get (place_level_by key pos (lvl, nodes)) n = Dict.get pos n.
Proof.
  intros Hnz Hz. simpl. destruct (lvl =? 0) eqn:Hl.
  - apply Z.eqb_eq in Hl. specialize (Hz Hl).
    destruct nodes as [|n0 nodes]; [done|].
    apply dict_get_set_ne. intros ->. by apply Hz.
  - apply Z.eqb_neq in Hl. apply place_nodes_other.
    rewrite sort_desc_elem. by apply Hnz.
Qed.

Lemma place_fold_by_other groups : ∀ pos,
  elsewhere n groups →
  (∀ nodes, (0, nodes) ∈ groups → head nodes ≠ Some n) →
  Dict.get (fold_left (place_level_by key) groups pos) n = Dict.get pos n.
Proof.
  induction groups as [|[lvl nodes] groups IH]; intros pos He Hz; [done|].
  simpl fold_left. rewrite IH.
  - apply place_level_by_other.
    + intros Hl. eapply He; [by left|done].
    + intros ->. apply Hz. by left.
  - by eapply elsewhere_cons.
  - intros nodes' Hin. apply Hz. by right.
Qed.

(** The coordinate of a node of a level other than 0. *)
Lemma layout_other_level_by levels l :
  NoDup (Dict.keys levels) → Dict.get levels n = Some l → l ≠ 0 →
  ∃ i, Layout.sort_desc key (level_members levels l) !! i = Some n
       ∧ Dict.get
           (fold_left (place_level_by key) (Layout.level_nodes levels) []) n
         = Some (l, - Z.of_nat i).
Proof.
  intros Hnd Hn Hl.
  assert (n ∈ level_members levels l) as Hmem.
  { apply level_members_elem. by apply dict_get_In. }
  assert (n ∈ Layout.sort_desc key (level_members levels l))
    as Hsorted by (by apply sort_desc_elem).
  apply list_elem_of_lookup in Hsorted as [i Hi]. exists i. split; [done|].
  assert ((l, level_members levels l) ∈ Layout.level_nodes levels) as Hgroup.
  { apply dict_get_In. rewrite level_nodes_get.
    destruct (level_members levels l); [by apply elem_of_nil in Hmem|done]. }
  apply list_elem_of_split in Hgroup as (before & after & Hsplit).
  pose proof (level_nodes_NoDup levels) as Hkeys.
  rewrite Hsplit in Hkeys. unfold Dict.keys in Hkeys.
  rewrite map_app in Hkeys. simpl in Hkeys.
  apply NoDup_app in Hkeys as (_ & _ & [Hlafter _]%NoDup_cons).
  assert (∀ lvl nodes, (lvl, nodes) ∈ after →
            nodes = level_members levels lvl ∧ lvl ≠ l) as Hafter.
  { intros lvl nodes Hin. split.
    - apply (level_nodes_entry levels). rewrite Hsplit.
      apply elem_of_app. right. by right.
    - intros ->. apply Hlafter. by apply (list_elem_of_fmap_2 fst) in Hin. }
  rewrite Hsplit, fold_left_app. simpl fold_left.
  rewrite place_fold_by_other.
  - simpl. apply Z.eqb_neq in Hl. rewrite Hl.
    rewrite (place_nodes_get _ _ _ i); [done| |done].
    rewrite sort_desc_perm. by apply level_members_NoDup.
  - intros lvl nodes Hin Hz Hnin. destruct (Hafter _ _ Hin) as [-> Hne].
    apply level_members_elem, dict_In_get in Hnin; [|done]. congruence.
  - intros nodes Hin Hhead. destruct (Hafter _ _ Hin) as [-> _].
    assert (n ∈ level_members levels 0) as H0.
    { destruct (level_members levels 0); [done|]. injection Hhead as ->.
      by left. }
    apply level_members_elem, dict_In_get in H0; [|done]. congruence.
Qed.
End LayoutBy.

Lemma layout_other_level G levels n l :
  NoDup (Dict.keys levels) → Dict.get levels n = Some l → l ≠ 0 →
  ∃ i, Layout.sort_desc (Layout.in_weight G) (level_members levels l) !! i = Some n
       ∧ Dict.get
           (fold_left (Layout.place_level G) (Layout.level_nodes levels) []) n
         = Some (l, - Z.of_nat i).
Proof. exact (layout_other_level_by (Layout.in_weight G) n levels l). Qed.

(** The layout of the levels other than 0, for the sort key as the code
    computes it, whatever its values: a node of level [l] is placed at the
    horizontal coordinate [l] and at a vertical coordinate between 0 and
    minus the size of its level; of two nodes of one level, the one with
    the greater key is placed higher, and two different nodes never get
    the same coordinate. *)
Theorem layout_ranks_by_sort_key :
  ∀ key levels pos,
    NoDup (Dict.keys levels) →
    visualize_graph_pos_by key levels = Ret pos →
    (∀ n l, Dict.get levels n = Some l → l ≠ 0 →
       ∃ y, Dict.get pos n = Some (l, y)
            ∧ - Z.of_nat (length (level_members levels l)) < y ≤ 0)
    ∧ (∀ a b l pa pb,
         Dict.get levels a = Some l → Dict.get levels b = Some l → l ≠ 0 →
         Dict.get pos a = Some pa → Dict.get pos b = Some pb →
         ((key b < key a)%Q → snd pb < snd pa)
         ∧ (a ≠ b → pa ≠ pb)).
Proof.
  intros key levels pos Hnd Hpos. unfold visualize_graph_pos_by in Hpos.
  destruct levels as [|entry levels]; [done|]. injection Hpos as <-.
  split.
  - intros n l Hn Hl.
    destruct (layout_other_level_by key n _ l Hnd Hn Hl) as (i & Hi & Hp).
    exists (- Z.of_nat i). split; [done|].
    apply lookup_lt_Some in Hi.
    rewrite (Permutation_length (sort_desc_perm _ _)) in Hi. lia.
  - intros a b l pa pb Ha Hb Hl Hpa Hpb.
    destruct (layout_other_level_by key a _ l Hnd Ha Hl) as (i & Hi & Hp1).
    destruct (layout_other_level_by key b _ l Hnd Hb Hl) as (j & Hj & Hp2).
    rewrite Hp1 in Hpa. rewrite Hp2 in Hpb.
    injection Hpa as <-. injection Hpb as <-. simpl. split.
    + intros Hlt. cut (i < j)%nat; [lia|].
      destruct (lt_eq_lt_dec i j) as [[Hij| ->]|Hji]; [done| |].
      * rewrite Hi in Hj. injection Hj as ->. by apply Qlt_irrefl in Hlt.
      * pose proof (sorted_lookup _ _ (sort_desc_sorted _ _) j i b a Hji Hj Hi)
          as Hr. unfold ranked_before in Hr.
        by apply Qlt_not_le in Hlt.
    + intros Hne [= Hij]. apply Hne.
      assert (i = j) as -> by lia. congruence.
Qed.

(** Two accounts of level 1 whose keys are the floats 1.0, a sum in which
    four addends of 1e-16 are lost one by one, and 1.0000000000000002: the
    second is placed first, where the exact sums would put it last. *)
Lemma layout_ranks_by_sort_key_witness :
  snd (1, -1) < snd (1, 0) ∧ (1, 0) ≠ (1, -1).
Proof.
  assert (NoDup (Dict.keys [("A", 0); ("D1", 1); ("D2", 1)])) as Hnd.
  { apply (bool_decide_unpack _). by vm_compute. }
  destruct (layout_ranks_by_sort_key lost_addends
              [("A", 0); ("D1", 1); ("D2", 1)]
              [("A", (0, 0)); ("D2", (1, 0)); ("D1", (1, -1))] Hnd
              ltac:(by vm_compute)) as [_ Hrank].
  destruct (Hrank "D2" "D1" 1 (1, 0) (1, -1) eq_refl eq_refl ltac:(lia) eq_refl
              eq_refl) as [Hhigher Hdistinct].
  split; [apply Hhigher; by vm_compute | by apply Hdistinct].
Defined.

(** ** The main blocks *)

Section TraceSources.
Context {txn : Type}.
Variable fetch : string → Z → Z → net → res (list txn) * net.
Variable follow : txn → option string.
Variable max_depth : Z.
Local Abbreviation sourced := (sourced fetch follow max_depth).

Lemma sourced_mono st st' t : trace_inv st st' → sourced st t → sourced st' t.
Proof.
  intros Hinv (a & b & Hs & Hf & Hne & Hl). exists a, b.
  split_and!; [done..|]. by eapply trace_inv_keys.
Qed.

(** Every returned transaction was served to an account that has a level
    at the end, when the traced account had one at the start. *)
Lemma trace_transactions_sourced fuel a d st txns st' :
  is_Some (Dict.get (node_levels st) a) →
  Tracer.trace_transactions fetch follow fuel a d max_depth st = (Ret txns, st') →
  ∀ t, t ∈ txns → sourced st' t.
Proof.
  intros Hlevel Hrun. revert Hlevel txns st' Hrun.
  apply (trace_ind_inv fetch follow max_depth
    (fun a _ st o => is_Some (Dict.get (node_levels st) a) →
       ∀ txns st', o = (Ret txns, st') → ∀ t, t ∈ txns → sourced st' t)
    (fun a _ txs acc st o =>
       a ∈ traced st → is_Some (Dict.get (node_levels st) a) →
       (∀ t, t ∈ txs → served_to fetch max_depth a t) →
       ∀ out st', o = (Ret out, st') → ∀ t, t ∈ out → t ∈ acc ∨ sourced st' t));
    clear fuel a d st; try (intros; discriminate).
  - intros a d st _ _ txns st' [= <- <-] t Ht. by apply elem_of_nil in Ht.
  - intros a d st txs w o Hd Ha Hf Hinv HPL Hlevel txns st' -> t Ht.
    destruct (HPL ltac:(simpl; set_solver) Hlevel
                (fun t Ht => ex_intro _ d (ex_intro _ _ (ex_intro _ _
                   (ex_intro _ _ (conj Hf Ht))))) txns st' eq_refl t Ht)
      as [Hnil|Hs]; [by apply elem_of_nil in Hnil | done].
  - intros a d acc st _ _ _ out st' [= <- <-] t Ht. by left.
  - intros a d t rest acc st o Hf HPL Ha Hlevel Hs out st' -> t' Ht'.
    eapply HPL; [done|done| |done..]. intros t0 Ht0. apply Hs. by right.
  - intros a d t rest acc st o b Hf Hb HPL Ha Hlevel Hs out st' -> t' Ht'.
    eapply HPL; [done|done| |done..]. intros t0 Ht0. apply Hs. by right.
  - intros a d t rest acc st o b sub st2 Hf Hb Hinv1 Hinv2 HP HPL Ha Hlevel Hs
      out st' -> t' Ht'. simpl in Hinv2.
    assert (is_Some (Dict.get (node_levels st2) a)) as Hlevel2.
    { eapply trace_inv_keys; [exact Hinv1|]. simpl. by apply dict_set_mono. }
    destruct (HPL (trace_inv_traced _ _ _ Hinv1 Ha) Hlevel2
                (fun t0 Ht0 => Hs t0 (list_elem_of_further _ _ _ Ht0))
                out st' eq_refl t' Ht') as [Hin|Hk]; [|by right].
    apply elem_of_app in Hin as [Hacc|Hin]; [by left|right].
    apply elem_of_cons in Hin as [->|Hsub].
    + exists a, b. split_and!; [apply Hs; by left|done| |].
      * intros ->. done.
      * by eapply trace_inv_keys.
    + eapply sourced_mono; [exact Hinv2|]. eapply HP; [|done..].
      simpl. rewrite dict_get_set_eq. by eexists.
Qed.
End TraceSources.

Section BuilderNoDefault.
Context {txn : Type}.
Variable edge_of : txn → option (string * string * Q).

(** When every source has a level, the level map is not touched. *)
Lemma build_loop_no_default txns : ∀ G levels r lv,
  (∀ t s d w, t ∈ txns → edge_of t = Some (s, d, w) →
              is_Some (Dict.get levels s)) →
  Builder.build_loop edge_of txns G levels = (r, lv) → lv = levels.
Proof.
  induction txns as [|t rest IH]; intros G levels r lv Hsrc.
  - by intros [= <- <-].
  - destruct (edge_of t) as [[[s d] w]|] eqn:He.
    + rewrite (build_loop_cons _ _ _ _ _ _ _ _ He).
      assert (Builder.default_source s levels = levels) as ->.
      { unfold Builder.default_source.
        destruct (Dict.mem levels s) eqn:Hm; [done|].
        apply dict_mem_false in Hm.
        destruct (Hsrc t s d w ltac:(by left) He) as [x Hx]. congruence. }
      destruct (Dict.get levels s) as [ls|]; [|by intros [= <- <-]].
      destruct (Dict.get levels d) as [ld|]; [|by intros [= <- <-]].
      apply IH. intros t' s' d' w' Ht'. apply Hsrc. by right.
    + rewrite (build_loop_skip _ _ _ _ _ He). apply IH.
      intros t' s' d' w' Ht'. apply Hsrc. by right.
Qed.
End BuilderNoDefault.

Lemma init_state_level origin n :
  Dict.get (node_levels (init_state origin)) n
  = if decide (origin = n) then Some 0 else None.
Proof.
  change (node_levels (init_state origin)) with (Dict.set [] origin 0).
  by rewrite dict_get_set.
Qed.

Lemma main_levels {txn : Type}
    (fetch : string → Z → Z → net → res (list txn) * net)
    (follow : txn → option string) fuel origin k :
  let st' := snd (Tracer.trace_transactions fetch follow fuel origin 0 k
                    (init_state origin)) in
  NoDup (Dict.keys (node_levels st'))
  ∧ Dict.get (node_levels st') origin = Some 0
  ∧ ∀ n, Dict.get (node_levels st') n = Some 0 → n = origin.
Proof.
  intros st'. split_and!.
  - destruct (trace_transactions_inv fetch follow k fuel origin 0
                (init_state origin)) as (_ & _ & (asg & _ & Hl & _)).
    fold st' in Hl. rewrite Hl. apply replay_NoDup. simpl.
    apply NoDup_singleton.
  - unfold st'. rewrite trace_transactions_own_level, init_state_level.
    by rewrite decide_True.
  - intros n Hn.
    destruct (trace_transactions_levels fetch follow k (fun _ _ => True)
                ltac:(done) fuel origin 0 (init_state origin) n 0 Hn)
      as [Hinit|(m & _ & Hm & Hpos & _)]; [|lia].
    rewrite init_state_level in Hinit. by case_decide.
Qed.

Lemma layout_places_all G levels origin :
  NoDup (Dict.keys levels) →
  Dict.get levels origin = Some 0 →
  (∀ n, Dict.get levels n = Some 0 → n = origin) →
  ∃ pos, Layout.visualize_graph_pos G levels = Ret pos
         ∧ Dict.get pos origin = Some (0, 0)
         ∧ ∀ n, is_Some (Dict.get levels n) → is_Some (Dict.get pos n).
Proof.
  intros Hnd Horigin Honly. unfold Layout.visualize_graph_pos.
  destruct levels as [|entry levels]; [done|].
  eexists. split; [done|].
  assert (first_level0 (entry :: levels) = Some origin) as Hfirst.
  { destruct (first_level0_exists _ _ Horigin) as [n0 Hn0].
    rewrite Hn0. f_equal. apply Honly. by apply first_level0_level. }
  assert (Dict.get
            (fold_left (Layout.place_level G)
               (Layout.level_nodes (entry :: levels)) []) origin
          = Some (0, 0)) as Hpin.
  { rewrite layout_level0 by done. by rewrite decide_True. }
  split; [done|]. intros n [l Hl]. destruct (decide (l = 0)) as [->|Hne].
  - rewrite (Honly n Hl). by eexists.
  - destruct (layout_other_level G _ n l Hnd Hl Hne) as (i & _ & Hp).
    by eexists.
Qed.

Lemma remaining_nodes_nil G pos :
  (∀ n, n ∈ Dict.keys (nodes G) → is_Some (Dict.get pos n)) →
  Layout.remaining_nodes G pos = [].
Proof.
  intros Hall. unfold Layout.remaining_nodes.
  induction (Dict.keys (nodes G)) as [|n l IH]; simpl; [done|].
  destruct (Hall n ltac:(by left)) as [p Hp]. unfold Dict.mem at 1.
  rewrite Hp. simpl. apply IH. intros n' Hn'. apply Hall. by right.
Qed.

(** In the main block of [eth_track.py], against a server that serves an
    account only transactions it sent or received: when the block gets to
    the layout, [build_graph] has added no entry to the level map the
    tracer left; the origin is the only account of level 0 and is pinned at
    [(0, 0)]; every node of the graph has a coordinate, so that no node is
    left to the random placement. *)
Theorem eth_main_places_every_node :
  ∀ server history fuel origin s e k G lv pos,
    eth_serves server history →
    eth_main server fuel origin s e k = Ret (G, lv, pos) →
    lv = node_levels (snd (Eth.trace_transactions server fuel origin s e 0 k
                             (init_state origin)))
    ∧ Dict.get lv origin = Some 0
    ∧ (∀ n, Dict.get lv n = Some 0 → n = origin)
    ∧ Dict.get pos origin = Some (0, 0)
    ∧ (∀ n, n ∈ Dict.keys (nodes G) → is_Some (Dict.get pos n))
    ∧ Layout.remaining_nodes G pos = [].
Proof.
  intros server history fuel origin s e k G lv pos Hsrv Hmain.
  unfold eth_main in Hmain.
  destruct (Eth.trace_transactions server fuel origin s e 0 k (init_state origin))
    as [[txns|ex|] st'] eqn:Hrun; [|done..].
  destruct (Eth.build_graph txns (node_levels st')) as [[G1|ex|] lv1] eqn:Hb;
    [|done..].
  unfold after_layout in Hmain.
  destruct (Layout.visualize_graph_pos G1 lv1) as [pos1|ex|] eqn:Hpos; [|done..].
  injection Hmain as -> -> ->. simpl.
  pose proof (main_levels
    (fun a d m w => Eth.fetch_all_transactions server fuel a s e d m w)
    Eth.follow fuel origin k) as Hlv.
  unfold Eth.trace_transactions in Hrun. rewrite Hrun in Hlv. simpl in Hlv.
  destruct Hlv as (Hnd & Horigin & Honly).
  assert (lv = node_levels st') as ->.
  { eapply (build_loop_no_default Eth.edge_of); [|exact Hb].
    intros t src d w Ht [= <- _ _].
    destruct (trace_transactions_sourced _ _ _ _ _ _ _ _ _
                ltac:(rewrite init_state_level, decide_True; [by eexists|done])
                Hrun t Ht)
      as (a & b & Hserved & Hf & Hne & Hlevel).
    destruct Hserved as (d' & w' & txs & w'' & Hfetch & Hin).
    destruct (eth_fetch_all_accepted _ _ _ _ _ _ _ _ _ _ _ Hfetch Hin)
      as [_ (clk & page & code & json & Hs & Hin')].
    destruct (Hsrv _ _ _ _ _ _ Hs Hin') as [_ [Hfr|Hto]]; [by rewrite Hfr|].
    apply eth_follow_Some in Hf as [-> _]. done. }
  destruct (layout_places_all G (node_levels st') origin Hnd Horigin Honly)
    as (pos' & Hpos' & Hpin & Hall).
  rewrite Hpos in Hpos'. injection Hpos' as <-.
  assert (∀ n, n ∈ Dict.keys (nodes G) → is_Some (Dict.get pos n)) as Hnodes.
  { intros n Hn%dict_get_keys. apply Hall.
    eapply (build_loop_nodes Eth.edge_of); [exact Hb| |done].
    simpl. by intros n' [? ?]. }
  split_and!; try done. by apply remaining_nodes_nil.
Qed.

Lemma eth_main_places_every_node_witness :
  Dict.get [("A", (0, 0)); ("B", (1, 0)); ("C", (1, -1)); ("D", (2, 0))] "A"
  = Some (0, 0)
  ∧ Layout.remaining_nodes
      {| nodes := [("A", Some 0); ("B", Some 1); ("D", Some 2); ("C", Some 1)];
         edges := [(("A", "B"), Eth.amount (EthFixture.tx "A" "B" 5 10));
                   (("B", "D"), Eth.amount (EthFixture.tx "B" "D" 1 10));
                   (("A", "C"), Eth.amount (EthFixture.tx "A" "C" 3 10))] |}
      [("A", (0, 0)); ("B", (1, 0)); ("C", (1, -1)); ("D", (2, 0))]
    = [].
Proof.
  destruct (eth_main_places_every_node (EthFixture.ledger EthFixture.scenario)
              EthFixture.scenario 10%nat "A" 0 100 1
              {| nodes := [("A", Some 0); ("B", Some 1); ("D", Some 2); ("C", Some 1)];
                 edges := [(("A", "B"), Eth.amount (EthFixture.tx "A" "B" 5 10));
                           (("B", "D"), Eth.amount (EthFixture.tx "B" "D" 1 10));
                           (("A", "C"), Eth.amount (EthFixture.tx "A" "C" 3 10))] |}
              [("A", 0); ("B", 1); ("D", 2); ("C", 1)]
              [("A", (0, 0)); ("B", (1, 0)); ("C", (1, -1)); ("D", (2, 0))]
              (eth_ledger_serves _) ltac:(by vm_compute))
    as (_ & _ & _ & Hpin & _ & Hrest).
  by split.
Defined.

(** In the main block of [xrp_track.py], against a server that serves an
    account only transactions it sent or received: when the block gets to
    the layout, [build_graph] has added no entry to the level map the
    tracer left; the origin is the only account of level 0 and is pinned at
    [(0, 0)]; every node of the graph has a coordinate. *)
Theorem xrp_main_places_every_node :
  ∀ server history fuel origin s e k G lv pos,
    xrp_serves server history →
    xrp_main server fuel origin s e k = Ret (G, lv, pos) →
    lv = node_levels (snd (Xrp.trace_transactions server fuel origin s e 0 k
                             (init_state origin)))
    ∧ Dict.get lv origin = Some 0
    ∧ (∀ n, Dict.get lv n = Some 0 → n = origin)
    ∧ Dict.get pos origin = Some (0, 0)
    ∧ (∀ n, n ∈ Dict.keys (nodes G) → is_Some (Dict.get pos n)).
Proof.
  intros server history fuel origin s e k G lv pos Hsrv Hmain.
  unfold xrp_main in Hmain.
  destruct (Xrp.trace_transactions server fuel origin s e 0 k (init_state origin))
    as [[txns|ex|] st'] eqn:Hrun; [|done..].
  destruct (Xrp.build_graph txns (node_levels st')) as [[G1|ex|] lv1] eqn:Hb;
    [|done..].
  unfold after_layout in Hmain.
  destruct (Layout.visualize_graph_pos G1 lv1) as [pos1|ex|] eqn:Hpos; [|done..].
  injection Hmain as -> -> ->. simpl.
  pose proof (main_levels
    (fun a d m w => Xrp.fetch_all_transactions server fuel a s e d m w)
    Xrp.follow fuel origin k) as Hlv.
  unfold Xrp.trace_transactions in Hrun. rewrite Hrun in Hlv. simpl in Hlv.
  destruct Hlv as (Hnd & Horigin & Honly).
  assert (lv = node_levels st') as ->.
  { eapply (build_loop_no_default Xrp.edge_of); [|exact Hb].
    intros t src d w Ht He. apply xrp_edge_of_Some in He as (<- & Hd & _).
    destruct (trace_transactions_sourced _ _ _ _ _ _ _ _ _
                ltac:(rewrite init_state_level, decide_True; [by eexists|done])
                Hrun t Ht)
      as (a & b & Hserved & Hf & Hne & Hlevel).
    destruct Hserved as (d' & w' & txs & w'' & Hfetch & Hin).
    destruct (xrp_fetch_all_accepted _ _ _ _ _ _ _ _ _ _ _ Hfetch Hin)
      as [_ (clk & mark & limit & code & json & Hs & Hin')].
    destruct (Hsrv _ _ _ _ _ _ _ Hs Hin') as [_ [Hfr|Hto]]; [by rewrite Hfr|].
    apply xrp_follow_Some in Hf as [Hd' _]. congruence. }
  destruct (layout_places_all G (node_levels st') origin Hnd Horigin Honly)
    as (pos' & Hpos' & Hpin & Hall).
  rewrite Hpos in Hpos'. injection Hpos' as <-.
  split_and!; try done.
  intros n Hn%dict_get_keys. apply Hall.
  eapply (build_loop_nodes Xrp.edge_of); [exact Hb| |done].
  simpl. by intros n' [? ?].
Qed.

Lemma xrp_main_places_every_node_witness :
  Dict.get [("A", (0, 0)); ("B", (1, 0)); ("C", (1, -1)); ("D", (2, 0))] "A"
  = Some (0, 0)
  ∧ ∀ n, n ∈ ["A"; "B"; "D"; "C"] →
         is_Some (Dict.get
                    [("A", (0, 0)); ("B", (1, 0)); ("C", (1, -1)); ("D", (2, 0))]
                    n).
Proof.
  destruct (xrp_main_places_every_node (XrpFixture.ledger XrpFixture.scenario)
              XrpFixture.scenario 10%nat "A" 0 100 1
              {| nodes := [("A", Some 0); ("B", Some 1); ("D", Some 2); ("C", Some 1)];
                 edges := [(("A", "B"), Xrp.amount 5000000);
                           (("B", "D"), Xrp.amount 1000000);
                           (("A", "C"), Xrp.amount 3000000)] |}
              [("A", 0); ("B", 1); ("D", 2); ("C", 1)]
              [("A", (0, 0)); ("B", (1, 0)); ("C", (1, -1)); ("D", (2, 0))]
              (xrp_ledger_serves _) ltac:(by vm_compute))
    as (_ & _ & _ & Hpin & Hall).
  by split.
Defined.
